(** * mob: the git tool (src/tools/git.cpp, src/tools/git.h)

    A shallow embedding of the command layer ([details::*]), of the
    repository wrapper ([git_wrap]), of the git tool ([git]) and of the
    background submodule adder ([git_submodule_adder]), with the
    properties of the specification stated over it. *)

From Stdlib Require Import ZArith List Ascii Bool Lia.
From stdpp Require Import base option list gmap strings pretty.

Local Open Scope Z_scope.

(** ** Strings, as [std::string] is used by the tool *)

Module Str.

Definition empty (s : string) : bool :=
  match s with EmptyString => true | String _ _ => false end.

Fixpoint length (s : string) : nat :=
  match s with EmptyString => O | String _ r => S (length r) end.

(** [s.substr(pos)]: the characters from [pos] to the end. *)
Fixpoint substr (s : string) (pos : nat) : string :=
  match pos, s with
  | O, _ => s
  | S n, String _ r => substr r n
  | S _, EmptyString => EmptyString
  end.

Fixpoint mem (c : ascii) (set : string) : bool :=
  match set with
  | EmptyString => false
  | String d r => if Ascii.eqb c d then true else mem c r
  end.

(** [s.find_last_of(set)]: index of the last character of [s] that is
    one of [set], [None] for [npos]. *)
Fixpoint find_last_of (s set : string) : option nat :=
  match s with
  | EmptyString => None
  | String c r =>
      match find_last_of r set with
      | Some i => Some (S i)
      | None => if mem c set then Some O else None
      end
  end.

Fixpoint starts_with (s pre : string) : bool :=
  match pre, s with
  | EmptyString, _ => true
  | String p pr, String c r => if Ascii.eqb c p then starts_with r pr else false
  | String _ _, EmptyString => false
  end.

(** [s.ends_with(suf)] *)
Definition ends_with (s suf : string) : bool :=
  if Nat.ltb (length s) (length suf) then false
  else String.eqb (substr s (length s - length suf)) suf.

(** [s.find(sub) != npos] *)
Fixpoint contains (s sub : string) : bool :=
  if starts_with s sub then true
  else match s with
       | EmptyString => false
       | String _ r => contains r sub
       end.

Fixpoint drop_while (f : ascii -> bool) (s : string) : string :=
  match s with
  | EmptyString => EmptyString
  | String c r => if f c then drop_while f r else s
  end.

Fixpoint drop_while_end (f : ascii -> bool) (s : string) : string :=
  match s with
  | EmptyString => EmptyString
  | String c r =>
      match drop_while_end f r with
      | EmptyString => if f c then EmptyString else String c EmptyString
      | r' => String c r'
      end
  end.

Fixpoint all (f : ascii -> bool) (s : string) : bool :=
  match s with
  | EmptyString => true
  | String c r => f c && all f r
  end.

(** Modelled from the spec: [trim_copy] of utility/string.h, which is
    not under src/; the spec only says the segment is "trimmed". It
    strips the characters of [what] from both ends, and [what] is the
    white space [" \t\r\n"]. *)
Definition whitespace : string :=
  String " " (String "009" (String "013" (String "010" EmptyString))).

Definition trim_copy (s : string) : string :=
  drop_while_end (fun c => mem c whitespace)
                 (drop_while (fun c => mem c whitespace) s).

(** [std::format(pattern, args...)] for the patterns written in these
    sources, whose only replacement fields are plain [{}] and which
    have no escaped brace: the fields are replaced by the arguments, in
    order. A pattern that comes from outside is not formatted with
    this, see [details.git_url_pattern_format_string]. *)
Fixpoint format_args (pat : string) (args : list string) : string :=
  match pat with
  | String "{" (String "}" r) =>
      match args with
      | a :: args' => a +:+ format_args r args'
      | [] => format_args r []
      end
  | String c r => String c (format_args r args)
  | EmptyString => EmptyString
  end.

End Str.

(** ** Paths, as [fs::path] is used by the tool (generic format) *)

Definition path := string.

Module Path.

(** [a / b] for a relative [b]. *)
Definition append (a b : path) : path :=
  if Str.empty a then b
  else if Str.ends_with a "/" then a +:+ b
  else a +:+ "/" +:+ b.

(** [p.filename()]: what follows the last separator. *)
Definition filename (p : path) : string :=
  match Str.find_last_of p "/" with
  | Some i => Str.substr p (S i)
  | None => p
  end.

(** [p.extension()]: from the rightmost period of the file name to its
    end; empty for [.] and [..], and a period that starts the file
    name does not count. *)
Definition extension (p : path) : string :=
  let f := filename p in
  if String.eqb f "." || String.eqb f ".." then ""
  else match Str.find_last_of f "." with
       | Some (S i) => Str.substr f (S i)
       | _ => ""
       end.

End Path.

(** ** The process description ([process] of core/process.h) *)

Inductive level := lv_dump | lv_trace | lv_debug | lv_info | lv_warning | lv_error.

Inductive arg_flags := noflags | log_quiet | forward_slashes.

Inductive arg :=
| Arg (value : string) (f : arg_flags)
| ArgKV (key value : string) (f : arg_flags).

Abbreviation env := (gmap string string) (only parsing).

(** Modelled from the spec: the Invocation of the data model (the
    [process] class of core/process.h is not under src/): executable,
    ordered arguments, working directory, environment, optional stdin,
    per-stream log levels, stderr line filter and the two flags the
    command layer sets. Each builder method updates its own field and
    [arg] appends. *)
Record process := {
  p_binary : path;
  p_env : env;
  p_args : list arg;
  p_cwd : option path;
  p_stdin : option string;
  p_stdout_level : option level;
  p_stderr_level : option level;
  p_stderr_filter : option (string -> level -> level);
  p_allow_failure : bool;
  p_keep_in_string : bool
}.

Module Process.

Definition new : process :=
  {| p_binary := ""; p_env := ∅; p_args := []; p_cwd := None;
     p_stdin := None; p_stdout_level := None; p_stderr_level := None;
     p_stderr_filter := None; p_allow_failure := false;
     p_keep_in_string := false |}.

Definition binary (b : path) (p : process) : process :=
  {| p_binary := b; p_env := p_env p; p_args := p_args p; p_cwd := p_cwd p;
     p_stdin := p_stdin p; p_stdout_level := p_stdout_level p;
     p_stderr_level := p_stderr_level p; p_stderr_filter := p_stderr_filter p;
     p_allow_failure := p_allow_failure p; p_keep_in_string := p_keep_in_string p |}.

Definition env (e : env) (p : process) : process :=
  {| p_binary := p_binary p; p_env := e; p_args := p_args p; p_cwd := p_cwd p;
     p_stdin := p_stdin p; p_stdout_level := p_stdout_level p;
     p_stderr_level := p_stderr_level p; p_stderr_filter := p_stderr_filter p;
     p_allow_failure := p_allow_failure p; p_keep_in_string := p_keep_in_string p |}.

Definition add_arg (a : arg) (p : process) : process :=
  {| p_binary := p_binary p; p_env := p_env p; p_args := p_args p ++ [a];
     p_cwd := p_cwd p;
     p_stdin := p_stdin p; p_stdout_level := p_stdout_level p;
     p_stderr_level := p_stderr_level p; p_stderr_filter := p_stderr_filter p;
     p_allow_failure := p_allow_failure p; p_keep_in_string := p_keep_in_string p |}.

Definition arg (v : string) : process -> process := add_arg (Arg v noflags).
Definition arg_f (v : string) (f : arg_flags) : process -> process := add_arg (Arg v f).
Definition arg2 (k v : string) : process -> process := add_arg (ArgKV k v noflags).
Definition arg2_f (k v : string) (f : arg_flags) : process -> process :=
  add_arg (ArgKV k v f).

Definition cwd (d : path) (p : process) : process :=
  {| p_binary := p_binary p; p_env := p_env p; p_args := p_args p; p_cwd := Some d;
     p_stdin := p_stdin p; p_stdout_level := p_stdout_level p;
     p_stderr_level := p_stderr_level p; p_stderr_filter := p_stderr_filter p;
     p_allow_failure := p_allow_failure p; p_keep_in_string := p_keep_in_string p |}.

Definition stdin_string (s : string) (p : process) : process :=
  {| p_binary := p_binary p; p_env := p_env p; p_args := p_args p; p_cwd := p_cwd p;
     p_stdin := Some s; p_stdout_level := p_stdout_level p;
     p_stderr_level := p_stderr_level p; p_stderr_filter := p_stderr_filter p;
     p_allow_failure := p_allow_failure p; p_keep_in_string := p_keep_in_string p |}.

Definition stdout_level (l : level) (p : process) : process :=
  {| p_binary := p_binary p; p_env := p_env p; p_args := p_args p; p_cwd := p_cwd p;
     p_stdin := p_stdin p; p_stdout_level := Some l;
     p_stderr_level := p_stderr_level p; p_stderr_filter := p_stderr_filter p;
     p_allow_failure := p_allow_failure p; p_keep_in_string := p_keep_in_string p |}.

Definition stderr_level (l : level) (p : process) : process :=
  {| p_binary := p_binary p; p_env := p_env p; p_args := p_args p; p_cwd := p_cwd p;
     p_stdin := p_stdin p; p_stdout_level := p_stdout_level p;
     p_stderr_level := Some l; p_stderr_filter := p_stderr_filter p;
     p_allow_failure := p_allow_failure p; p_keep_in_string := p_keep_in_string p |}.

Definition stderr_filter (f : string -> level -> level) (p : process) : process :=
  {| p_binary := p_binary p; p_env := p_env p; p_args := p_args p; p_cwd := p_cwd p;
     p_stdin := p_stdin p; p_stdout_level := p_stdout_level p;
     p_stderr_level := p_stderr_level p; p_stderr_filter := Some f;
     p_allow_failure := p_allow_failure p; p_keep_in_string := p_keep_in_string p |}.

(** [flags(process::allow_failure)] *)
Definition flags_allow_failure (p : process) : process :=
  {| p_binary := p_binary p; p_env := p_env p; p_args := p_args p; p_cwd := p_cwd p;
     p_stdin := p_stdin p; p_stdout_level := p_stdout_level p;
     p_stderr_level := p_stderr_level p; p_stderr_filter := p_stderr_filter p;
     p_allow_failure := true; p_keep_in_string := p_keep_in_string p |}.

(** [stdout_flags(process::keep_in_string)] *)
Definition stdout_keep_in_string (p : process) : process :=
  {| p_binary := p_binary p; p_env := p_env p; p_args := p_args p; p_cwd := p_cwd p;
     p_stdin := p_stdin p; p_stdout_level := p_stdout_level p;
     p_stderr_level := p_stderr_level p; p_stderr_filter := p_stderr_filter p;
     p_allow_failure := p_allow_failure p; p_keep_in_string := true |}.

End Process.

(** The builder chains of the source read left to right. *)
Notation "p '|>' f" := (f p) (at level 45, left associativity, only parsing).

(** ** Configuration the tool reads ([conf()], [this_env::get()]) *)

Record config := {
  conf_tool_git : path;            (* conf().tool().get("git") *)
  conf_ignore_uncommitted : bool;  (* conf().global().get<bool>("ignore_uncommitted") *)
  conf_this_env : env              (* this_env::get() *)
}.

(** ** The command layer: namespace [mob::details] *)

Module details.
Section Commands.

Variable cfg : config.

(** [git_wrap::binary] *)
Definition binary : path := conf_tool_git cfg.

(** [git_url_pattern_format_string] is a [std::format_string] for two
    strings: the compiler has checked it against its two arguments, and
    all the code does with it is to format them. It is kept as what
    [std::format] makes of it, the function from the two arguments to
    the text; the grammar of format strings (escaped braces, numbered
    fields, format specifications) is that of [std::format] and no part
    of this program. *)
Definition git_url_pattern_format_string : Type := string -> string -> string.

(** the pattern of the source, [git@github.com:{}/{}]: two plain fields,
    filled in order *)
Definition default_url_pattern : git_url_pattern_format_string :=
  fun org git_file => Str.format_args "git@github.com:{}/{}" [org; git_file].

Definition make_url (org git_file : string)
    (url_pattern : option git_url_pattern_format_string) : string :=
  default default_url_pattern url_pattern org git_file.

(** [env::set] (core/env.h is not under src/) sets the variable,
    replacing what the ambient environment had for it. *)
Definition make_process : process :=
  let e := <["GIT_TERMINAL_PROMPT" := "0"]>
             (<["GCM_INTERACTIVE" := "never"]> (conf_this_env cfg)) in
  Process.new |> Process.binary binary |> Process.env e.

Definition init (root : path) : process :=
  make_process |> Process.arg "init" |> Process.cwd root.

Definition set_config (root : path) (key value : string) : process :=
  make_process
    |> Process.stderr_level lv_trace
    |> Process.arg "config"
    |> Process.arg key
    |> Process.arg value
    |> Process.cwd root.

Definition apply (root : path) (diff : string) : process :=
  make_process
    |> Process.stdin_string diff
    |> Process.arg "apply"
    |> Process.arg2 "--whitespace" "nowarn"
    |> Process.arg "-"
    |> Process.cwd root.

Definition fetch (root : path) (remote branch : string) : process :=
  make_process |> Process.arg "fetch" |> Process.arg "-q"
    |> Process.arg remote |> Process.arg branch |> Process.cwd root.

Definition checkout (root : path) (what : string) : process :=
  make_process
    |> Process.arg2 "-c" "advice.detachedHead=false"
    |> Process.arg "checkout"
    |> Process.arg "-q"
    |> Process.arg what
    |> Process.cwd root.

Definition revert (root file : path) : process :=
  make_process
    |> Process.stderr_level lv_trace
    |> Process.arg "checkout"
    |> Process.arg file
    |> Process.cwd root.

Definition current_branch (root : path) : process :=
  make_process
    |> Process.stdout_keep_in_string
    |> Process.arg "branch"
    |> Process.arg "--show-current"
    |> Process.cwd root.

Definition add_submodule (root : path) (branch submodule url : string) : process :=
  make_process
    |> Process.stderr_level lv_trace
    |> Process.arg2 "-c" "core.autocrlf=false"
    |> Process.arg "submodule"
    |> Process.arg "--quiet"
    |> Process.arg "add"
    |> Process.arg2 "-b" branch
    |> Process.arg "--force"
    |> Process.arg2 "--name" submodule
    |> Process.arg url
    |> Process.arg submodule
    |> Process.cwd root.

Definition clone (root : path) (url branch : string) (shallow : bool) : process :=
  let p := make_process
             |> Process.stderr_level lv_trace
             |> Process.arg "clone"
             |> Process.arg "--recurse-submodules" in
  let p := if shallow then p |> Process.arg2 "--depth" "1" else p in
  p |> Process.arg2 "--branch" branch
    |> Process.arg_f "--quiet" log_quiet
    |> Process.arg2_f "-c" "advice.detachedHead=false" log_quiet
    |> Process.arg url
    |> Process.arg root.

Definition pull (root : path) (url branch : string) : process :=
  make_process
    |> Process.stderr_level lv_trace
    |> Process.arg "pull"
    |> Process.arg "--recurse-submodules"
    |> Process.arg_f "--quiet" log_quiet
    |> Process.arg url
    |> Process.arg branch
    |> Process.cwd root.

Definition has_remote (root : path) (name : string) : process :=
  make_process
    |> Process.flags_allow_failure
    |> Process.stderr_level lv_debug
    |> Process.arg "config"
    |> Process.arg ("remote." +:+ name +:+ ".url")
    |> Process.cwd root.

Definition rename_remote (root : path) (from to : string) : process :=
  make_process |> Process.arg "remote" |> Process.arg "rename"
    |> Process.arg from |> Process.arg to |> Process.cwd root.

Definition add_remote (root : path) (name url : string) : process :=
  make_process |> Process.arg "remote" |> Process.arg "add"
    |> Process.arg name |> Process.arg url |> Process.cwd root.

Definition set_remote_push (root : path) (remote url : string) : process :=
  make_process
    |> Process.arg "remote"
    |> Process.arg "set-url"
    |> Process.arg "--push"
    |> Process.arg remote
    |> Process.arg url
    |> Process.cwd root.

Definition set_assume_unchanged (root file : path) (on : bool) : process :=
  make_process
    |> Process.arg "update-index"
    |> Process.arg (if on then "--assume-unchanged" else "--no-assume-unchanged")
    |> Process.arg_f file forward_slashes
    |> Process.cwd root.

Definition is_tracked (root file : path) : process :=
  make_process
    |> Process.stdout_level lv_debug
    |> Process.stderr_level lv_debug
    |> Process.flags_allow_failure
    |> Process.arg "ls-files"
    |> Process.arg "--error-unmatch"
    |> Process.arg_f file forward_slashes
    |> Process.cwd root.

Definition is_repo_filter (line : string) (lv : level) : level :=
  if Str.contains line "not a git repo" then lv_trace else lv.

Definition is_repo (root : path) : process :=
  make_process
    |> Process.arg "rev-parse"
    |> Process.arg "--is-inside-work-tree"
    |> Process.stderr_filter is_repo_filter
    |> Process.flags_allow_failure
    |> Process.cwd root.

Definition remote_branch_exists (url branch : string) : process :=
  make_process
    |> Process.flags_allow_failure
    |> Process.arg "ls-remote"
    |> Process.arg "--exit-code"
    |> Process.arg "--heads"
    |> Process.arg url
    |> Process.arg branch.

Definition has_uncommitted_changes (root : path) : process :=
  make_process
    |> Process.flags_allow_failure
    |> Process.stdout_keep_in_string
    |> Process.arg "status"
    |> Process.arg "-s"
    |> Process.arg "--porcelain"
    |> Process.cwd root.

Definition has_stashed_changes (root : path) : process :=
  make_process
    |> Process.flags_allow_failure
    |> Process.stderr_level lv_trace
    |> Process.arg "stash show"
    |> Process.cwd root.

Definition remote_url (root : path) : process :=
  make_process
    |> Process.stdout_keep_in_string
    |> Process.arg "remote"
    |> Process.arg "get-url"
    |> Process.arg "origin"
    |> Process.cwd root.

End Commands.
End details.


(** ** The world the tool acts on *)

(** Log contexts: the global one ([gcx()]) or a named one (a task's, the
    submodule adder's). *)
Inductive context := gcx | cx_named (name : string).

Inductive reason := generic | redownload.

(** A tool that runs processes on behalf of a task
    ([basic_process_runner]): its name and the context it logs to. *)
Record basic_process_runner := {
  runner_name : string;
  runner_cx : context
}.

Record directory_entry := {
  entry_path : path;
  entry_is_regular_file : bool
}.

(** What the tool does to the outside, in the order it does it. *)
Inductive event :=
| Spawn (via : option basic_process_runner) (p : process) (code : Z) (out : string)
| Log (cx : context) (lv : level) (r : reason) (msg : string)
| DeleteDirectory (cx : context) (dir : path).

(** The collaborators the tool calls and does not implement: the
    operating system running a process (exit code, standard output, new
    world), [fs::exists], [fs::recursive_directory_iterator],
    [fs::relative] and [op::delete_directory] with [op::optional].

    A walk with [fs::recursive_directory_iterator] gives the entries it
    reaches ([sys_walk]) and then either ends or throws a
    [std::filesystem::filesystem_error] ([sys_walk_error]): a root that
    is missing or cannot be read throws at once, before any entry; a
    directory that cannot be entered, or an entry whose kind cannot be
    read, throws after the entries before it. *)
Class System (W : Type) := {
  sys_spawn : process -> W -> Z * string * W;
  sys_exists : path -> W -> bool;
  sys_walk : path -> W -> list directory_entry;
  sys_walk_error : path -> W -> bool;
  sys_relative : path -> path -> path;
  sys_delete_directory : path -> W -> W
}.

(** ** Fallible, effectful code: an exception unwinds, the world and
    the events up to it stay. [Bailed] is the exception [bailed] of a
    bail-out; [Thrown] is any other exception, here the
    [std::filesystem::filesystem_error] of a directory walk. Nothing in
    these sources catches [Thrown]. *)

Inductive result (A : Type) :=
| Ok (a : A)
| Bailed
| Thrown.

Arguments Ok {A} a.
Arguments Bailed {A}.
Arguments Thrown {A}.

Definition M (W A : Type) : Type := W -> result A * W * list event.

Definition ret {W A} (a : A) : M W A := fun w => (Ok a, w, []).

Definition bind {W A B} (m : M W A) (f : A -> M W B) : M W B :=
  fun w =>
    match m w with
    | (Ok a, w1, t1) => let '(r, w2, t2) := f a w1 in (r, w2, t1 ++ t2)
    | (Bailed, w1, t1) => (Bailed, w1, t1)
    | (Thrown, w1, t1) => (Thrown, w1, t1)
    end.

Declare Scope tool_scope.
Delimit Scope tool_scope with tool.
Notation "x <- m ;; k" := (bind m (fun x => k))
  (at level 100, m at next level, k at level 200, right associativity) : tool_scope.
Notation "m ;; k" := (bind m (fun _ => k))
  (at level 100, k at level 200, right associativity) : tool_scope.
Local Open Scope tool_scope.

(** [throw bailed()] *)
Definition throw_bailed {W A} : M W A := fun w => (Bailed, w, []).

(** an exception that is not [bailed] leaves the function *)
Definition throw_other {W A} : M W A := fun w => (Thrown, w, []).

Definition emit {W} (e : event) : M W unit := fun w => (Ok tt, w, [e]).

Definition when {W} (b : bool) (m : M W unit) : M W unit :=
  if b then m else ret tt.

(** [for (auto&& x : xs) body(x)] *)
Fixpoint for_each {W A} (xs : list A) (body : A -> M W unit) : M W unit :=
  match xs with
  | [] => ret tt
  | x :: xs' => body x ;; for_each xs' body
  end.

Definition result_of {W A} (m : M W A) (w : W) : result A := fst (fst (m w)).
Definition world_of {W A} (m : M W A) (w : W) : W := snd (fst (m w)).
Definition trace_of {W A} (m : M W A) (w : W) : list event := snd (m w).

(** ** Logging ([context]) *)

Module Cx.
Section Logging.

Context {W : Type}.

Definition log (cx : context) (lv : level) (r : reason) (fmt : string)
    (args : list string) : M W unit :=
  emit (Log cx lv r (Str.format_args fmt args)).

Definition trace := fun cx => log cx lv_trace.
Definition debug := fun cx => log cx lv_debug.
Definition error := fun cx => log cx lv_error.

(** Modelled from the spec: [context::bail_out] (core/context.h is not
    under src/), the bail-out of the glossary: the message is reported as
    an error and the current operation is aborted by throwing [bailed]. *)
Definition bail_out {A} (cx : context) (r : reason) (fmt : string)
    (args : list string) : M W A :=
  error cx r fmt args ;; throw_bailed.

End Logging.
End Cx.

(** ** The process primitive *)

Module Proc.
Section Primitive.

Context {W : Type} `{System W}.

(** Modelled from the spec: [process::run_and_join] and
    [basic_process_runner::execute_and_join] (core/process.h and
    tools.h are not under src/): the process runs to its end and its exit
    code is returned; a nonzero exit code is escalated to a fatal error
    unless the process allows failure. *)
Definition run_and_join (via : option basic_process_runner) (p : process)
    : M W (Z * string) :=
  fun w =>
    let '(code, out, w') := sys_spawn p w in
    if negb (code =? 0) && negb (p_allow_failure p)
    then (Bailed, w', [Spawn via p code out])
    else (Ok (code, out), w', [Spawn via p code out]).

(** Modelled from the spec: [process::stdout_string], the captured
    standard output, kept only under [keep_in_string]. *)
Definition stdout_string (p : process) (out : string) : string :=
  if p_keep_in_string p then out else "".

Definition fs_exists (p : path) : M W bool :=
  fun w => (Ok (sys_exists p w), w, []).

(** the walk from [root]: the entries it reaches, and whether it ends
    with an exception after them *)
Definition recursive_directory_iterator (root : path)
    : M W (list directory_entry * bool) :=
  fun w => (Ok (sys_walk root w, sys_walk_error root w), w, []).

(** [op::delete_directory(cx, dir, op::optional)] *)
Definition op_delete_directory (cx : context) (dir : path) : M W unit :=
  fun w => (Ok tt, sys_delete_directory dir w, [DeleteDirectory cx dir]).

End Primitive.
End Proc.

(** ** [details::for_each_ts] *)

Section ForEachTs.

Context {W : Type} `{System W}.

Definition path_to_utf8 (p : path) : string := p.

(** calls [f] with each .ts file in the root, recursive *)
Definition for_each_ts (root : path) (f : path -> M W unit) : M W unit :=
  walk <- Proc.recursive_directory_iterator root ;;
  for_each (fst walk) (fun e =>
    if negb (entry_is_regular_file e) then ret tt
    else
      let p := entry_path e in
      if negb (Str.ends_with (path_to_utf8 (Path.extension p)) ".ts") then ret tt
      else f p) ;;
  when (snd walk) throw_other.

End ForEachTs.

(** ** The repository wrapper: class [git_wrap] *)

Module git_wrap.

Record t := {
  root_ : path;
  runner_ : option basic_process_runner
}.

Section Wrapper.

Context {W : Type} `{System W}.
Variable cfg : config.

(** [git_wrap g(root, runner)], the runner defaults to [nullptr] *)
Definition make (root : path) (runner : option basic_process_runner) : t :=
  {| root_ := root; runner_ := runner |}.

Definition run (g : t) (p : process) : M W (Z * string) :=
  match runner_ g with
  | Some r => Proc.run_and_join (Some r) p
  | None => Proc.run_and_join None p
  end.

Definition cx (g : t) : context :=
  match runner_ g with
  | Some r => runner_cx r
  | None => gcx
  end.

Definition clone (g : t) (url branch : string) (shallow : bool) : M W unit :=
  _ <- run g (details.clone cfg (root_ g) url branch shallow) ;; ret tt.

Definition pull (g : t) (url branch : string) : M W unit :=
  _ <- run g (details.pull cfg (root_ g) url branch) ;; ret tt.

Definition set_config (g : t) (key value : string) : M W unit :=
  _ <- run g (details.set_config cfg (root_ g) key value) ;; ret tt.

Definition set_credentials (g : t) (username email : string) : M W unit :=
  Cx.debug (cx g) generic "setting up credentials" [] ;;
  when (negb (Str.empty username)) (set_config g "user.name" username) ;;
  when (negb (Str.empty email)) (set_config g "user.email" email).

Definition rename_remote (g : t) (from to : string) : M W unit :=
  _ <- run g (details.rename_remote cfg (root_ g) from to) ;; ret tt.

Definition set_remote_push (g : t) (remote url : string) : M W unit :=
  _ <- run g (details.set_remote_push cfg (root_ g) remote url) ;; ret tt.

Definition set_assume_unchanged (g : t) (file : path) (on : bool) : M W unit :=
  _ <- run g (details.set_assume_unchanged cfg (root_ g) file on) ;; ret tt.

Definition is_tracked (g : t) (file : path) : M W bool :=
  r <- run g (details.is_tracked cfg (root_ g) file) ;; ret (fst r =? 0).

Definition has_remote (g : t) (name : string) : M W bool :=
  r <- run g (details.has_remote cfg (root_ g) name) ;; ret (fst r =? 0).

Definition ignore_ts (g : t) (b : bool) : M W unit :=
  for_each_ts (root_ g) (fun p =>
    let rp := sys_relative p (root_ g) in
    tracked <- is_tracked g rp ;;
    if tracked then
      Cx.trace (cx g) generic "  . {}" [rp] ;;
      set_assume_unchanged g rp b
    else
      Cx.trace (cx g) generic "  . {} (skipping, not tracked)" [rp]).

Definition revert_ts (g : t) : M W unit :=
  for_each_ts (root_ g) (fun p =>
    let rp := sys_relative p (root_ g) in
    tracked <- is_tracked g rp ;;
    if tracked then
      _ <- run g (details.revert cfg (root_ g) p) ;; ret tt
    else
      Cx.debug (cx g) generic "won't try to revert ts file '{}', not tracked" [rp]).

Definition git_file (g : t) : M W string :=
  let p := details.remote_url cfg (root_ g) in
  r <- run g p ;;
  (* contains the remote url, get the last component *)
  let out := Proc.stdout_string p (snd r) in
  match Str.find_last_of out "/" with
  | None =>
      Cx.error (cx g) generic "bad get-url output '{}'" [out] ;;
      throw_bailed
  | Some last_slash =>
      let s := Str.trim_copy (Str.substr out (last_slash + 1)%nat) in
      if Str.empty s then
        Cx.error (cx g) generic "bad get-url output '{}'" [out] ;;
        throw_bailed
      else ret s
  end.

(** [opt.value_or(x)]: the argument is an ordinary function argument,
    so it is evaluated before the optional is looked at. *)
Definition value_or {A} (opt : option A) (x : M W A) : M W A :=
  v <- x ;; ret (default v opt).

Definition add_remote (g : t) (remote_name username key : string)
    (push_default : bool)
    (url_pattern : option details.git_url_pattern_format_string)
    (opt_git_file : option string) : M W unit :=
  gf <- value_or opt_git_file (git_file g) ;;
  exists_ <- has_remote g remote_name ;;
  if negb exists_ then
    _ <- run g (details.add_remote cfg (root_ g) remote_name
                  (details.make_url username gf url_pattern)) ;;
    when push_default (set_config g "remote.pushdefault" remote_name) ;;
    when (negb (Str.empty key))
         (set_config g ("remote." +:+ remote_name +:+ ".puttykeyfile") key)
  else ret tt.

Definition set_origin_and_upstream_remotes (g : t) (org key : string)
    (no_push_upstream push_default_origin : bool) : M W unit :=
  up <- has_remote g "upstream" ;;
  if up then
    Cx.trace (cx g) generic "upstream remote already exists" []
  else
    gf <- git_file g ;;
    rename_remote g "origin" "upstream" ;;
    when no_push_upstream (set_remote_push g "upstream" "nopushurl") ;;
    add_remote g "origin" org key push_default_origin None (Some gf).

Definition init_repo (g : t) : M W unit :=
  _ <- run g (details.init cfg (root_ g)) ;; ret tt.

Definition apply (g : t) (diff : string) : M W unit :=
  _ <- run g (details.apply cfg (root_ g) diff) ;; ret tt.

Definition fetch (g : t) (remote branch : string) : M W unit :=
  _ <- run g (details.fetch cfg (root_ g) remote branch) ;; ret tt.

Definition checkout (g : t) (what : string) : M W unit :=
  _ <- run g (details.checkout cfg (root_ g) what) ;; ret tt.

Definition current_branch (g : t) : M W string :=
  let p := details.current_branch cfg (root_ g) in
  r <- run g p ;;
  ret (Str.trim_copy (Proc.stdout_string p (snd r))).

Definition add_submodule (g : t) (branch submodule url : string) : M W unit :=
  _ <- run g (details.add_submodule cfg (root_ g) branch submodule url) ;; ret tt.

Definition is_git_repo (g : t) : M W bool :=
  r <- run g (details.is_repo cfg (root_ g)) ;; ret (fst r =? 0).

Definition remote_branch_exists (u name : string) : M W bool :=
  r <- Proc.run_and_join None (details.remote_branch_exists cfg u name) ;;
  ret (fst r =? 0).

Definition has_uncommitted_changes (g : t) : M W bool :=
  let p := details.has_uncommitted_changes cfg (root_ g) in
  r <- run g p ;;
  ret (negb (String.eqb (Proc.stdout_string p (snd r)) "")).

Definition has_stashed_changes (g : t) : M W bool :=
  let p := details.has_stashed_changes cfg (root_ g) in
  r <- run g p ;;
  ret (fst r =? 0).

Definition delete_directory (cx : context) (dir : path) : M W unit :=
  let g := make dir None in
  repo <- is_git_repo g ;;
  when repo (
    (* make sure there are no uncommitted or stashed changes to avoid
       losing data *)
    when (negb (conf_ignore_uncommitted cfg)) (
      uncommitted <- has_uncommitted_changes g ;;
      when uncommitted
        (Cx.bail_out cx redownload
           "will not delete {}, has uncommitted changes; see --ignore-uncommitted-changes"
           [dir]) ;;
      stashed <- has_stashed_changes g ;;
      when stashed
        (Cx.bail_out cx redownload
           "will not delete {}, has stashed changes; see --ignore-uncommitted-changes"
           [dir])) ;;
    Cx.trace cx redownload "deleting directory controlled by git {}" [dir]) ;;
  Proc.op_delete_directory cx dir.

End Wrapper.
End git_wrap.

(** ** The git tool: class [git] *)

Module git.

(** [enum ops]: the three named operations, numbered from 1, and any
    other value the enumeration's integer can hold. *)
Inductive ops :=
| clone
| pull
| clone_or_pull
| other (n : Z).

Record t := {
  op_ : ops;
  url_ : string;
  root_ : path;
  branch_ : string;
  ignore_ts_ : bool;
  revert_ts_ : bool;
  creds_username_ : string;
  creds_email_ : string;
  shallow_ : bool;
  remote_org_ : string;
  remote_key_ : string;
  no_push_upstream_ : bool;
  push_default_origin_ : bool;
  cx_ : context
}.

(** [git::git(ops o)]; the context is the one of the task that runs the
    tool. *)
Definition make (o : ops) (c : context) : t :=
  {| op_ := o; url_ := ""; root_ := ""; branch_ := "";
     ignore_ts_ := false; revert_ts_ := false;
     creds_username_ := ""; creds_email_ := ""; shallow_ := false;
     remote_org_ := ""; remote_key_ := "";
     no_push_upstream_ := false; push_default_origin_ := false; cx_ := c |}.

Definition url (u : string) (g : t) : t :=
  {| op_ := op_ g; url_ := u; root_ := root_ g; branch_ := branch_ g;
     ignore_ts_ := ignore_ts_ g; revert_ts_ := revert_ts_ g;
     creds_username_ := creds_username_ g; creds_email_ := creds_email_ g;
     shallow_ := shallow_ g; remote_org_ := remote_org_ g;
     remote_key_ := remote_key_ g; no_push_upstream_ := no_push_upstream_ g;
     push_default_origin_ := push_default_origin_ g; cx_ := cx_ g |}.

Definition root (dir : path) (g : t) : t :=
  {| op_ := op_ g; url_ := url_ g; root_ := dir; branch_ := branch_ g;
     ignore_ts_ := ignore_ts_ g; revert_ts_ := revert_ts_ g;
     creds_username_ := creds_username_ g; creds_email_ := creds_email_ g;
     shallow_ := shallow_ g; remote_org_ := remote_org_ g;
     remote_key_ := remote_key_ g; no_push_upstream_ := no_push_upstream_ g;
     push_default_origin_ := push_default_origin_ g; cx_ := cx_ g |}.

Definition branch (name : string) (g : t) : t :=
  {| op_ := op_ g; url_ := url_ g; root_ := root_ g; branch_ := name;
     ignore_ts_ := ignore_ts_ g; revert_ts_ := revert_ts_ g;
     creds_username_ := creds_username_ g; creds_email_ := creds_email_ g;
     shallow_ := shallow_ g; remote_org_ := remote_org_ g;
     remote_key_ := remote_key_ g; no_push_upstream_ := no_push_upstream_ g;
     push_default_origin_ := push_default_origin_ g; cx_ := cx_ g |}.

Definition ignore_ts_on_clone (b : bool) (g : t) : t :=
  {| op_ := op_ g; url_ := url_ g; root_ := root_ g; branch_ := branch_ g;
     ignore_ts_ := b; revert_ts_ := revert_ts_ g;
     creds_username_ := creds_username_ g; creds_email_ := creds_email_ g;
     shallow_ := shallow_ g; remote_org_ := remote_org_ g;
     remote_key_ := remote_key_ g; no_push_upstream_ := no_push_upstream_ g;
     push_default_origin_ := push_default_origin_ g; cx_ := cx_ g |}.

Definition revert_ts_on_pull (b : bool) (g : t) : t :=
  {| op_ := op_ g; url_ := url_ g; root_ := root_ g; branch_ := branch_ g;
     ignore_ts_ := ignore_ts_ g; revert_ts_ := b;
     creds_username_ := creds_username_ g; creds_email_ := creds_email_ g;
     shallow_ := shallow_ g; remote_org_ := remote_org_ g;
     remote_key_ := remote_key_ g; no_push_upstream_ := no_push_upstream_ g;
     push_default_origin_ := push_default_origin_ g; cx_ := cx_ g |}.

Definition credentials (username email : string) (g : t) : t :=
  {| op_ := op_ g; url_ := url_ g; root_ := root_ g; branch_ := branch_ g;
     ignore_ts_ := ignore_ts_ g; revert_ts_ := revert_ts_ g;
     creds_username_ := username; creds_email_ := email;
     shallow_ := shallow_ g; remote_org_ := remote_org_ g;
     remote_key_ := remote_key_ g; no_push_upstream_ := no_push_upstream_ g;
     push_default_origin_ := push_default_origin_ g; cx_ := cx_ g |}.

Definition shallow (b : bool) (g : t) : t :=
  {| op_ := op_ g; url_ := url_ g; root_ := root_ g; branch_ := branch_ g;
     ignore_ts_ := ignore_ts_ g; revert_ts_ := revert_ts_ g;
     creds_username_ := creds_username_ g; creds_email_ := creds_email_ g;
     shallow_ := b; remote_org_ := remote_org_ g;
     remote_key_ := remote_key_ g; no_push_upstream_ := no_push_upstream_ g;
     push_default_origin_ := push_default_origin_ g; cx_ := cx_ g |}.

Definition remote (org key : string) (no_push_upstream push_default_origin : bool)
    (g : t) : t :=
  {| op_ := op_ g; url_ := url_ g; root_ := root_ g; branch_ := branch_ g;
     ignore_ts_ := ignore_ts_ g; revert_ts_ := revert_ts_ g;
     creds_username_ := creds_username_ g; creds_email_ := creds_email_ g;
     shallow_ := shallow_ g; remote_org_ := org;
     remote_key_ := key; no_push_upstream_ := no_push_upstream;
     push_default_origin_ := push_default_origin; cx_ := cx_ g |}.

Section Tool.

Context {W : Type} `{System W}.
Variable cfg : config.

(** the tool is itself the runner of the processes it starts:
    [basic_process_runner("git")] *)
Definition runner (g : t) : basic_process_runner :=
  {| runner_name := "git"; runner_cx := cx_ g |}.

Definition do_clone (g : t) : M W bool :=
  let dot_git := Path.append (root_ g) ".git" in
  ex <- Proc.fs_exists dot_git ;;
  if ex then
    Cx.trace (cx_ g) generic "not cloning, {} exists" [dot_git] ;;
    ret false
  else
    let w := git_wrap.make (root_ g) (Some (runner g)) in
    git_wrap.clone cfg w (url_ g) (branch_ g) (shallow_ g) ;;
    when (negb (Str.empty (creds_username_ g)) || negb (Str.empty (creds_email_ g)))
         (git_wrap.set_credentials cfg w (creds_username_ g) (creds_email_ g)) ;;
    when (negb (Str.empty (remote_org_ g)))
         (git_wrap.set_origin_and_upstream_remotes cfg w (remote_org_ g)
            (remote_key_ g) (no_push_upstream_ g) (push_default_origin_ g)) ;;
    when (ignore_ts_ g) (git_wrap.ignore_ts cfg w true) ;;
    ret true.

Definition do_pull (g : t) : M W unit :=
  let w := git_wrap.make (root_ g) (Some (runner g)) in
  when (revert_ts_ g) (git_wrap.revert_ts cfg w) ;;
  git_wrap.pull cfg w (url_ g) (branch_ g).

Definition do_run (g : t) : M W unit :=
  when (Str.empty (url_ g) || Str.empty (root_ g))
       (Cx.bail_out (cx_ g) generic "git missing parameters" []) ;;
  match op_ g with
  | clone => _ <- do_clone g ;; ret tt
  | pull => do_pull g
  | clone_or_pull =>
      cloned <- do_clone g ;;
      when (negb cloned) (do_pull g)
  | other n =>
      Cx.bail_out (cx_ g) generic "git unknown op {}" [pretty n]
  end.

End Tool.
End git.

(** ** The submodule tool: class [git_submodule] *)

Module git_submodule.

Record t := {
  url_ : string;
  root_ : path;
  branch_ : string;
  submodule_ : string
}.

Definition make : t :=
  {| url_ := ""; root_ := ""; branch_ := ""; submodule_ := "" |}.

Definition url (u : string) (g : t) : t :=
  {| url_ := u; root_ := root_ g; branch_ := branch_ g; submodule_ := submodule_ g |}.

Definition root (dir : path) (g : t) : t :=
  {| url_ := url_ g; root_ := dir; branch_ := branch_ g; submodule_ := submodule_ g |}.

Definition branch (name : string) (g : t) : t :=
  {| url_ := url_ g; root_ := root_ g; branch_ := name; submodule_ := submodule_ g |}.

Definition submodule (name : string) (g : t) : t :=
  {| url_ := url_ g; root_ := root_ g; branch_ := branch_ g; submodule_ := name |}.

Section Tool.

Context {W : Type} `{System W}.
Variable cfg : config.

(** [basic_process_runner("git submodule")], logging to the context
    the tool is run with *)
Definition runner (cx : context) : basic_process_runner :=
  {| runner_name := "git submodule"; runner_cx := cx |}.

Definition do_run (cx : context) (g : t) : M W unit :=
  git_wrap.add_submodule cfg (git_wrap.make (root_ g) (Some (runner cx)))
    (branch_ g) (submodule_ g) (url_ g).

(** [g.run(cx)]: the tool takes the context and does its work *)
Definition run (cx : context) (g : t) : M W unit := do_run cx g.

End Tool.
End git_submodule.

(** ** The background worker: class [git_submodule_adder]

    The threads of the adder, interleaved. A step is what a thread does
    between two synchronisation points: the body of a critical section
    of [sleeper_.m], one access to the atomic [quit_], one action under
    [queue_mutex_], or one run of a submodule tool (which touches
    nothing the threads share). Every shared variable is guarded by a
    mutex or atomic, so the interleavings of these steps are the
    executions of the code. *)

Module git_submodule_adder.

(** where the worker is in [thread_fun] and [process] *)
Inductive worker_pc :=
| at_loop_test                                   (* while (!quit_) *)
| at_wait                                        (* cv.wait(lk, ready); ready = false *)
| at_quit_check                                  (* if (quit_) break; *)
| at_swap                                        (* process(): v.swap(queue_) *)
| at_run (v : list git_submodule.t)              (* for (auto&& g : v) g.run(cx_) *)
| at_batch_quit_check (v : list git_submodule.t) (* if (quit_) break; *)
| finished                                       (* thread_fun has returned *)
| crashed.                     (* an exception thread_fun does not catch left it *)

(** where a producer is: outside [queue()] with the calls it still has
    to make, or inside one call *)
Inductive producer_pc :=
| outside (todo : list git_submodule.t)
| locked (g : git_submodule.t) (todo : list git_submodule.t)  (* holds queue_mutex_ *)
| emplaced (todo : list git_submodule.t)                      (* after emplace_back *)
| woke (todo : list git_submodule.t).                         (* after wakeup() *)

(** the thread that destroys the adder: [stop()] then [join()] *)
Inductive owner_pc :=
| before_stop
| quit_set        (* quit_ = true done, wakeup() to come *)
| stop_returned   (* join() to come *)
| joined.

Record state (W : Type) := {
  queue_ : list git_submodule.t;
  queue_mutex_ : option nat;         (* the producer that holds it *)
  quit_ : bool;
  sleeper_ready : bool;
  worker : worker_pc;
  producers : list producer_pc;
  owner : owner_pc;
  world : W;
  events : list event;
  (* history, for the statements only *)
  emplaced_log : list (nat * git_submodule.t);  (* who emplaced what, in queue order *)
  attempted : list git_submodule.t              (* the tools that were run, in order *)
}.

Arguments queue_ {W}.
Arguments queue_mutex_ {W}.
Arguments quit_ {W}.
Arguments sleeper_ready {W}.
Arguments worker {W}.
Arguments producers {W}.
Arguments owner {W}.
Arguments world {W}.
Arguments events {W}.
Arguments emplaced_log {W}.
Arguments attempted {W}.

Inductive action :=
| producer_step (i : nat)
| worker_step
| owner_step.

Section Adder.

Context {W : Type} `{System W}.
Variable cfg : config.

Definition cx_ : context := cx_named "submodule_adder".

(** the adder once constructed: the thread is started, nothing is
    queued, each producer has its calls to make *)
Definition init (programs : list (list git_submodule.t)) (w : W) : state W :=
  {| queue_ := []; queue_mutex_ := None; quit_ := false; sleeper_ready := false;
     worker := at_loop_test; producers := map outside programs;
     owner := before_stop; world := w; events := [];
     emplaced_log := []; attempted := [] |}.

Definition set_worker (pc : worker_pc) (s : state W) : state W :=
  {| queue_ := queue_ s; queue_mutex_ := queue_mutex_ s; quit_ := quit_ s;
     sleeper_ready := sleeper_ready s; worker := pc; producers := producers s;
     owner := owner s; world := world s; events := events s;
     emplaced_log := emplaced_log s; attempted := attempted s |}.

Definition set_producer (i : nat) (pc : producer_pc) (s : state W) : state W :=
  {| queue_ := queue_ s; queue_mutex_ := queue_mutex_ s; quit_ := quit_ s;
     sleeper_ready := sleeper_ready s; worker := worker s;
     producers := <[i := pc]> (producers s);
     owner := owner s; world := world s; events := events s;
     emplaced_log := emplaced_log s; attempted := attempted s |}.

Definition set_owner (pc : owner_pc) (s : state W) : state W :=
  {| queue_ := queue_ s; queue_mutex_ := queue_mutex_ s; quit_ := quit_ s;
     sleeper_ready := sleeper_ready s; worker := worker s; producers := producers s;
     owner := pc; world := world s; events := events s;
     emplaced_log := emplaced_log s; attempted := attempted s |}.

Definition set_queue_mutex (m : option nat) (s : state W) : state W :=
  {| queue_ := queue_ s; queue_mutex_ := m; quit_ := quit_ s;
     sleeper_ready := sleeper_ready s; worker := worker s; producers := producers s;
     owner := owner s; world := world s; events := events s;
     emplaced_log := emplaced_log s; attempted := attempted s |}.

Definition set_ready (b : bool) (s : state W) : state W :=
  {| queue_ := queue_ s; queue_mutex_ := queue_mutex_ s; quit_ := quit_ s;
     sleeper_ready := b; worker := worker s; producers := producers s;
     owner := owner s; world := world s; events := events s;
     emplaced_log := emplaced_log s; attempted := attempted s |}.

Definition set_quit (b : bool) (s : state W) : state W :=
  {| queue_ := queue_ s; queue_mutex_ := queue_mutex_ s; quit_ := b;
     sleeper_ready := sleeper_ready s; worker := worker s; producers := producers s;
     owner := owner s; world := world s; events := events s;
     emplaced_log := emplaced_log s; attempted := attempted s |}.

(** [queue_.emplace_back(g)] by producer [i] *)
Definition emplace_back (i : nat) (g : git_submodule.t) (s : state W) : state W :=
  {| queue_ := queue_ s ++ [g]; queue_mutex_ := queue_mutex_ s; quit_ := quit_ s;
     sleeper_ready := sleeper_ready s; worker := worker s; producers := producers s;
     owner := owner s; world := world s; events := events s;
     emplaced_log := emplaced_log s ++ [(i, g)]; attempted := attempted s |}.

(** [v.swap(queue_)] with [v] empty: the queue is left empty *)
Definition take_queue (s : state W) : state W :=
  {| queue_ := []; queue_mutex_ := queue_mutex_ s; quit_ := quit_ s;
     sleeper_ready := sleeper_ready s; worker := at_run (queue_ s);
     producers := producers s;
     owner := owner s; world := world s;
     events := events s ++
       [Log cx_ lv_trace generic
            (Str.format_args "git_submodule_adder: woke up, {} to process"
                             [pretty (length (queue_ s))])];
     emplaced_log := emplaced_log s; attempted := attempted s |}.

(** one round of the loop body of [process]: trace, [g.run(cx_)] *)
Definition run_tool (g : git_submodule.t) (rest : list git_submodule.t)
    (s : state W) : state W :=
  let m := Cx.trace cx_ generic "git_submodule_adder: running {}"
             [git_submodule.submodule_ g] ;;
           git_submodule.run cfg cx_ g in
  {| queue_ := queue_ s; queue_mutex_ := queue_mutex_ s; quit_ := quit_ s;
     sleeper_ready := sleeper_ready s;
     worker := match result_of m (world s) with
               | Ok _ => at_batch_quit_check rest
               | Bailed => finished     (* catch (bailed&) { return; } *)
               | Thrown => crashed
               end;
     producers := producers s;
     owner := owner s; world := world_of m (world s);
     events := events s ++ trace_of m (world s);
     emplaced_log := emplaced_log s; attempted := attempted s ++ [g] |}.

(** [queue(g)]: lock, emplace_back, wakeup, unlock *)
Definition step_producer (i : nat) (s : state W) : option (state W) :=
  match producers s !! i with
  | Some (outside (g :: todo)) =>
      match queue_mutex_ s with
      | None => Some (set_producer i (locked g todo) (set_queue_mutex (Some i) s))
      | Some _ => None
      end
  | Some (locked g todo) => Some (set_producer i (emplaced todo) (emplace_back i g s))
  | Some (emplaced todo) => Some (set_producer i (woke todo) (set_ready true s))
  | Some (woke todo) => Some (set_producer i (outside todo) (set_queue_mutex None s))
  | Some (outside []) | None => None
  end.

(** [thread_fun] and [process] *)
Definition step_worker (s : state W) : option (state W) :=
  match worker s with
  | at_loop_test =>
      Some (set_worker (if quit_ s then finished else at_wait) s)
  | at_wait =>
      if sleeper_ready s then Some (set_worker at_quit_check (set_ready false s))
      else None
  | at_quit_check =>
      Some (set_worker (if quit_ s then finished else at_swap) s)
  | at_swap =>
      match queue_mutex_ s with
      | None => Some (take_queue s)
      | Some _ => None
      end
  | at_run [] => Some (set_worker at_loop_test s)
  | at_run (g :: rest) => Some (run_tool g rest s)
  | at_batch_quit_check rest =>
      Some (set_worker (if quit_ s then at_loop_test else at_run rest) s)
  | finished | crashed => None
  end.

(** the destructor: [stop()] sets [quit_] and wakes the worker up, then
    the thread is joined *)
Definition step_owner (s : state W) : option (state W) :=
  match owner s with
  | before_stop => Some (set_owner quit_set (set_quit true s))
  | quit_set => Some (set_owner stop_returned (set_ready true s))
  | stop_returned =>
      match worker s with
      | finished => Some (set_owner joined s)
      | _ => None
      end
  | joined => None
  end.

Definition step (a : action) (s : state W) : option (state W) :=
  match a with
  | producer_step i => step_producer i s
  | worker_step => step_worker s
  | owner_step => step_owner s
  end.

(** a schedule, run from [s]; [None] when it asks a thread that cannot
    move *)
Fixpoint run (schedule : list action) (s : state W) : option (state W) :=
  match schedule with
  | [] => Some s
  | a :: schedule' =>
      match step a s with
      | Some s' => run schedule' s'
      | None => None
      end
  end.

(** every producer has returned from its last [queue()] *)
Definition all_queued (s : state W) : bool :=
  forallb (fun pc => match pc with outside [] => true | _ => false end) (producers s).

(** what producer [i] has emplaced, in order *)
Definition emplaced_by (i : nat) (l : list (nat * git_submodule.t))
    : list git_submodule.t :=
  map snd (List.filter (fun e => Nat.eqb (fst e) i) l).

End Adder.
End git_submodule_adder.

(** ** Two tasks that clean through the wrapper
    (src/tasks/installer.cpp, src/tasks/libffi.cpp)

    Modelled from the spec: the task lifecycle is an external
    collaborator. Of it the two tasks use the clean flags with [is_set],
    the log context [cx()] of the task and paths of the configuration;
    these are taken as they come, whatever they are. So is the call
    [op::delete_directory(cx, dir)] of the installer: it is made without
    [op::optional], its code is not in these sources, and it may do
    anything a call can do, fail included. *)

Module tasks.

Module installer.
Section Task.

Context {W : Type} `{System W}.
Variable cfg : config.
Variable clean : Type.
Variable is_set : clean -> clean -> bool.
Variable reclone rebuild : clean.
Variable cx : context.
Variable super_path : path.          (* modorganizer::super_path() *)
Variable install_installer : path.   (* conf().path().install_installer() *)
Variable delete_directory : context -> path -> M W unit.
                                     (* op::delete_directory(cx, dir), not optional *)

Definition prebuilt : bool := false.

Definition version : string := "".

Definition source_path : path := Path.append super_path "installer".

Definition do_clean (c : clean) : M W unit :=
  when (is_set c reclone) (git_wrap.delete_directory cfg cx source_path) ;;
  when (is_set c rebuild) (delete_directory cx install_installer).

End Task.
End installer.

Module libffi.
Section Task.

Context {W : Type} `{System W}.
Variable cfg : config.
Variable clean : Type.
Variable is_set : clean -> clean -> bool.
Variable reclone : clean.
Variable cx : context.
Variable build : path.               (* conf().path().build() *)

Definition version : string := "".

Definition prebuilt : bool := false.

Definition source_path : path := Path.append build "libffi".

(** delete the whole thing *)
Definition do_clean (c : clean) : M W unit :=
  when (is_set c reclone) (git_wrap.delete_directory cfg cx source_path).

Definition include_path : path :=
  Path.append (Path.append source_path "amd64") "include".

Definition lib_path : path := Path.append source_path "amd64".

End Task.
End libffi.

End tasks.

(** ** The listing of tasks: [list_command::dump] (src/cmd/list.cpp)

    Modelled from the spec: the task graph is an external collaborator.
    Of a task the listing reads [names()], [enabled()] and, when it is a
    [container_task], [children()]; [join] is the utility that glues
    strings with a separator, taken as it comes. What goes to [u8cout]
    is the string returned, with whether the listing ran to its end.

    The indentation is a [std::size_t], 64 bits wide: [indent*4] and
    [indent + 1] wrap around. [std::string(n, ' ')] throws
    [std::length_error] for a count above [max_size()], which the
    implementation fixes; nothing in list.cpp catches it, so the listing
    ends there with what was printed before. *)

Module list_command.

Inductive task :=
| Task (names : list string) (enabled : bool) (children : option tasks)
with tasks :=
| no_task
| more_tasks (t : task) (v : tasks).

Definition names (t : task) : list string := let 'Task n _ _ := t in n.
Definition enabled (t : task) : bool := let 'Task _ e _ := t in e.
Definition children (t : task) : option tasks := let 'Task _ _ c := t in c.

(** arithmetic of [std::size_t] *)
Definition size_t (n : Z) : Z := n mod 2 ^ 64.

Fixpoint spaces (n : nat) : string :=
  match n with
  | O => ""
  | S n' => String " " (spaces n')
  end.

Section Dump.

Variable join : list string -> string -> string.
Variable max_size : Z.               (* std::string::max_size() *)

(** [std::string(n, ' ')], [None] for [std::length_error] *)
Definition string_of_spaces (n : Z) : option string :=
  if max_size <? n then None else Some (spaces (Z.to_nat n)).

Fixpoint dump (v : tasks) (indent : Z) : string * bool :=
  match v with
  | no_task => ("", true)
  | more_tasks t v' =>
      if negb (enabled t) then dump v' indent
      else
        match string_of_spaces (size_t (indent * 4)) with
        | None => ("", false)
        | Some pad =>
            let printed := pad +:+ " - " +:+ join (names t) "," +:+ String "010" EmptyString in
            let under :=
              match children t with
              | Some ct => dump ct (size_t (indent + 1))
              | None => ("", true)
              end in
            if snd under
            then let rest := dump v' indent in
                 (printed +:+ fst under +:+ fst rest, snd rest)
            else (printed +:+ fst under, false)
        end
  end.

End Dump.

End list_command.

(** ** A small world to run the tool in

    One working tree and the part of git's behaviour the tool relies on
    (git is an external program, not code of the repository): enough to
    evaluate the embedding on concrete repositories. The theorems about
    the tool hold for every [System]; this instance is used to exhibit
    concrete runs. *)

Module Sim.

Record repo := {
  remotes : list (string * string);   (* name and url, in the order of .git/config *)
  push_urls : list (string * string);
  settings : list (string * string);
  status : string;                    (* what git status -s --porcelain prints *)
  stashed : bool;
  tracked : list path;
  assume_unchanged : list path
}.

Record world := {
  wd_root : path;
  wd_present : bool;
  wd_repo : option repo;
  wd_entries : list directory_entry
}.

Definition words (p : process) : list string :=
  flat_map (fun a => match a with
                     | Arg v _ => [v]
                     | ArgKV k v _ => [k; v]
                     end) (p_args p).

Fixpoint lookup_remote (name : string) (rs : list (string * string)) : option string :=
  match rs with
  | [] => None
  | (n, u) :: rs' => if String.eqb n name then Some u else lookup_remote name rs'
  end.

Definition rename_in (from to : string) (rs : list (string * string))
    : list (string * string) :=
  map (fun r => if String.eqb (fst r) from then (to, snd r) else r) rs.

Definition set_in (k v : string) (rs : list (string * string))
    : list (string * string) :=
  (k, v) :: List.filter (fun r => negb (String.eqb (fst r) k)) rs.

Definition strip_prefix (pre s : string) : string :=
  if Str.starts_with s pre then Str.substr s (Str.length pre) else s.

Definition remote_key (k : string) : option string :=
  if Str.starts_with k "remote." && Str.ends_with k ".url"
  then Some (Str.substr (String.rev (Str.substr (String.rev k) 4)) 7)
  else None.

Definition with_repo (w : world) (r : repo) : world :=
  {| wd_root := wd_root w; wd_present := wd_present w; wd_repo := Some r;
     wd_entries := wd_entries w |}.

Definition with_remotes (r : repo) (rs : list (string * string)) : repo :=
  {| remotes := rs; push_urls := push_urls r; settings := settings r;
     status := status r; stashed := stashed r; tracked := tracked r;
     assume_unchanged := assume_unchanged r |}.

Definition with_push_urls (r : repo) (ps : list (string * string)) : repo :=
  {| remotes := remotes r; push_urls := ps; settings := settings r;
     status := status r; stashed := stashed r; tracked := tracked r;
     assume_unchanged := assume_unchanged r |}.

Definition with_settings (r : repo) (ss : list (string * string)) : repo :=
  {| remotes := remotes r; push_urls := push_urls r; settings := ss;
     status := status r; stashed := stashed r; tracked := tracked r;
     assume_unchanged := assume_unchanged r |}.

Definition with_assume_unchanged (r : repo) (fs : list path) : repo :=
  {| remotes := remotes r; push_urls := push_urls r; settings := settings r;
     status := status r; stashed := stashed r; tracked := tracked r;
     assume_unchanged := fs |}.

Definition is_in (f : path) (fs : list path) : bool :=
  existsb (String.eqb f) fs.

Definition fresh_clone (url : string) : repo :=
  {| remotes := [("origin", url)]; push_urls := []; settings := [];
     status := ""; stashed := false; tracked := []; assume_unchanged := [] |}.

(** git inside a repository *)
Definition git_in_repo (ws : list string) (w : world) (r : repo) : Z * string * world :=
  match ws with
  | [a; b] =>
      if String.eqb a "rev-parse" then (0, "true", w)
      else if String.eqb a "config" then
        match remote_key b with
        | Some n =>
            match lookup_remote n (remotes r) with
            | Some u => (0, u, w)
            | None => (1, "", w)
            end
        | None => (1, "", w)
        end
      else if String.eqb a "checkout" then
        if is_in (strip_prefix (wd_root w +:+ "/") b) (tracked r)
        then (0, "", w) else (1, "", w)
      else (129, "", w)
  | [a] =>
      if String.eqb a "stash show" then
        if stashed r then (0, "", w) else (1, "", w)
      else (129, "", w)
  | [a; b; c] =>
      if String.eqb a "status" then (0, status r, w)
      else if String.eqb a "config" then
        (0, "", with_repo w (with_settings r (set_in b c (settings r))))
      else if String.eqb a "remote" && String.eqb b "get-url" then
        match lookup_remote c (remotes r) with
        | Some u => (0, u +:+ String "010" EmptyString, w)
        | None => (2, "", w)
        end
      else if String.eqb a "ls-files" then
        if is_in c (tracked r) then (0, c, w) else (1, "", w)
      else if String.eqb a "update-index" then
        if is_in c (tracked r) then
          if String.eqb b "--assume-unchanged" then
            (0, "", with_repo w (with_assume_unchanged r
                                   (c :: List.filter (fun f => negb (String.eqb f c))
                                           (assume_unchanged r))))
          else
            (0, "", with_repo w (with_assume_unchanged r
                                   (List.filter (fun f => negb (String.eqb f c))
                                           (assume_unchanged r))))
        else (128, "", w)
      else (129, "", w)
  | [a; b; c; d] =>
      if String.eqb a "remote" && String.eqb b "rename" then
        match lookup_remote c (remotes r), lookup_remote d (remotes r) with
        | Some _, None => (0, "", with_repo w (with_remotes r (rename_in c d (remotes r))))
        | Some _, Some _ => (3, "", w)
        | None, _ => (2, "", w)
        end
      else if String.eqb a "remote" && String.eqb b "add" then
        match lookup_remote c (remotes r) with
        | None => (0, "", with_repo w (with_remotes r (remotes r ++ [(c, d)])))
        | Some _ => (3, "", w)
        end
      else (129, "", w)
  | [a; b; c; d; e] =>
      if String.eqb a "remote" && String.eqb b "set-url" && String.eqb c "--push" then
        match lookup_remote d (remotes r) with
        | Some _ => (0, "", with_repo w (with_push_urls r (set_in d e (push_urls r))))
        | None => (2, "", w)
        end
      else if String.eqb a "pull" then (0, "", w)
      else (129, "", w)
  | _ => (129, "", w)
  end.

(** git clone: the last two words are the url and the target directory *)
Definition git_clone (ws : list string) (w : world) : Z * string * world :=
  match rev ws with
  | dir :: url :: _ =>
      if String.eqb dir (wd_root w) && negb (wd_present w) then
        (0, "", {| wd_root := wd_root w; wd_present := true;
                   wd_repo := Some (fresh_clone url);
                   wd_entries := wd_entries w |})
      else (128, "", w)
  | _ => (129, "", w)
  end.

Definition spawn (p : process) (w : world) : Z * string * world :=
  match words p with
  | a :: _ =>
      if String.eqb a "clone" then git_clone (words p) w
      else
        match p_cwd p, wd_repo w with
        | Some d, Some r =>
            if String.eqb d (wd_root w) && wd_present w
            then if is_in "submodule" (words p)
                 then (0, "", w)   (* the submodule's own files are left out *)
                 else git_in_repo (words p) w r
            else (128, "", w)
        | _, _ => (128, "", w)
        end
  | [] => (1, "", w)
  end.

Definition exists_ (p : path) (w : world) : bool :=
  if String.eqb p (wd_root w) then wd_present w
  else if String.eqb p (Path.append (wd_root w) ".git")
       then wd_present w && bool_decide (is_Some (wd_repo w))
       else false.

Definition walk (root : path) (w : world) : list directory_entry :=
  if String.eqb root (wd_root w) && wd_present w then wd_entries w else [].

(** a directory that is not there cannot be walked *)
Definition walk_error (root : path) (w : world) : bool :=
  negb (String.eqb root (wd_root w) && wd_present w).

Definition relative (p base : path) : path := strip_prefix (base +:+ "/") p.

Definition delete_directory (dir : path) (w : world) : world :=
  if String.eqb dir (wd_root w) then
    {| wd_root := wd_root w; wd_present := false; wd_repo := None; wd_entries := [] |}
  else w.

#[global] Instance system : System world := {
  sys_spawn := spawn;
  sys_exists := exists_;
  sys_walk := walk;
  sys_walk_error := walk_error;
  sys_relative := relative;
  sys_delete_directory := delete_directory
}.

Definition cfg : config :=
  {| conf_tool_git := "git.exe"; conf_ignore_uncommitted := false;
     conf_this_env := {["GIT_TERMINAL_PROMPT" := "1"]} |}.

Definition cfg_override : config :=
  {| conf_tool_git := "git.exe"; conf_ignore_uncommitted := true;
     conf_this_env := ∅ |}.

Definition mo_url : string := "git@github.com:ModOrganizer2/modorganizer.git".

(** a fresh clone of modorganizer in [/build/modorganizer] with one
    tracked and one untracked translation file *)
Definition cloned : world :=
  {| wd_root := "/build/modorganizer"; wd_present := true;
     wd_repo := Some {| remotes := [("origin", mo_url)]; push_urls := [];
                        settings := []; status := ""; stashed := false;
                        tracked := ["src/organizer_en.ts"; "src/main.cpp"];
                        assume_unchanged := [] |};
     wd_entries :=
       [ {| entry_path := "/build/modorganizer/src"; entry_is_regular_file := false |};
         {| entry_path := "/build/modorganizer/src/organizer_en.ts";
            entry_is_regular_file := true |};
         {| entry_path := "/build/modorganizer/src/main.cpp";
            entry_is_regular_file := true |};
         {| entry_path := "/build/modorganizer/src/local_nl.ts";
            entry_is_regular_file := true |} ] |}.

Definition set_status (s : string) (st : bool) (w : world) : world :=
  match wd_repo w with
  | Some r =>
      with_repo w {| remotes := remotes r; push_urls := push_urls r;
                     settings := settings r; status := s; stashed := st;
                     tracked := tracked r; assume_unchanged := assume_unchanged r |}
  | None => w
  end.

(** the same directory before anything was cloned into it *)
Definition absent : world :=
  {| wd_root := "/build/modorganizer"; wd_present := false; wd_repo := None;
     wd_entries := [] |}.

(** the directory made by a prebuilt, not a repository *)
Definition prebuilt : world :=
  {| wd_root := "/build/modorganizer"; wd_present := true; wd_repo := None;
     wd_entries := [] |}.

Definition remotes_of (w : world) : list (string * string) :=
  match wd_repo w with Some r => remotes r | None => [] end.

End Sim.

(** ** Every builder of the command layer *)

Inductive command :=
| cmd_init (root : path)
| cmd_set_config (root : path) (key value : string)
| cmd_apply (root : path) (diff : string)
| cmd_fetch (root : path) (remote branch : string)
| cmd_checkout (root : path) (what : string)
| cmd_revert (root file : path)
| cmd_current_branch (root : path)
| cmd_add_submodule (root : path) (branch submodule url : string)
| cmd_clone (root : path) (url branch : string) (shallow : bool)
| cmd_pull (root : path) (url branch : string)
| cmd_has_remote (root : path) (name : string)
| cmd_rename_remote (root : path) (from to : string)
| cmd_add_remote (root : path) (name url : string)
| cmd_set_remote_push (root : path) (remote url : string)
| cmd_set_assume_unchanged (root file : path) (on : bool)
| cmd_is_tracked (root file : path)
| cmd_is_repo (root : path)
| cmd_remote_branch_exists (url branch : string)
| cmd_has_uncommitted_changes (root : path)
| cmd_has_stashed_changes (root : path)
| cmd_remote_url (root : path).

Definition build (cfg : config) (c : command) : process :=
  match c with
  | cmd_init root => details.init cfg root
  | cmd_set_config root key value => details.set_config cfg root key value
  | cmd_apply root diff => details.apply cfg root diff
  | cmd_fetch root remote branch => details.fetch cfg root remote branch
  | cmd_checkout root what => details.checkout cfg root what
  | cmd_revert root file => details.revert cfg root file
  | cmd_current_branch root => details.current_branch cfg root
  | cmd_add_submodule root branch submodule url =>
      details.add_submodule cfg root branch submodule url
  | cmd_clone root url branch shallow => details.clone cfg root url branch shallow
  | cmd_pull root url branch => details.pull cfg root url branch
  | cmd_has_remote root name => details.has_remote cfg root name
  | cmd_rename_remote root from to => details.rename_remote cfg root from to
  | cmd_add_remote root name url => details.add_remote cfg root name url
  | cmd_set_remote_push root remote url => details.set_remote_push cfg root remote url
  | cmd_set_assume_unchanged root file on => details.set_assume_unchanged cfg root file on
  | cmd_is_tracked root file => details.is_tracked cfg root file
  | cmd_is_repo root => details.is_repo cfg root
  | cmd_remote_branch_exists url branch => details.remote_branch_exists cfg url branch
  | cmd_has_uncommitted_changes root => details.has_uncommitted_changes cfg root
  | cmd_has_stashed_changes root => details.has_stashed_changes cfg root
  | cmd_remote_url root => details.remote_url cfg root
  end.

(** ** What a process did, read off the system *)

Section Observations.

Context {W : Type} `{System W}.

Definition exit_code (p : process) (w : W) : Z := fst (fst (sys_spawn p w)).
Definition output (p : process) (w : W) : string := snd (fst (sys_spawn p w)).
Definition after (p : process) (w : W) : W := snd (sys_spawn p w).

End Observations.

Definition is_delete (e : event) : bool :=
  match e with DeleteDirectory _ _ => true | _ => false end.

Definition is_spawn (e : event) : bool :=
  match e with Spawn _ _ _ _ => true | _ => false end.

Definition spawned (e : event) : option process :=
  match e with Spawn _ p _ _ => Some p | _ => None end.

(** the processes of a trace, in order *)
Definition processes (t : list event) : list process := omap spawned t.

(** * Properties *)

(** ** The command layer *)

Section CommandLayer.

Lemma env_make_process cfg :
  p_env (details.make_process cfg) !! "GCM_INTERACTIVE" = Some "never" /\
  p_env (details.make_process cfg) !! "GIT_TERMINAL_PROMPT" = Some "0".
Proof.
  unfold details.make_process; cbn [p_env Process.env Process.binary].
  split.
  - rewrite lookup_insert_ne by discriminate. apply lookup_insert_eq.
  - apply lookup_insert_eq.
Qed.

Lemma env_build cfg c : p_env (build cfg c) = p_env (details.make_process cfg).
Proof. destruct c; try reflexivity. cbn. destruct shallow; reflexivity. Qed.

(** C8: every invocation the command layer builds, whatever the
    subcommand and whatever the ambient environment, carries
    GCM_INTERACTIVE=never and GIT_TERMINAL_PROMPT=0 in its environment
    (and runs the configured git binary). *)
Theorem every_command_disables_prompts (cfg : config) (c : command) :
  p_env (build cfg c) !! "GCM_INTERACTIVE" = Some "never" /\
  p_env (build cfg c) !! "GIT_TERMINAL_PROMPT" = Some "0" /\
  p_binary (build cfg c) = conf_tool_git cfg.
Proof.
  rewrite env_build. destruct (env_make_process cfg) as [H1 H2].
  repeat split; trivial.
  destruct c; try reflexivity. cbn. destruct shallow; reflexivity.
Qed.

(** an ambient GIT_TERMINAL_PROMPT=1 is overridden *)
Example status_command_overrides_ambient_prompt :
  conf_this_env Sim.cfg !! "GIT_TERMINAL_PROMPT" = Some "1" /\
  p_env (build Sim.cfg (cmd_has_uncommitted_changes "/build/modorganizer"))
    !! "GIT_TERMINAL_PROMPT" = Some "0".
Proof. split; vm_compute; reflexivity. Qed.

End CommandLayer.

(** ** Running processes through the wrapper *)

Section RunLemmas.

Context {W : Type} `{System W}.
Variable cfg : config.

Lemma bind_unfold {A B} (m : M W A) (f : A -> M W B) (w : W) :
  bind m f w =
    match m w with
    | (Ok a, w1, t1) => (fst (fst (f a w1)), snd (fst (f a w1)), t1 ++ snd (f a w1))
    | (Bailed, w1, t1) => (Bailed, w1, t1)
    | (Thrown, w1, t1) => (Thrown, w1, t1)
    end.
Proof.
  unfold bind. destruct (m w) as [[[a| |] w1] t1]; [|reflexivity|reflexivity].
  destruct (f a w1) as [[r w2] t2]. reflexivity.
Qed.

Lemma bind_ok {A B} (m : M W A) (f : A -> M W B) w a w1 t1 :
  m w = (Ok a, w1, t1) ->
  bind m f w = (fst (fst (f a w1)), snd (fst (f a w1)), t1 ++ snd (f a w1)).
Proof. intros E. rewrite bind_unfold, E. reflexivity. Qed.

Lemma bind_bailed {A B} (m : M W A) (f : A -> M W B) w w1 t1 :
  m w = (Bailed, w1, t1) -> bind m f w = (Bailed, w1, t1).
Proof. intros E. rewrite bind_unfold, E. reflexivity. Qed.

Lemma bind_thrown {A B} (m : M W A) (f : A -> M W B) w w1 t1 :
  m w = (Thrown, w1, t1) -> bind m f w = (Thrown, w1, t1).
Proof. intros E. rewrite bind_unfold, E. reflexivity. Qed.

Lemma bind_ret_l {A} (k : unit -> M W A) (w : W) : bind (ret tt) k w = k tt w.
Proof. unfold bind, ret. destruct (k tt w) as [[r w'] t]. reflexivity. Qed.

Lemma run_and_join_unfold via p (w : W) :
  Proc.run_and_join via p w =
    (if negb (exit_code p w =? 0) && negb (p_allow_failure p)
     then Bailed else Ok (exit_code p w, output p w),
     after p w, [Spawn via p (exit_code p w) (output p w)]).
Proof.
  unfold Proc.run_and_join, exit_code, output, after.
  destruct (sys_spawn p w) as [[c o] w']. cbn.
  destruct (negb (c =? 0) && negb (p_allow_failure p)); reflexivity.
Qed.

Lemma run_unfold g p (w : W) :
  git_wrap.run g p w =
    (if negb (exit_code p w =? 0) && negb (p_allow_failure p)
     then Bailed else Ok (exit_code p w, output p w),
     after p w, [Spawn (git_wrap.runner_ g) p (exit_code p w) (output p w)]).
Proof.
  unfold git_wrap.run. destruct (git_wrap.runner_ g); apply run_and_join_unfold.
Qed.

(** a process that allows failure never bails out *)
Lemma run_allow_failure g p (w : W) :
  p_allow_failure p = true ->
  git_wrap.run g p w =
    (Ok (exit_code p w, output p w), after p w,
     [Spawn (git_wrap.runner_ g) p (exit_code p w) (output p w)]).
Proof. intros E. rewrite run_unfold, E, andb_false_r. reflexivity. Qed.

Lemma is_git_repo_unfold g (w : W) :
  let p := details.is_repo cfg (git_wrap.root_ g) in
  git_wrap.is_git_repo cfg g w =
    (Ok (exit_code p w =? 0), after p w,
     [Spawn (git_wrap.runner_ g) p (exit_code p w) (output p w)]).
Proof.
  intros p. unfold git_wrap.is_git_repo.
  erewrite bind_ok by (apply run_allow_failure; reflexivity). reflexivity.
Qed.

Lemma has_uncommitted_changes_unfold g (w : W) :
  let p := details.has_uncommitted_changes cfg (git_wrap.root_ g) in
  git_wrap.has_uncommitted_changes cfg g w =
    (Ok (negb (String.eqb (output p w) "")), after p w,
     [Spawn (git_wrap.runner_ g) p (exit_code p w) (output p w)]).
Proof.
  intros p. unfold git_wrap.has_uncommitted_changes.
  erewrite bind_ok by (apply run_allow_failure; reflexivity). reflexivity.
Qed.

Lemma has_stashed_changes_unfold g (w : W) :
  let p := details.has_stashed_changes cfg (git_wrap.root_ g) in
  git_wrap.has_stashed_changes cfg g w =
    (Ok (exit_code p w =? 0), after p w,
     [Spawn (git_wrap.runner_ g) p (exit_code p w) (output p w)]).
Proof.
  intros p. unfold git_wrap.has_stashed_changes.
  erewrite bind_ok by (apply run_allow_failure; reflexivity). reflexivity.
Qed.

Lemma is_tracked_unfold g file (w : W) :
  let p := details.is_tracked cfg (git_wrap.root_ g) file in
  git_wrap.is_tracked cfg g file w =
    (Ok (exit_code p w =? 0), after p w,
     [Spawn (git_wrap.runner_ g) p (exit_code p w) (output p w)]).
Proof.
  intros p. unfold git_wrap.is_tracked.
  erewrite bind_ok by (apply run_allow_failure; reflexivity). reflexivity.
Qed.

Lemma has_remote_unfold g name (w : W) :
  let p := details.has_remote cfg (git_wrap.root_ g) name in
  git_wrap.has_remote cfg g name w =
    (Ok (exit_code p w =? 0), after p w,
     [Spawn (git_wrap.runner_ g) p (exit_code p w) (output p w)]).
Proof.
  intros p. unfold git_wrap.has_remote.
  erewrite bind_ok by (apply run_allow_failure; reflexivity). reflexivity.
Qed.

End RunLemmas.

(** ** Uncommitted changes *)

Section Uncommitted.

Context {W : Type} `{System W}.
Variable cfg : config.

(** C10: [has_uncommitted_changes] runs [git status -s --porcelain] with
    failure allowed and its output kept, never bails out, and answers
    true exactly when the captured output is not the empty string; the
    exit code plays no part, so a failing status that prints nothing is
    answered with false. *)
Theorem has_uncommitted_changes_iff_output (g : git_wrap.t) (w : W) :
  let p := details.has_uncommitted_changes cfg (git_wrap.root_ g) in
  p_args p = [Arg "status" noflags; Arg "-s" noflags; Arg "--porcelain" noflags] /\
  p_allow_failure p = true /\
  exists b : bool,
    git_wrap.has_uncommitted_changes cfg g w =
      (Ok b, after p w, [Spawn (git_wrap.runner_ g) p (exit_code p w) (output p w)]) /\
    (b = true <-> output p w <> "") /\
    (output p w = "" -> b = false).
Proof.
  intros p. split; [reflexivity|]. split; [reflexivity|].
  exists (negb (String.eqb (output p w) "")).
  split; [apply has_uncommitted_changes_unfold|].
  destruct (String.eqb_spec (output p w) "") as [E|E]; cbn.
  - split; [|reflexivity]. split; [discriminate | intros E'; contradiction].
  - split; [|intros E'; contradiction]. split; trivial.
Qed.

End Uncommitted.

(** ** The git tool *)

Section GitTool.

Context {W : Type} `{System W}.
Variable cfg : config.

Lemma empty_true s : Str.empty s = true <-> s = "".
Proof. destruct s; cbn; split; congruence. Qed.

Lemma empty_false s : Str.empty s = false <-> s <> "".
Proof. destruct s; cbn; split; congruence. Qed.

(** C7: with an empty url or an empty root, [do_run] bails out whatever
    the operation is; all it has done by then is report the error: no
    process was spawned and the world is as it was. *)
Theorem do_run_missing_parameters (g : git.t) (w : W)
    (Hmissing : git.url_ g = "" \/ git.root_ g = "") :
  result_of (git.do_run cfg g) w = Bailed /\
  world_of (git.do_run cfg g) w = w /\
  trace_of (git.do_run cfg g) w =
    [Log (git.cx_ g) lv_error generic "git missing parameters"] /\
  processes (trace_of (git.do_run cfg g) w) = [].
Proof.
  assert (E : Str.empty (git.url_ g) || Str.empty (git.root_ g) = true).
  { destruct Hmissing as [E|E]; rewrite E; cbn; [reflexivity | apply orb_true_r]. }
  unfold result_of, world_of, trace_of, git.do_run. rewrite E.
  repeat split.
Qed.

Definition not_cloning (g : git.t) : event :=
  Log (git.cx_ g) lv_trace generic
      ("not cloning, " +:+ Path.append (git.root_ g) ".git" +:+ " exists").

Lemma do_clone_marker_exists (g : git.t) (w : W) :
  sys_exists (Path.append (git.root_ g) ".git") w = true ->
  git.do_clone cfg g w = (Ok false, w, [not_cloning g]).
Proof.
  intros E. unfold git.do_clone, Proc.fs_exists, bind. rewrite E. reflexivity.
Qed.

Lemma do_run_parameters_set (g : git.t) (m : M W unit) (w : W) :
  git.url_ g <> "" -> git.root_ g <> "" ->
  bind (when (Str.empty (git.url_ g) || Str.empty (git.root_ g))
             (Cx.bail_out (git.cx_ g) generic "git missing parameters" []))
       (fun _ => m) w = m w.
Proof.
  intros Hu Hr. apply empty_false in Hu, Hr. rewrite Hu, Hr. cbn.
  unfold bind, ret. destruct (m w) as [[r w'] t]. reflexivity.
Qed.

(** the [git pull] of the tool: its url and branch, in its root *)
Definition the_pull (g : git.t) : process :=
  details.pull cfg (git.root_ g) (git.url_ g) (git.branch_ g).

Lemma pull_unfold (g : git.t) (w : W) :
  git_wrap.pull cfg (git_wrap.make (git.root_ g) (Some (git.runner g)))
    (git.url_ g) (git.branch_ g) w =
  (if negb (exit_code (the_pull g) w =? 0) then Bailed else Ok tt,
   after (the_pull g) w,
   [Spawn (Some (git.runner g)) (the_pull g)
      (exit_code (the_pull g) w) (output (the_pull g) w)]).
Proof.
  unfold git_wrap.pull, bind. rewrite run_unfold. fold (the_pull g).
  replace (p_allow_failure (the_pull g)) with false by reflexivity.
  rewrite andb_true_r. cbn [git_wrap.make git_wrap.runner_].
  destruct (negb _); reflexivity.
Qed.

(** the revert of the translation files that comes before the pull when
    it is configured *)
Definition reverted (g : git.t) : M W unit :=
  when (git.revert_ts_ g)
       (git_wrap.revert_ts cfg (git_wrap.make (git.root_ g) (Some (git.runner g)))).

(** C6: when the .git marker exists at the root, the clone step spawns
    no process, changes nothing and answers "not cloned" after a trace
    message; with url and root set, the clone operation then succeeds
    having done nothing else, and clone_or_pull goes on with the pull
    operation: it runs [git pull --recurse-submodules --quiet] with the
    url and the branch in the root, right away when no revert of the
    translation files is configured and else as soon as that revert has
    returned, and it succeeds exactly when this pull exits with 0; only
    a revert that fails keeps the pull from being run. *)
Theorem clone_is_noop_when_marker_exists (g : git.t) (w : W)
    (Hmarker : sys_exists (Path.append (git.root_ g) ".git") w = true) :
  git.do_clone cfg g w = (Ok false, w, [not_cloning g]) /\
  processes (trace_of (git.do_clone cfg g) w) = [] /\
  (git.url_ g <> "" -> git.root_ g <> "" ->
   (git.op_ g = git.clone ->
      git.do_run cfg g w = (Ok tt, w, [not_cloning g])) /\
   (git.op_ g = git.clone_or_pull ->
      git.do_run cfg g w =
        (result_of (git.do_pull cfg g) w, world_of (git.do_pull cfg g) w,
         not_cloning g :: trace_of (git.do_pull cfg g) w) /\
      p_args (the_pull g) =
        [Arg "pull" noflags; Arg "--recurse-submodules" noflags; Arg "--quiet" log_quiet;
         Arg (git.url_ g) noflags; Arg (git.branch_ g) noflags] /\
      p_cwd (the_pull g) = Some (git.root_ g) /\
      (git.revert_ts_ g = false ->
         git.do_run cfg g w =
           (if exit_code (the_pull g) w =? 0 then Ok tt else Bailed,
            after (the_pull g) w,
            [not_cloning g;
             Spawn (Some (git.runner g)) (the_pull g)
               (exit_code (the_pull g) w) (output (the_pull g) w)])) /\
      (result_of (reverted g) w = Ok tt ->
         let w1 := world_of (reverted g) w in
         git.do_run cfg g w =
           (if exit_code (the_pull g) w1 =? 0 then Ok tt else Bailed,
            after (the_pull g) w1,
            not_cloning g :: trace_of (reverted g) w ++
            [Spawn (Some (git.runner g)) (the_pull g)
               (exit_code (the_pull g) w1) (output (the_pull g) w1)])) /\
      (result_of (reverted g) w <> Ok tt ->
         result_of (git.do_run cfg g) w = result_of (reverted g) w /\
         trace_of (git.do_run cfg g) w = not_cloning g :: trace_of (reverted g) w))).
Proof.
  pose proof (do_clone_marker_exists g w Hmarker) as E.
  split; [exact E|]. split; [unfold trace_of; rewrite E; reflexivity|].
  intros Hurl Hroot.
  split; intros Hop.
  { unfold git.do_run; rewrite Hop; rewrite do_run_parameters_set by assumption.
    erewrite bind_ok by exact E. reflexivity. }
  assert (Erun : git.do_run cfg g w =
            (result_of (git.do_pull cfg g) w, world_of (git.do_pull cfg g) w,
             not_cloning g :: trace_of (git.do_pull cfg g) w)).
  { unfold git.do_run; rewrite Hop; rewrite do_run_parameters_set by assumption.
    erewrite bind_ok by exact E. reflexivity. }
  split; [exact Erun|]. split; [reflexivity|]. split; [reflexivity|].
  unfold result_of, world_of, trace_of in *. rewrite !Erun. clear Erun E.
  assert (Epull : git.do_pull cfg g w =
            match reverted g w with
            | (Ok _, w1, t1) =>
                (if exit_code (the_pull g) w1 =? 0 then Ok tt else Bailed,
                 after (the_pull g) w1,
                 t1 ++ [Spawn (Some (git.runner g)) (the_pull g)
                          (exit_code (the_pull g) w1) (output (the_pull g) w1)])
            | (Bailed, w1, t1) => (Bailed, w1, t1)
            | (Thrown, w1, t1) => (Thrown, w1, t1)
            end).
  { unfold git.do_pull, reverted. rewrite bind_unfold.
    destruct (when _ _ w) as [[[[]| |] w1] t1]; [|reflexivity|reflexivity].
    rewrite pull_unfold. cbn [fst snd].
    destruct (exit_code (the_pull g) w1 =? 0); reflexivity. }
  rewrite Epull. clear Epull. cbn [fst snd].
  split; [|split].
  - intros Hrev. unfold reverted. rewrite Hrev. reflexivity.
  - destruct (reverted g w) as [[[[]| |] w1] t1]; cbn [fst snd];
      [|discriminate|discriminate].
    intros _. reflexivity.
  - destruct (reverted g w) as [[[[]| |] w1] t1]; cbn [fst snd];
      [contradiction| |]; intros _; split; reflexivity.
Qed.

(** cloning again right after a clone that left the marker behind spawns
    nothing more: the clone is performed once *)
Lemma clone_twice_clones_once (g : git.t) (w : W) :
  result_of (git.do_clone cfg g) w = Ok true ->
  sys_exists (Path.append (git.root_ g) ".git") (world_of (git.do_clone cfg g) w) = true ->
  result_of (git.do_clone cfg g ;; git.do_clone cfg g) w = Ok false /\
  world_of (git.do_clone cfg g ;; git.do_clone cfg g) w = world_of (git.do_clone cfg g) w /\
  processes (trace_of (git.do_clone cfg g ;; git.do_clone cfg g) w) =
    processes (trace_of (git.do_clone cfg g) w).
Proof.
  unfold result_of, world_of, trace_of. intros E1 E2.
  destruct (git.do_clone cfg g w) as [[r w1] t1] eqn:E. cbn in E1, E2. subst r.
  erewrite bind_ok by exact E.
  rewrite (do_clone_marker_exists g w1 E2). cbn.
  repeat split. unfold processes. rewrite omap_app. cbn. apply app_nil_r.
Qed.

End GitTool.

(** ** Deleting a working tree *)

Section DeleteDirectory.

Context {W : Type} `{System W}.
Variable cfg : config.

Lemma contains_here s sub : Str.starts_with s sub = true -> Str.contains s sub = true.
Proof. intros E. destruct s; cbn in *; rewrite E; reflexivity. Qed.

Lemma contains_cons c s sub : Str.contains s sub = true -> Str.contains (String c s) sub = true.
Proof. intros E. cbn [Str.contains]. rewrite E. destruct (Str.starts_with _ _); reflexivity. Qed.

Lemma contains_app_r a b sub : Str.contains b sub = true -> Str.contains (a +:+ b) sub = true.
Proof. intros E. induction a as [|c a IH]; [exact E|]. cbn [String.append]. apply contains_cons, IH. Qed.

(** the three probes [delete_directory] runs, and the worlds they leave *)
Definition probe_repo (dir : path) : process := details.is_repo cfg dir.
Definition probe_status (dir : path) : process := details.has_uncommitted_changes cfg dir.
Definition probe_stash (dir : path) : process := details.has_stashed_changes cfg dir.

Definition is_repo_at (dir : path) (w : W) : bool :=
  exit_code (probe_repo dir) w =? 0.

Definition uncommitted_at (dir : path) (w : W) : bool :=
  negb (String.eqb (output (probe_status dir) (after (probe_repo dir) w)) "").

Definition stashed_at (dir : path) (w : W) : bool :=
  exit_code (probe_stash dir)
            (after (probe_status dir) (after (probe_repo dir) w)) =? 0.

(** the deletion is refused: a repository, no override, and uncommitted
    or stashed changes *)
Definition refused (dir : path) (w : W) : bool :=
  is_repo_at dir w && negb (conf_ignore_uncommitted cfg) &&
  (uncommitted_at dir w || stashed_at dir w).

Definition names_the_flag (e : event) : bool :=
  match e with
  | Log _ lv_error redownload msg => Str.contains msg "--ignore-uncommitted-changes"
  | _ => false
  end.

Lemma delete_directory_unfold (cx : context) (dir : path) (w : W) :
  let w1 := after (probe_repo dir) w in
  let w2 := after (probe_status dir) w1 in
  let w3 := after (probe_stash dir) w2 in
  let s1 := Spawn None (probe_repo dir) (exit_code (probe_repo dir) w) (output (probe_repo dir) w) in
  let s2 := Spawn None (probe_status dir) (exit_code (probe_status dir) w1) (output (probe_status dir) w1) in
  let s3 := Spawn None (probe_stash dir) (exit_code (probe_stash dir) w2) (output (probe_stash dir) w2) in
  let deleting := Log cx lv_trace redownload (Str.format_args "deleting directory controlled by git {}" [dir]) in
  git_wrap.delete_directory cfg cx dir w =
    if is_repo_at dir w then
      if conf_ignore_uncommitted cfg then
        (Ok tt, sys_delete_directory dir w1, [s1; deleting; DeleteDirectory cx dir])
      else if uncommitted_at dir w then
        (Bailed, w2,
         [s1; s2; Log cx lv_error redownload
                    (Str.format_args "will not delete {}, has uncommitted changes; see --ignore-uncommitted-changes" [dir])])
      else if stashed_at dir w then
        (Bailed, w3,
         [s1; s2; s3; Log cx lv_error redownload
                        (Str.format_args "will not delete {}, has stashed changes; see --ignore-uncommitted-changes" [dir])])
      else
        (Ok tt, sys_delete_directory dir w3,
         [s1; s2; s3; deleting; DeleteDirectory cx dir])
    else (Ok tt, sys_delete_directory dir w1, [s1; DeleteDirectory cx dir]).
Proof.
  intros w1 w2 w3 s1 s2 s3 deleting.
  unfold is_repo_at, uncommitted_at, stashed_at. fold w1. fold w2.
  unfold git_wrap.delete_directory.
  unfold bind at 1.
  pose proof (is_git_repo_unfold cfg (git_wrap.make dir None) w) as E. cbv zeta in E.
  rewrite E. clear E.
  cbn [git_wrap.make git_wrap.root_ git_wrap.runner_].
  fold (probe_repo dir). fold w1. fold s1.
  destruct (exit_code (probe_repo dir) w =? 0); cbn [when]; [|reflexivity].
  destruct (conf_ignore_uncommitted cfg); cbn [negb when]; [reflexivity|].
  unfold bind.
  pose proof (has_uncommitted_changes_unfold cfg (git_wrap.make dir None) w1) as E. cbv zeta in E.
  rewrite E. clear E.
  cbn [git_wrap.make git_wrap.root_ git_wrap.runner_].
  fold (probe_status dir). fold w2. fold s2.
  destruct (negb (String.eqb (output (probe_status dir) w1) "")); cbn [when]; [reflexivity|].
  cbn [ret].
  pose proof (has_stashed_changes_unfold cfg (git_wrap.make dir None) w2) as E. cbv zeta in E.
  rewrite E. clear E.
  cbn [git_wrap.make git_wrap.root_ git_wrap.runner_].
  fold (probe_stash dir). fold w3. fold s3.
  destruct (exit_code (probe_stash dir) w2 =? 0); reflexivity.
Qed.
(** C1: [delete_directory] on a repository, without the override, runs
    the status check and then the stash check before anything is
    deleted. When either finds changes the call bails out: its last act
    is an error that names --ignore-uncommitted-changes, nothing was
    deleted, and the world is the one the read-only probes left. In
    every other case (not a repository, override set, or both checks
    passed) the call succeeds and its last act is the deletion, which
    comes after the probes. *)
Theorem delete_directory_is_guarded (cx : context) (dir : path) (w : W) :
  let run := git_wrap.delete_directory cfg cx dir in
  let w1 := after (probe_repo dir) w in
  let w2 := after (probe_status dir) w1 in
  let w3 := after (probe_stash dir) w2 in
  if refused dir w then
    result_of run w = Bailed /\
    existsb is_delete (trace_of run w) = false /\
    world_of run w = (if uncommitted_at dir w then w2 else w3) /\
    processes (trace_of run w) =
      (if uncommitted_at dir w
       then [probe_repo dir; probe_status dir]
       else [probe_repo dir; probe_status dir; probe_stash dir]) /\
    (exists e, last (trace_of run w) = Some e /\ names_the_flag e = true)
  else
    result_of run w = Ok tt /\
    (exists t, trace_of run w = t ++ [DeleteDirectory cx dir] /\
               existsb is_delete t = false /\
               processes t =
                 (if is_repo_at dir w && negb (conf_ignore_uncommitted cfg)
                  then [probe_repo dir; probe_status dir; probe_stash dir]
                  else [probe_repo dir])) /\
    world_of run w =
      sys_delete_directory dir
        (if is_repo_at dir w && negb (conf_ignore_uncommitted cfg) then w3 else w1).
Proof.
  intros run w1 w2 w3. subst run.
  unfold refused, result_of, world_of, trace_of.
  pose proof (delete_directory_unfold cx dir w) as E. cbv zeta in E.
  fold w1 in E. fold w2 in E. fold w3 in E. rewrite E. clear E.
  destruct (is_repo_at dir w); cbn [andb negb];
    [destruct (conf_ignore_uncommitted cfg); cbn [andb negb orb];
     [|destruct (uncommitted_at dir w); cbn [orb];
       [|destruct (stashed_at dir w)]]|].
  - repeat split. eexists [_; _]. repeat split.
  - repeat split. eexists. split; [reflexivity|].
    cbn [names_the_flag Str.format_args]. do 16 apply contains_cons.
    apply contains_app_r. do 28 apply contains_cons. reflexivity.
  - repeat split. eexists. split; [reflexivity|].
    cbn [names_the_flag Str.format_args]. do 16 apply contains_cons.
    apply contains_app_r. do 25 apply contains_cons. reflexivity.
  - repeat split. eexists [_; _; _; _]. repeat split.
  - repeat split. eexists [_]. repeat split.
Qed.

End DeleteDirectory.

(** ** Concrete runs of the git tool and of the guarded deletion *)

Module Runs.

Definition root : path := "/build/modorganizer".

(** the tool as a task configures it *)
Definition tool (o : git.ops) : git.t :=
  git.make o (cx_named "modorganizer")
    |> git.url Sim.mo_url |> git.branch "master" |> git.root root.

(** the same with the url left out *)
Definition tool_without_url (o : git.ops) : git.t :=
  git.make o (cx_named "modorganizer") |> git.branch "master" |> git.root root.

(** what a trace did, without the process details *)
Definition summary (t : list event) : list (list string) :=
  map (fun e => match e with
                | Spawn _ p _ _ => Sim.words p
                | Log _ _ _ msg => ["log"; msg]
                | DeleteDirectory _ d => ["delete"; d]
                end) t.

End Runs.

Lemma do_run_missing_parameters_witness :
  (git.url_ (Runs.tool_without_url git.pull) = "" \/
   git.root_ (Runs.tool_without_url git.pull) = "") /\
  result_of (git.do_run Sim.cfg (Runs.tool_without_url git.pull)) Sim.cloned = Bailed.
Proof.
  split; [left; reflexivity|].
  apply (do_run_missing_parameters Sim.cfg (Runs.tool_without_url git.pull) Sim.cloned).
  left; reflexivity.
Defined.

Lemma clone_is_noop_when_marker_exists_witness :
  sys_exists (Path.append (git.root_ (Runs.tool git.clone_or_pull)) ".git") Sim.cloned = true /\
  git.do_clone Sim.cfg (Runs.tool git.clone_or_pull) Sim.cloned =
    (Ok false, Sim.cloned, [not_cloning (Runs.tool git.clone_or_pull)]) /\
  processes (trace_of (git.do_run Sim.cfg (Runs.tool git.clone_or_pull)) Sim.cloned) =
    [the_pull Sim.cfg (Runs.tool git.clone_or_pull)].
Proof.
  assert (Hmarker : sys_exists (Path.append (git.root_ (Runs.tool git.clone_or_pull)) ".git")
                      Sim.cloned = true) by reflexivity.
  split; [exact Hmarker|].
  destruct (clone_is_noop_when_marker_exists Sim.cfg (Runs.tool git.clone_or_pull) Sim.cloned
              Hmarker) as (Hclone & _ & Hrun).
  split; [exact Hclone|].
  destruct Hrun as [_ Hpull]; [discriminate|discriminate|].
  destruct (Hpull ltac:(reflexivity)) as (_ & _ & _ & Hnow & _).
  unfold trace_of. rewrite (Hnow ltac:(reflexivity)). reflexivity.
Defined.

(** clone, then clone again: one clone process in all *)
Example clone_twice_in_sim :
  Runs.summary
    (trace_of (git.do_run Sim.cfg (Runs.tool git.clone) ;;
               git.do_run Sim.cfg (Runs.tool git.clone)) Sim.absent) =
    [ ["clone"; "--recurse-submodules"; "--branch"; "master"; "--quiet";
       "-c"; "advice.detachedHead=false"; Sim.mo_url; Runs.root];
      ["log"; "not cloning, /build/modorganizer/.git exists"] ].
Proof. vm_compute. reflexivity. Qed.

(** clone_or_pull on a tree that is already there pulls *)
Example clone_or_pull_pulls_in_sim :
  Runs.summary (trace_of (git.do_run Sim.cfg (Runs.tool git.clone_or_pull)) Sim.cloned) =
    [ ["log"; "not cloning, /build/modorganizer/.git exists"];
      ["pull"; "--recurse-submodules"; "--quiet"; Sim.mo_url; "master"] ].
Proof. vm_compute. reflexivity. Qed.

(** uncommitted changes: nothing is deleted *)
Example delete_refused_in_sim :
  let w := Sim.set_status " M src/main.cpp" false Sim.cloned in
  git_wrap.delete_directory Sim.cfg gcx Runs.root w =
    (Bailed, w, trace_of (git_wrap.delete_directory Sim.cfg gcx Runs.root) w) /\
  Runs.summary (trace_of (git_wrap.delete_directory Sim.cfg gcx Runs.root) w) =
    [ ["rev-parse"; "--is-inside-work-tree"];
      ["status"; "-s"; "--porcelain"];
      ["log"; "will not delete /build/modorganizer, has uncommitted changes; see --ignore-uncommitted-changes"] ].
Proof. vm_compute. split; reflexivity. Qed.

(** the same tree with the override: deleted *)
Example delete_override_in_sim :
  let w := Sim.set_status " M src/main.cpp" true Sim.cloned in
  result_of (git_wrap.delete_directory Sim.cfg_override gcx Runs.root) w = Ok tt /\
  Sim.wd_present (world_of (git_wrap.delete_directory Sim.cfg_override gcx Runs.root) w) = false /\
  Runs.summary (trace_of (git_wrap.delete_directory Sim.cfg_override gcx Runs.root) w) =
    [ ["rev-parse"; "--is-inside-work-tree"];
      ["log"; "deleting directory controlled by git /build/modorganizer"];
      ["delete"; "/build/modorganizer"] ].
Proof. vm_compute. repeat split; reflexivity. Qed.

(** ** The git file of the origin remote *)

Section StringFacts.

Lemma append_nil (s : string) : "" +:+ s = s.
Proof. reflexivity. Qed.

Lemma append_cons (c : ascii) (a b : string) : String c a +:+ b = String c (a +:+ b).
Proof. reflexivity. Qed.

Lemma substr_app (pre s : string) : Str.substr (pre +:+ s) (Str.length pre) = s.
Proof.
  induction pre as [|c pre IH]; [destruct s; reflexivity|].
  rewrite append_cons. exact IH.
Qed.

Lemma substr_past_separator (pre seg : string) (c : ascii) :
  Str.substr (pre +:+ String c seg) (Str.length pre + 1) = seg.
Proof.
  induction pre as [|d pre IH]; [destruct seg; reflexivity|].
  rewrite append_cons. exact IH.
Qed.

Lemma find_last_of_none (s : string) (c : ascii) :
  Str.find_last_of s (String c "") = None <-> Str.mem c s = false.
Proof.
  induction s as [|d s IH]; cbn; [tauto|].
  rewrite (Ascii.eqb_sym c d).
  destruct (Str.find_last_of s (String c "")) as [i|]; destruct (Ascii.eqb d c).
  - split; discriminate.
  - split; [discriminate|]. intros E. apply IH in E. discriminate.
  - split; discriminate.
  - split; [intros _; apply IH|]; reflexivity.
Qed.

Lemma find_last_of_split (s set : string) (i : nat) :
  Str.find_last_of s set = Some i ->
  exists pre c seg,
    s = pre +:+ String c seg /\ Str.length pre = i /\
    Str.mem c set = true /\ Str.find_last_of seg set = None.
Proof.
  revert i. induction s as [|d s IH]; cbn; intros i E; [discriminate|].
  destruct (Str.find_last_of s set) as [j|] eqn:Ej.
  - injection E as <-. destruct (IH j eq_refl) as (pre & c & seg & -> & <- & Hc & Hseg).
    exists (String d pre), c, seg. repeat split; assumption.
  - destruct (Str.mem d set) eqn:Ed; [|discriminate]. injection E as <-.
    exists "", d, s. repeat split; assumption.
Qed.

Lemma find_last_of_app (pre seg : string) (c : ascii) :
  Str.mem c seg = false ->
  Str.find_last_of (pre +:+ String c seg) (String c "") = Some (Str.length pre).
Proof.
  intros Hseg. apply find_last_of_none in Hseg.
  induction pre as [|d pre IH].
  - rewrite append_nil. cbn. rewrite Hseg, Ascii.eqb_refl. reflexivity.
  - rewrite append_cons. cbn. rewrite IH. reflexivity.
Qed.

Lemma drop_while_end_empty f s :
  Str.drop_while_end f s = "" <-> Str.all f s = true.
Proof.
  induction s as [|c s IH]; cbn; [tauto|].
  destruct (Str.drop_while_end f s) eqn:E.
  - destruct (f c); cbn; [|split; discriminate].
    split; intros _; [apply IH|]; reflexivity.
  - split; [discriminate|]. intros Hall. apply andb_true_iff in Hall as [_ Hall].
    apply IH in Hall. discriminate.
Qed.

Lemma drop_while_all f s : Str.all f s = true -> Str.drop_while f s = "".
Proof.
  induction s as [|c s IH]; cbn; [reflexivity|].
  intros Hall. apply andb_true_iff in Hall as [-> Hall]. auto.
Qed.

Lemma drop_while_head f s c r : Str.drop_while f s = String c r -> f c = false.
Proof.
  induction s as [|d s IH]; cbn; [discriminate|].
  destruct (f d) eqn:E; [exact IH|]. intros [= <- <-]. exact E.
Qed.

Lemma drop_both_empty f s :
  Str.drop_while_end f (Str.drop_while f s) = "" <-> Str.all f s = true.
Proof.
  rewrite drop_while_end_empty. split.
  - induction s as [|c s IH]; [reflexivity|].
    cbn [Str.drop_while Str.all]. destruct (f c) eqn:E; [exact IH|].
    cbn [Str.all]. rewrite E. discriminate.
  - intros Hall. rewrite (drop_while_all _ _ Hall). reflexivity.
Qed.

(** a segment is empty after trimming exactly when it is all white space *)
Lemma trim_copy_empty (s : string) :
  Str.trim_copy s = "" <-> Str.all (fun c => Str.mem c Str.whitespace) s = true.
Proof. apply drop_both_empty. Qed.

End StringFacts.

Section GitFile.

Context {W : Type} `{System W}.
Variable cfg : config.

Abbreviation slash := ("/"%char) (only parsing).

Lemma git_file_unfold (g : git_wrap.t) (w : W) :
  let p := details.remote_url cfg (git_wrap.root_ g) in
  let out := output p w in
  let bad := Log (git_wrap.cx g) lv_error generic
                 (Str.format_args "bad get-url output '{}'" [out]) in
  let spawn := Spawn (git_wrap.runner_ g) p (exit_code p w) out in
  git_wrap.git_file cfg g w =
    if negb (exit_code p w =? 0) then (Bailed, after p w, [spawn])
    else match Str.find_last_of out "/" with
         | None => (Bailed, after p w, [spawn; bad])
         | Some i =>
             if Str.empty (Str.trim_copy (Str.substr out (i + 1)))
             then (Bailed, after p w, [spawn; bad])
             else (Ok (Str.trim_copy (Str.substr out (i + 1))), after p w, [spawn])
         end.
Proof.
  intros p out bad spawn. unfold git_wrap.git_file, bind. fold p.
  rewrite run_unfold. fold out. fold spawn.
  replace (p_allow_failure p) with false by reflexivity.
  rewrite andb_true_r.
  destruct (negb (exit_code p w =? 0)); [reflexivity|].
  cbn [snd]. replace (Proc.stdout_string p out) with out by reflexivity.
  destruct (Str.find_last_of out "/") as [i|]; [|reflexivity].
  destruct (Str.empty (Str.trim_copy (Str.substr out (i + 1)))); reflexivity.
Qed.

(** the lookup fails by bailing out only *)
Lemma git_file_never_throws (g : git_wrap.t) (w : W) :
  result_of (git_wrap.git_file cfg g) w <> Thrown.
Proof.
  unfold result_of. pose proof (git_file_unfold g w) as E. cbv zeta in E. rewrite E.
  destruct (negb _); [discriminate|].
  destruct (Str.find_last_of _ _); [|discriminate].
  destruct (Str.empty _); discriminate.
Qed.

(** C5: with [out] what [git remote get-url origin] printed (nothing
    when it failed), [git_file] answers with the trimmed text that
    follows the last '/' of [out], and bails out exactly when [out] is
    empty, has no '/', or has only white space after its last '/'. *)
Theorem git_file_is_last_segment (g : git_wrap.t) (w : W)
    (Hgit : exit_code (details.remote_url cfg (git_wrap.root_ g)) w <> 0 ->
            output (details.remote_url cfg (git_wrap.root_ g)) w = "") :
  let out := output (details.remote_url cfg (git_wrap.root_ g)) w in
  (forall pre seg,
     out = pre +:+ String slash seg -> Str.mem slash seg = false ->
     Str.trim_copy seg <> "" ->
     result_of (git_wrap.git_file cfg g) w = Ok (Str.trim_copy seg)) /\
  (result_of (git_wrap.git_file cfg g) w = Bailed <->
     out = "" \/
     Str.mem slash out = false \/
     exists pre seg,
       out = pre +:+ String slash seg /\ Str.mem slash seg = false /\
       Str.trim_copy seg = "") /\
  processes (trace_of (git_wrap.git_file cfg g) w) =
    [details.remote_url cfg (git_wrap.root_ g)].
Proof.
  intros out. unfold result_of, trace_of.
  pose proof (git_file_unfold g w) as E. cbv zeta in E. fold out in E.
  rewrite E. clear E.
  destruct (Z.eqb_spec (exit_code (details.remote_url cfg (git_wrap.root_ g)) w) 0)
    as [Hran | Hfailed]; cbn [negb].
  2:{ specialize (Hgit Hfailed). fold out in Hgit.
      split; [|split]; [| |reflexivity].
      - intros pre seg Eout _ _. rewrite Hgit in Eout. destruct pre; discriminate.
      - split; [intros _; left; exact Hgit | reflexivity]. }
  split; [|split].
  - intros pre seg Eout Hseg Htrim.
    rewrite Eout, (find_last_of_app pre seg slash Hseg), substr_past_separator.
    apply empty_false in Htrim. rewrite Htrim. reflexivity.
  - split.
    + destruct (Str.find_last_of out "/") as [i|] eqn:Ei.
      * destruct (find_last_of_split _ _ _ Ei) as (pre & c & seg & Eout & Elen & Hc & Hseg).
        assert (c = slash) as ->.
        { cbn in Hc. destruct (Ascii.eqb_spec c "/"); [assumption | discriminate]. }
        apply find_last_of_none in Hseg.
        rewrite Eout, <- Elen, substr_past_separator.
        destruct (Str.empty (Str.trim_copy seg)) eqn:Et; [|discriminate].
        intros _. right; right. exists pre, seg. apply empty_true in Et. auto.
      * intros _. right; left. apply find_last_of_none. exact Ei.
    + intros [Eout | [Hno | (pre & seg & Eout & Hseg & Htrim)]].
      * rewrite Eout. reflexivity.
      * apply find_last_of_none in Hno. rewrite Hno. reflexivity.
      * rewrite Eout, (find_last_of_app pre seg slash Hseg), substr_past_separator.
        rewrite Htrim. reflexivity.
  - destruct (Str.find_last_of out "/") as [i|]; [|reflexivity].
    destruct (Str.empty _); reflexivity.
Qed.

End GitFile.

(** the example of the specification, as git prints the url *)
Example git_file_of_modorganizer :
  result_of (git_wrap.git_file Sim.cfg (git_wrap.make Runs.root None)) Sim.cloned =
    Ok "modorganizer.git".
Proof. vm_compute. reflexivity. Qed.

Lemma git_file_is_last_segment_witness :
  (exit_code (details.remote_url Sim.cfg Runs.root) Sim.cloned <> 0 ->
   output (details.remote_url Sim.cfg Runs.root) Sim.cloned = "") /\
  result_of (git_wrap.git_file Sim.cfg (git_wrap.make Runs.root None)) Sim.cloned =
    Ok "modorganizer.git".
Proof.
  assert (Hgit : exit_code (details.remote_url Sim.cfg Runs.root) Sim.cloned <> 0 ->
                 output (details.remote_url Sim.cfg Runs.root) Sim.cloned = "").
  { intros Hne. exfalso. apply Hne. reflexivity. }
  split; [exact Hgit|].
  pose proof (git_file_is_last_segment Sim.cfg (git_wrap.make Runs.root None)
                Sim.cloned Hgit) as [Hseg _].
  apply (Hseg "git@github.com:ModOrganizer2" ("modorganizer.git" +:+ String "010" ""));
    [reflexivity | reflexivity | discriminate].
Defined.

(** ** Remotes *)

Section Remotes.

Context {W : Type} `{System W}.
Variable cfg : config.

Lemma value_or_unfold {A} (opt : option A) (x : M W A) (w : W) :
  git_wrap.value_or opt x w =
    match x w with
    | (Ok v, w1, t1) => (Ok (default v opt), w1, t1)
    | (Bailed, w1, t1) => (Bailed, w1, t1)
    | (Thrown, w1, t1) => (Thrown, w1, t1)
    end.
Proof.
  unfold git_wrap.value_or, bind, ret.
  destruct (x w) as [[[v| |] w1] t1]; [rewrite app_nil_r| |]; reflexivity.
Qed.

Lemma git_file_trace_head (g : git_wrap.t) (w : W) :
  let p := details.remote_url cfg (git_wrap.root_ g) in
  exists t,
    trace_of (git_wrap.git_file cfg g) w =
      Spawn (git_wrap.runner_ g) p (exit_code p w) (output p w) :: t.
Proof.
  intros p. unfold trace_of.
  pose proof (git_file_unfold cfg g w) as E. cbv zeta in E. rewrite E. fold p.
  destruct (negb (exit_code p w =? 0)); [eexists; reflexivity|].
  destruct (Str.find_last_of (output p w) "/"); [|eexists; reflexivity].
  destruct (Str.empty _); eexists; reflexivity.
Qed.

Lemma add_remote_bails_with_lookup (g : git_wrap.t)
    (remote_name username key : string) (push_default : bool)
    (url_pattern : option details.git_url_pattern_format_string)
    (opt_git_file : option string) (w : W) :
  result_of (git_wrap.git_file cfg g) w = Bailed ->
  result_of (git_wrap.add_remote cfg g remote_name username key push_default
               url_pattern opt_git_file) w = Bailed /\
  world_of (git_wrap.add_remote cfg g remote_name username key push_default
              url_pattern opt_git_file) w = world_of (git_wrap.git_file cfg g) w.
Proof.
  unfold result_of, world_of, git_wrap.add_remote.
  rewrite bind_unfold, value_or_unfold.
  destruct (git_wrap.git_file cfg g w) as [[[v| |] w1] t1]; cbn;
    [discriminate| |discriminate].
  split; reflexivity.
Qed.

(** C2, as the code has it: [add_remote] given a git file looks the
    origin url up all the same ([value_or] gets [git_file()] already
    evaluated); the lookup is the first process of the call, and when it
    bails out so does the call, in the world the lookup left. *)
Theorem add_remote_looks_up_origin_despite_git_file
    (g : git_wrap.t) (remote_name username key : string) (push_default : bool)
    (url_pattern : option details.git_url_pattern_format_string) (gf : string) (w : W) :
  let call := git_wrap.add_remote cfg g remote_name username key push_default
                url_pattern (Some gf) in
  head (processes (trace_of call w)) = Some (details.remote_url cfg (git_wrap.root_ g)) /\
  match result_of (git_wrap.git_file cfg g) w with
  | Bailed => result_of call w = Bailed /\ world_of call w = world_of (git_wrap.git_file cfg g) w
  | Ok _ => True
  | Thrown => False
  end.
Proof.
  intros call. subst call. split.
  - unfold git_wrap.add_remote, trace_of. rewrite bind_unfold, value_or_unfold.
    destruct (git_file_trace_head g w) as [t Et]. unfold trace_of in Et.
    destruct (git_wrap.git_file cfg g w) as [[[v| |] w1] t1]; cbn in Et; subst t1;
      reflexivity.
  - destruct (result_of (git_wrap.git_file cfg g) w) eqn:E; [exact I| |].
    + apply add_remote_bails_with_lookup, E.
    + apply (git_file_never_throws cfg g w E).
Qed.

(** with an upstream remote in place the call does nothing but say so *)
Lemma set_origin_and_upstream_remotes_noop (g : git_wrap.t) (org key : string)
    (no_push_upstream push_default_origin : bool) (w : W) :
  let p := details.has_remote cfg (git_wrap.root_ g) "upstream" in
  exit_code p w = 0 ->
  git_wrap.set_origin_and_upstream_remotes cfg g org key no_push_upstream
      push_default_origin w =
    (Ok tt, after p w,
     [Spawn (git_wrap.runner_ g) p 0 (output p w);
      Log (git_wrap.cx g) lv_trace generic "upstream remote already exists"]).
Proof.
  intros p E. unfold git_wrap.set_origin_and_upstream_remotes, bind.
  pose proof (has_remote_unfold cfg g "upstream" w) as E'. cbv zeta in E'.
  rewrite E'. fold p. rewrite E. reflexivity.
Qed.

(** without an upstream remote: once origin has been renamed away and
    git can no longer tell its url, the call bails out in [add_remote],
    whatever git file was captured before the rename *)
Lemma set_origin_and_upstream_remotes_bails_after_rename (g : git_wrap.t)
    (org key : string) (push_default_origin : bool) (w : W) (gf : string) :
  let root := git_wrap.root_ g in
  let w1 := after (details.has_remote cfg root "upstream") w in
  let w2 := world_of (git_wrap.git_file cfg g) w1 in
  let w3 := after (details.rename_remote cfg root "origin" "upstream") w2 in
  exit_code (details.has_remote cfg root "upstream") w <> 0 ->
  result_of (git_wrap.git_file cfg g) w1 = Ok gf ->
  exit_code (details.rename_remote cfg root "origin" "upstream") w2 = 0 ->
  exit_code (details.remote_url cfg root) w3 <> 0 ->
  result_of (git_wrap.set_origin_and_upstream_remotes cfg g org key false
               push_default_origin) w = Bailed.
Proof.
  intros root w1 w2 w3 Hup Hgf Hren Hurl.
  unfold result_of, git_wrap.set_origin_and_upstream_remotes.
  rewrite bind_unfold.
  pose proof (has_remote_unfold cfg g "upstream" w) as E. cbv zeta in E.
  rewrite E. clear E. fold root. fold w1.
  apply Z.eqb_neq in Hup. rewrite Hup. cbn [fst snd].
  rewrite bind_unfold. unfold result_of in Hgf. unfold world_of in w2.
  destruct (git_wrap.git_file cfg g w1) as [[r wa] ta] eqn:Egf.
  cbn in Hgf. subst r. cbn [fst snd] in *.
  rewrite bind_unfold. unfold git_wrap.rename_remote at 1. rewrite bind_unfold, run_unfold.
  fold root. subst w2. rewrite Hren. cbn [Z.eqb negb andb fst snd ret when].
  rewrite bind_ret_l.
  fold w3.
  assert (Hb : result_of (git_wrap.git_file cfg g) w3 = Bailed).
  { unfold result_of. pose proof (git_file_unfold cfg g w3) as E. cbv zeta in E.
    rewrite E. fold root. apply Z.eqb_neq in Hurl. rewrite Hurl. reflexivity. }
  destruct (add_remote_bails_with_lookup g "origin" org key push_default_origin
              None (Some gf) w3 Hb) as [Hbail _].
  unfold result_of in Hbail. rewrite Hbail. reflexivity.
Qed.

End Remotes.

Module RemoteRuns.

Definition g : git_wrap.t := git_wrap.make Runs.root None.

(** the fresh clone after [git remote rename origin upstream] *)
Definition renamed : Sim.world :=
  world_of (git_wrap.rename_remote Sim.cfg g "origin" "upstream") Sim.cloned.

Definition add_origin : M Sim.world unit :=
  git_wrap.add_remote Sim.cfg g "origin" "me" "" true None (Some "modorganizer.git").

Definition rewire : M Sim.world unit :=
  git_wrap.set_origin_and_upstream_remotes Sim.cfg g "me" "" true true.

End RemoteRuns.

(** [add_remote] with the git file given, on the repository whose origin
    was just renamed: the lookup of the origin url is made, fails, and
    the remote is not added. *)
Example add_remote_after_rename_in_sim :
  Sim.remotes_of RemoteRuns.renamed = [("upstream", Sim.mo_url)] /\
  result_of RemoteRuns.add_origin RemoteRuns.renamed = Bailed /\
  Runs.summary (trace_of RemoteRuns.add_origin RemoteRuns.renamed) =
    [ ["remote"; "get-url"; "origin"] ] /\
  Sim.remotes_of (world_of RemoteRuns.add_origin RemoteRuns.renamed) =
    [("upstream", Sim.mo_url)].
Proof. vm_compute. repeat split; reflexivity. Qed.

(** without an origin remote the lookup fails, nothing is printed, and
    [git_file] bails out *)
Example git_file_without_origin_in_sim :
  exit_code (details.remote_url Sim.cfg Runs.root) RemoteRuns.renamed = 2 /\
  output (details.remote_url Sim.cfg Runs.root) RemoteRuns.renamed = "" /\
  result_of (git_wrap.git_file Sim.cfg RemoteRuns.g) RemoteRuns.renamed = Bailed.
Proof. vm_compute. repeat split; reflexivity. Qed.

(** C3, as the code has it: [set_origin_and_upstream_remotes] twice on a
    fresh clone: the first
    call renames origin to upstream and then bails out in [add_remote],
    before the new origin is added; the second call finds upstream and
    does nothing. One upstream remote exists afterwards, and no
    origin. *)
Theorem set_origin_and_upstream_remotes_twice_in_sim :
  let w1 := world_of RemoteRuns.rewire Sim.cloned in
  Sim.remotes_of Sim.cloned = [("origin", Sim.mo_url)] /\
  result_of RemoteRuns.rewire Sim.cloned = Bailed /\
  Runs.summary (trace_of RemoteRuns.rewire Sim.cloned) =
    [ ["config"; "remote.upstream.url"];
      ["remote"; "get-url"; "origin"];
      ["remote"; "rename"; "origin"; "upstream"];
      ["remote"; "set-url"; "--push"; "upstream"; "nopushurl"];
      ["remote"; "get-url"; "origin"] ] /\
  Sim.remotes_of w1 = [("upstream", Sim.mo_url)] /\
  result_of RemoteRuns.rewire w1 = Ok tt /\
  Runs.summary (trace_of RemoteRuns.rewire w1) =
    [ ["config"; "remote.upstream.url"];
      ["log"; "upstream remote already exists"] ] /\
  world_of RemoteRuns.rewire w1 = w1.
Proof. vm_compute. repeat split; reflexivity. Qed.

(** ** Translation files *)

Definition first_word (p : process) : string :=
  match p_args p with
  | Arg v _ :: _ => v
  | ArgKV k _ _ :: _ => k
  | [] => ""
  end.

(** the git commands of the wrapper's .ts handling that change a file's
    state: [update-index] and [checkout] *)
Definition modifies (p : process) : bool :=
  String.eqb (first_word p) "update-index" || String.eqb (first_word p) "checkout".

Definition touches (e : event) : bool :=
  match e with Spawn _ p _ _ => modifies p | _ => false end.

Definition is_log (e : event) : bool :=
  match e with Log _ _ _ _ => true | _ => false end.

Definition is_low (lv : level) : bool :=
  match lv with lv_trace | lv_debug => true | _ => false end.

Definition is_ts (e : directory_entry) : bool :=
  entry_is_regular_file e && Str.ends_with (Path.extension (entry_path e)) ".ts".

Section Guarded.

(** [probe p] asks whether [p] is tracked, [act p] changes [p]. *)
Variable cx : context.
Variables probe act : path -> process.

(** A trace in which files are changed exactly under the guard of
    their probe: every process is the probe or the action of one of
    [fs]; every event that touches a file is the action of a file, and
    what precedes it ends with the successful probe of that same file
    and log messages; a probe that fails is followed by a message at a
    low level; and a probe that succeeds is followed, after log
    messages only, by the action on the file it asked about. *)
Definition guarded_by_probe (fs : list path) (t : list event) : Prop :=
  (forall q, In q (processes t) -> exists p, In p fs /\ (q = probe p \/ q = act p)) /\
  (forall pre e post,
     t = pre ++ e :: post -> touches e = true ->
     exists pre' logs via p o c' o',
       In p fs /\
       pre = pre' ++ Spawn via (probe p) 0 o :: logs /\
       forallb is_log logs = true /\
       e = Spawn via (act p) c' o') /\
  (forall pre via q c o post,
     t = pre ++ Spawn via q c o :: post -> modifies q = false -> c <> 0 ->
     exists lv msg post',
       post = Log cx lv generic msg :: post' /\ is_low lv = true) /\
  (forall pre via q o post,
     t = pre ++ Spawn via q 0 o :: post -> modifies q = false ->
     exists p logs c' o' post',
       In p fs /\ q = probe p /\
       forallb is_log logs = true /\
       post = logs ++ Spawn via (act p) c' o' :: post').

Inductive shape : list path -> list event -> Prop :=
| shape_end fs : shape fs []
| shape_skip p fs via c o lv msg t :
    c <> 0 -> is_low lv = true -> shape fs t ->
    shape (p :: fs) (Spawn via (probe p) c o :: Log cx lv generic msg :: t)
| shape_act p fs via o logs c' o' t :
    forallb is_log logs = true -> shape fs t ->
    shape (p :: fs) ((Spawn via (probe p) 0 o :: logs) ++ Spawn via (act p) c' o' :: t).

Hypothesis probe_reads : forall p, modifies (probe p) = false.
Hypothesis act_modifies : forall p, modifies (act p) = true.

Lemma processes_app (t1 t2 : list event) :
  processes (t1 ++ t2) = processes t1 ++ processes t2.
Proof. apply omap_app. Qed.

Lemma processes_spawn via p c o (t : list event) :
  processes (Spawn via p c o :: t) = p :: processes t.
Proof. reflexivity. Qed.

Lemma processes_logs (logs : list event) :
  forallb is_log logs = true -> processes logs = [].
Proof.
  induction logs as [|[] logs IH]; cbn; try discriminate; auto.
Qed.

Lemma logs_do_not_touch (logs : list event) e :
  forallb is_log logs = true -> In e logs -> touches e = false /\ is_spawn e = false.
Proof.
  intros Hl Hin. rewrite forallb_forall in Hl. specialize (Hl e Hin).
  destruct e; cbn in *; try discriminate; auto.
Qed.

Lemma shape_processes fs t :
  shape fs t ->
  forall q, In q (processes t) -> exists p, In p fs /\ (q = probe p \/ q = act p).
Proof.
  induction 1 as [fs | p fs via c o lv msg t Hc Hlv Hs IH
                 | p fs via o logs c' o' t Hl Hs IH]; intros q Hq.
  - destruct Hq.
  - rewrite processes_spawn in Hq. destruct Hq as [<- | Hq].
    + exists p. split; [left; reflexivity | left; reflexivity].
    + destruct (IH q Hq) as (p' & Hin & Hp'). exists p'. split; [right|]; assumption.
  - rewrite processes_app, !processes_spawn, (processes_logs logs Hl) in Hq.
    destruct Hq as [<- | [<- | Hq]].
    + exists p. split; [left; reflexivity | left; reflexivity].
    + exists p. split; [left; reflexivity | right; reflexivity].
    + destruct (IH q Hq) as (p' & Hin & Hp'). exists p'. split; [right|]; assumption.
Qed.

Lemma shape_touches fs t :
  shape fs t ->
  forall pre e post,
    t = pre ++ e :: post -> touches e = true ->
    exists pre' logs via p o c' o',
      In p fs /\
      pre = pre' ++ Spawn via (probe p) 0 o :: logs /\
      forallb is_log logs = true /\
      e = Spawn via (act p) c' o'.
Proof.
  induction 1 as [fs | p fs via c o lv msg t Hc Hlv Hs IH
                 | p fs via o logs c' o' t Hl Hs IH]; intros pre e post Et He.
  - destruct pre; discriminate.
  - destruct pre as [|a [|b pre]].
    + injection Et as <- _. cbn in He. rewrite probe_reads in He. discriminate.
    + injection Et as _ <- _. discriminate.
    + injection Et as <- <- Et.
      destruct (IH _ _ _ Et He) as (pre' & logs & via' & p' & o' & c' & o'' & Hin & -> & Hl & ->).
      exists (Spawn via (probe p) c o :: Log cx lv generic msg :: pre'), logs, via', p', o', c', o''.
      repeat split; [right|]; assumption.
  - apply app_eq_app in Et as [l [[E1 E2] | [E1 E2]]].
    + destruct l as [|a l].
      * cbn in E2. injection E2 as -> _. rewrite app_nil_r in E1. subst pre.
        exists [], logs, via, p, o, c', o'. repeat split; [left; reflexivity | assumption].
      * injection E2 as <- _.
        assert (Hin : In e (Spawn via (probe p) 0 o :: logs)).
        { rewrite E1. apply in_or_app. right. left. reflexivity. }
        destruct Hin as [<- | Hin].
        -- cbn in He. rewrite probe_reads in He. discriminate.
        -- destruct (logs_do_not_touch logs e Hl Hin) as [Hn _]. congruence.
    + destruct l as [|a l].
      * cbn in E2. injection E2 as <- _. rewrite app_nil_r in E1. subst pre.
        exists [], logs, via, p, o, c', o'. repeat split; [left; reflexivity | assumption].
      * injection E2 as <- Et.
        destruct (IH _ _ _ Et He) as (pre' & logs' & via' & p' & o1 & c1 & o2 & Hin & -> & Hl' & ->).
        exists ((Spawn via (probe p) 0 o :: logs) ++ Spawn via (act p) c' o' :: pre'),
               logs', via', p', o1, c1, o2.
        repeat split; [right; assumption | | assumption].
        rewrite E1, <- app_assoc. reflexivity.
Qed.

Lemma shape_failed_probe fs t :
  shape fs t ->
  forall pre via q c o post,
    t = pre ++ Spawn via q c o :: post -> modifies q = false -> c <> 0 ->
    exists lv msg post', post = Log cx lv generic msg :: post' /\ is_low lv = true.
Proof.
  induction 1 as [fs | p fs via c o lv msg t Hc Hlv Hs IH
                 | p fs via o logs c' o' t Hl Hs IH]; intros pre via' q c0 o0 post Et Hq Hc0.
  - destruct pre; discriminate.
  - destruct pre as [|a [|b pre]].
    + injection Et as _ _ _ _ <-. eauto.
    + discriminate.
    + injection Et as _ _ Et. eapply IH; eassumption.
  - apply app_eq_app in Et as [l [[E1 E2] | [E1 E2]]].
    + destruct l as [|a l].
      * cbn in E2. injection E2 as _ Eq _ _ _.
        rewrite <- Eq, act_modifies in Hq || rewrite Eq, act_modifies in Hq. discriminate.
      * injection E2 as <- _.
        assert (Hin : In (Spawn via' q c0 o0) (Spawn via (probe p) 0 o :: logs)).
        { rewrite E1. apply in_or_app. right. left. reflexivity. }
        destruct Hin as [Hin | Hin].
        -- injection Hin as _ _ Hz _. congruence.
        -- destruct (logs_do_not_touch logs _ Hl Hin) as [_ Hn]. discriminate.
    + destruct l as [|a l].
      * cbn in E2. injection E2 as _ Eq _ _ _.
        rewrite <- Eq, act_modifies in Hq || rewrite Eq, act_modifies in Hq. discriminate.
      * injection E2 as _ Et. eapply IH; eassumption.
Qed.

Lemma shape_successful_probe fs t :
  shape fs t ->
  forall pre via q o post,
    t = pre ++ Spawn via q 0 o :: post -> modifies q = false ->
    exists p logs c' o' post',
      In p fs /\ q = probe p /\
      forallb is_log logs = true /\
      post = logs ++ Spawn via (act p) c' o' :: post'.
Proof.
  induction 1 as [fs | p fs via c o lv msg t Hc Hlv Hs IH
                 | p fs via o logs c' o' t Hl Hs IH]; intros pre via' q o0 post Et Hq.
  - destruct pre; discriminate.
  - destruct pre as [|a [|b pre]].
    + injection Et as _ _ Hz _ _. congruence.
    + discriminate.
    + injection Et as _ _ Et.
      destruct (IH _ _ _ _ _ Et Hq) as (p' & logs & c' & o' & post' & Hin & E & Hl & Ep).
      exists p', logs, c', o', post'. repeat split; [right| | |]; assumption.
  - destruct pre as [|a pre].
    + cbn in Et. injection Et as <- <- _ <-.
      exists p, logs, c', o', t. repeat split; [left; reflexivity | assumption].
    + cbn in Et. injection Et as _ Et.
      apply app_eq_app in Et as [l [[E1 E2] | [E1 E2]]].
      * destruct l as [|a' l].
        -- cbn in E2. injection E2 as _ Eq _ _ _.
           rewrite <- Eq, act_modifies in Hq || rewrite Eq, act_modifies in Hq.
           discriminate.
        -- injection E2 as <- _.
           assert (Hin : In (Spawn via' q 0 o0) logs).
           { rewrite E1. apply in_or_app. right. left. reflexivity. }
           destruct (logs_do_not_touch logs _ Hl Hin) as [_ Hn]. discriminate.
      * destruct l as [|a' l].
        -- cbn in E2. injection E2 as _ Eq _ _ _.
           rewrite <- Eq, act_modifies in Hq || rewrite Eq, act_modifies in Hq.
           discriminate.
        -- injection E2 as _ Et.
           destruct (IH _ _ _ _ _ Et Hq) as (p' & logs' & c1 & o1 & post' & Hin & E & Hl' & Ep).
           exists p', logs', c1, o1, post'. repeat split; [right| | |]; assumption.
Qed.

Lemma shape_guarded fs t : shape fs t -> guarded_by_probe fs t.
Proof.
  intros Hs. split; [|split; [|split]].
  - exact (shape_processes fs t Hs).
  - exact (shape_touches fs t Hs).
  - exact (shape_failed_probe fs t Hs).
  - exact (shape_successful_probe fs t Hs).
Qed.

End Guarded.

Section TranslationFiles.

Context {W : Type} `{System W}.
Variable cfg : config.

(** the regular files under [root] whose extension ends with .ts, in
    the order the recursive walk lists them *)
Definition ts_files (root : path) (w : W) : list path :=
  map entry_path (List.filter is_ts (sys_walk root w)).

Lemma for_each_ts_files (es : list directory_entry) (f : path -> M W unit) (w : W) :
  for_each es (fun e =>
    if negb (entry_is_regular_file e) then ret tt
    else
      let p := entry_path e in
      if negb (Str.ends_with (path_to_utf8 (Path.extension p)) ".ts") then ret tt
      else f p) w =
  for_each (map entry_path (List.filter is_ts es)) f w.
Proof.
  revert w. induction es as [|e es IH]; intros w; [reflexivity|].
  cbn [for_each List.filter]. unfold is_ts at 1, path_to_utf8.
  destruct (entry_is_regular_file e); cbn [negb andb].
  - destruct (Str.ends_with (Path.extension (entry_path e)) ".ts"); cbn [negb].
    + cbn [map for_each]. rewrite !bind_unfold.
      destruct (f (entry_path e) w) as [[[[]| |] w1] t1]; [rewrite IH| |]; reflexivity.
    + rewrite bind_ret_l. apply IH.
  - rewrite bind_ret_l. apply IH.
Qed.

(** the walk, then its end: what the loop left stands, and a walk that
    ended on an error throws after the files it reached *)
Definition end_of_walk (root : path) (w : W) (loop : result unit * W * list event)
    : result unit * W * list event :=
  match loop with
  | (Ok _, w1, t1) => (if sys_walk_error root w then Thrown else Ok tt, w1, t1)
  | failed => failed
  end.

Lemma for_each_ts_unfold (root : path) (f : path -> M W unit) (w : W) :
  for_each_ts root f w = end_of_walk root w (for_each (ts_files root w) f w).
Proof.
  unfold for_each_ts, Proc.recursive_directory_iterator, end_of_walk.
  unfold bind at 1. cbn [fst snd]. rewrite bind_unfold, for_each_ts_files. unfold ts_files.
  destruct (for_each _ f w) as [[[[]| |] w'] t]; cbn [app]; try reflexivity.
  destruct (sys_walk_error root w); cbn; rewrite app_nil_r; reflexivity.
Qed.

Lemma trace_end_of_walk (root : path) (w : W) loop :
  snd (end_of_walk root w loop) = snd loop.
Proof. destruct loop as [[[[]| |] w1] t1]; reflexivity. Qed.

Lemma world_end_of_walk (root : path) (w : W) loop :
  snd (fst (end_of_walk root w loop)) = snd (fst loop).
Proof. destruct loop as [[[[]| |] w1] t1]; reflexivity. Qed.

Lemma result_end_of_walk (root : path) (w : W) loop :
  fst (fst (end_of_walk root w loop)) =
    match fst (fst loop) with
    | Ok _ => if sys_walk_error root w then Thrown else Ok tt
    | failed => failed
    end.
Proof. destruct loop as [[[[]| |] w1] t1]; reflexivity. Qed.

Variable g : git_wrap.t.

Definition probe_tracked (p : path) : process :=
  details.is_tracked cfg (git_wrap.root_ g) (sys_relative p (git_wrap.root_ g)).

Definition act_assume_unchanged (b : bool) (p : path) : process :=
  details.set_assume_unchanged cfg (git_wrap.root_ g)
    (sys_relative p (git_wrap.root_ g)) b.

Definition act_revert (p : path) : process :=
  details.revert cfg (git_wrap.root_ g) p.

Definition ignore_body (b : bool) (p : path) : M W unit :=
  let rp := sys_relative p (git_wrap.root_ g) in
  tracked <- git_wrap.is_tracked cfg g rp ;;
  if tracked then
    Cx.trace (git_wrap.cx g) generic "  . {}" [rp] ;;
    git_wrap.set_assume_unchanged cfg g rp b
  else
    Cx.trace (git_wrap.cx g) generic "  . {} (skipping, not tracked)" [rp].

Definition revert_body (p : path) : M W unit :=
  let rp := sys_relative p (git_wrap.root_ g) in
  tracked <- git_wrap.is_tracked cfg g rp ;;
  if tracked then
    _ <- git_wrap.run g (details.revert cfg (git_wrap.root_ g) p) ;; ret tt
  else
    Cx.debug (git_wrap.cx g) generic "won't try to revert ts file '{}', not tracked" [rp].

Lemma ignore_body_unfold (b : bool) (p : path) (w : W) :
  let rp := sys_relative p (git_wrap.root_ g) in
  let w1 := after (probe_tracked p) w in
  let s1 := Spawn (git_wrap.runner_ g) (probe_tracked p)
                  (exit_code (probe_tracked p) w) (output (probe_tracked p) w) in
  let s2 := Spawn (git_wrap.runner_ g) (act_assume_unchanged b p)
                  (exit_code (act_assume_unchanged b p) w1)
                  (output (act_assume_unchanged b p) w1) in
  ignore_body b p w =
    if exit_code (probe_tracked p) w =? 0 then
      (if negb (exit_code (act_assume_unchanged b p) w1 =? 0) then Bailed else Ok tt,
       after (act_assume_unchanged b p) w1,
       [s1; Log (git_wrap.cx g) lv_trace generic (Str.format_args "  . {}" [rp]); s2])
    else
      (Ok tt, w1,
       [s1; Log (git_wrap.cx g) lv_trace generic
              (Str.format_args "  . {} (skipping, not tracked)" [rp])]).
Proof.
  intros rp w1 s1 s2. unfold ignore_body, bind.
  pose proof (is_tracked_unfold cfg g (sys_relative p (git_wrap.root_ g)) w) as E.
  cbv zeta in E. rewrite E. clear E. fold (probe_tracked p). fold w1. fold s1.
  destruct (exit_code (probe_tracked p) w =? 0); [|reflexivity].
  unfold git_wrap.set_assume_unchanged, bind, Cx.trace, Cx.log, emit.
  rewrite run_unfold. fold (act_assume_unchanged b p). fold s2.
  replace (p_allow_failure (act_assume_unchanged b p)) with false
    by (unfold act_assume_unchanged; destruct b; reflexivity).
  rewrite andb_true_r.
  destruct (negb (exit_code (act_assume_unchanged b p) w1 =? 0)); reflexivity.
Qed.

Lemma revert_body_unfold (p : path) (w : W) :
  let rp := sys_relative p (git_wrap.root_ g) in
  let w1 := after (probe_tracked p) w in
  let s1 := Spawn (git_wrap.runner_ g) (probe_tracked p)
                  (exit_code (probe_tracked p) w) (output (probe_tracked p) w) in
  let s2 := Spawn (git_wrap.runner_ g) (act_revert p)
                  (exit_code (act_revert p) w1) (output (act_revert p) w1) in
  revert_body p w =
    if exit_code (probe_tracked p) w =? 0 then
      (if negb (exit_code (act_revert p) w1 =? 0) then Bailed else Ok tt,
       after (act_revert p) w1, [s1; s2])
    else
      (Ok tt, w1,
       [s1; Log (git_wrap.cx g) lv_debug generic
              (Str.format_args "won't try to revert ts file '{}', not tracked" [rp])]).
Proof.
  intros rp w1 s1 s2. unfold revert_body, bind.
  pose proof (is_tracked_unfold cfg g (sys_relative p (git_wrap.root_ g)) w) as E.
  cbv zeta in E. rewrite E. clear E. fold (probe_tracked p). fold w1. fold s1.
  destruct (exit_code (probe_tracked p) w =? 0); [|reflexivity].
  rewrite run_unfold. fold (act_revert p). fold s2.
  replace (p_allow_failure (act_revert p)) with false by reflexivity.
  rewrite andb_true_r.
  destruct (negb (exit_code (act_revert p) w1 =? 0)); reflexivity.
Qed.

Lemma ignore_loop_shape (b : bool) (fs : list path) (w : W) :
  shape (git_wrap.cx g) probe_tracked (act_assume_unchanged b) fs
        (trace_of (for_each fs (ignore_body b)) w).
Proof.
  revert w. induction fs as [|p fs IH]; intros w; [constructor|].
  unfold trace_of. cbn [for_each]. rewrite bind_unfold.
  pose proof (ignore_body_unfold b p w) as E. cbv zeta in E. rewrite E. clear E.
  destruct (Z.eqb_spec (exit_code (probe_tracked p) w) 0) as [Ec|Ec].
  - rewrite Ec. destruct (negb _); cbn [snd app].
    + apply (shape_act _ _ _ p fs _ _ [Log _ _ _ _] _ _ []); [reflexivity | constructor].
    + apply (shape_act _ _ _ p fs _ _ [Log _ _ _ _]); [reflexivity | apply IH].
  - cbn [snd app]. apply shape_skip; [assumption | reflexivity | apply IH].
Qed.

Lemma revert_loop_shape (fs : list path) (w : W) :
  shape (git_wrap.cx g) probe_tracked act_revert fs
        (trace_of (for_each fs revert_body) w).
Proof.
  revert w. induction fs as [|p fs IH]; intros w; [constructor|].
  unfold trace_of. cbn [for_each]. rewrite bind_unfold.
  pose proof (revert_body_unfold p w) as E. cbv zeta in E. rewrite E. clear E.
  destruct (Z.eqb_spec (exit_code (probe_tracked p) w) 0) as [Ec|Ec].
  - rewrite Ec. destruct (negb _); cbn [snd app].
    + apply (shape_act _ _ _ p fs _ _ [] _ _ []); [reflexivity | constructor].
    + apply (shape_act _ _ _ p fs _ _ []); [reflexivity | apply IH].
  - cbn [snd app]. apply shape_skip; [assumption | reflexivity | apply IH].
Qed.

(** the questions asked, in order: the processes that change nothing *)
Definition asked (t : list event) : list process :=
  List.filter (fun q => negb (modifies q)) (processes t).

Lemma asked_app (t1 t2 : list event) : asked (t1 ++ t2) = asked t1 ++ asked t2.
Proof. unfold asked. rewrite processes_app, List.filter_app. reflexivity. Qed.

Lemma asked_spawn via q c o (t : list event) :
  asked (Spawn via q c o :: t) = if modifies q then asked t else q :: asked t.
Proof. unfold asked. rewrite processes_spawn. cbn [List.filter]. destruct (modifies q); reflexivity. Qed.

Lemma asked_log cx lv r msg (t : list event) : asked (Log cx lv r msg :: t) = asked t.
Proof. reflexivity. Qed.

Lemma act_assume_unchanged_modifies b p : modifies (act_assume_unchanged b p) = true.
Proof. unfold act_assume_unchanged. destruct b; reflexivity. Qed.

Lemma act_revert_modifies p : modifies (act_revert p) = true.
Proof. reflexivity. Qed.

Lemma probe_tracked_reads p : modifies (probe_tracked p) = false.
Proof. reflexivity. Qed.

(** how the loop over the files ends: with every file asked about, or
    at the first change git refuses, which is then the last event *)
Lemma ignore_loop_outcome (b : bool) (fs : list path) (w : W) :
  match result_of (for_each fs (ignore_body b)) w with
  | Ok _ => asked (trace_of (for_each fs (ignore_body b)) w) = map probe_tracked fs
  | Bailed =>
      exists t p c o,
        In p fs /\ c <> 0 /\
        trace_of (for_each fs (ignore_body b)) w =
          t ++ [Spawn (git_wrap.runner_ g) (act_assume_unchanged b p) c o]
  | Thrown => False
  end.
Proof.
  unfold result_of, trace_of.
  revert w. induction fs as [|p fs IH]; intros w; [reflexivity|].
  cbn [for_each]. rewrite bind_unfold.
  pose proof (ignore_body_unfold b p w) as E. cbv zeta in E. rewrite E. clear E.
  destruct (exit_code (probe_tracked p) w =? 0).
  - destruct (Z.eqb_spec (exit_code (act_assume_unchanged b p) (after (probe_tracked p) w)) 0)
      as [Ea|Ea]; cbn [negb fst snd].
    + specialize (IH (after (act_assume_unchanged b p) (after (probe_tracked p) w))).
      destruct (for_each fs (ignore_body b) _) as [[[[]| |] w1] t1]; cbn [fst snd] in *.
      * rewrite asked_app, IH.
        rewrite asked_spawn, probe_tracked_reads, asked_log, asked_spawn,
          act_assume_unchanged_modifies. reflexivity.
      * destruct IH as (t & p' & c & o & Hin & Hc & ->).
        eexists (_ ++ t), p', c, o. split; [right; exact Hin|]. split; [exact Hc|].
        rewrite <- app_assoc. reflexivity.
      * exact IH.
    + eexists [_; _], p, _, _. split; [left; reflexivity|]. split; [exact Ea | reflexivity].
  - cbn [fst snd]. specialize (IH (after (probe_tracked p) w)).
    destruct (for_each fs (ignore_body b) _) as [[[[]| |] w1] t1]; cbn [fst snd] in *.
    + rewrite asked_app, IH. rewrite asked_spawn, probe_tracked_reads, asked_log. reflexivity.
    + destruct IH as (t & p' & c & o & Hin & Hc & ->).
      eexists (_ ++ t), p', c, o. split; [right; exact Hin|]. split; [exact Hc|].
      rewrite <- app_assoc. reflexivity.
    + exact IH.
Qed.

Lemma revert_loop_outcome (fs : list path) (w : W) :
  match result_of (for_each fs revert_body) w with
  | Ok _ => asked (trace_of (for_each fs revert_body) w) = map probe_tracked fs
  | Bailed =>
      exists t p c o,
        In p fs /\ c <> 0 /\
        trace_of (for_each fs revert_body) w =
          t ++ [Spawn (git_wrap.runner_ g) (act_revert p) c o]
  | Thrown => False
  end.
Proof.
  unfold result_of, trace_of.
  revert w. induction fs as [|p fs IH]; intros w; [reflexivity|].
  cbn [for_each]. rewrite bind_unfold.
  pose proof (revert_body_unfold p w) as E. cbv zeta in E. rewrite E. clear E.
  destruct (exit_code (probe_tracked p) w =? 0).
  - destruct (Z.eqb_spec (exit_code (act_revert p) (after (probe_tracked p) w)) 0)
      as [Ea|Ea]; cbn [negb fst snd].
    + specialize (IH (after (act_revert p) (after (probe_tracked p) w))).
      destruct (for_each fs revert_body _) as [[[[]| |] w1] t1]; cbn [fst snd] in *.
      * rewrite asked_app, IH.
        rewrite asked_spawn, probe_tracked_reads, asked_spawn, act_revert_modifies.
        reflexivity.
      * destruct IH as (t & p' & c & o & Hin & Hc & ->).
        eexists (_ ++ t), p', c, o. split; [right; exact Hin|]. split; [exact Hc|].
        rewrite <- app_assoc. reflexivity.
      * exact IH.
    + eexists [_], p, _, _. split; [left; reflexivity|]. split; [exact Ea | reflexivity].
  - cbn [fst snd]. specialize (IH (after (probe_tracked p) w)).
    destruct (for_each fs revert_body _) as [[[[]| |] w1] t1]; cbn [fst snd] in *.
    + rewrite asked_app, IH. rewrite asked_spawn, probe_tracked_reads, asked_log. reflexivity.
    + destruct IH as (t & p' & c & o & Hin & Hc & ->).
      eexists (_ ++ t), p', c, o. split; [right; exact Hin|]. split; [exact Hc|].
      rewrite <- app_assoc. reflexivity.
    + exact IH.
Qed.

(** C9: [ignore_ts b] and [revert_ts] go through the regular files the
    walk under the root reaches whose extension ends with .ts, and for
    each ask git whether it is tracked. Every process they start is that
    question or the change of one of these files. A file is changed
    ([update-index] with the flag for [b], or [checkout]) only right
    after git answered that this file is tracked, and every file git
    answers to be tracked is changed right after the answer; a file git
    does not know gets a message at trace or debug level and nothing
    else. The call returns when every file was asked about and the walk
    ended well; it throws, after every file the walk reached was asked
    about, when the walk ended on an error; and it bails out only at a
    change git refuses, which is then the last thing it did. *)
Theorem ts_files_changed_only_when_tracked (b : bool) (w : W) :
  let files := ts_files (git_wrap.root_ g) w in
  let ignore := git_wrap.ignore_ts cfg g b in
  let revert := git_wrap.revert_ts cfg g in
  guarded_by_probe (git_wrap.cx g) probe_tracked (act_assume_unchanged b)
    files (trace_of ignore w) /\
  guarded_by_probe (git_wrap.cx g) probe_tracked act_revert
    files (trace_of revert w) /\
  match result_of ignore w with
  | Ok _ =>
      asked (trace_of ignore w) = map probe_tracked files /\
      sys_walk_error (git_wrap.root_ g) w = false
  | Thrown =>
      asked (trace_of ignore w) = map probe_tracked files /\
      sys_walk_error (git_wrap.root_ g) w = true
  | Bailed =>
      exists t p c o,
        In p files /\ c <> 0 /\
        trace_of ignore w = t ++ [Spawn (git_wrap.runner_ g) (act_assume_unchanged b p) c o]
  end /\
  match result_of revert w with
  | Ok _ =>
      asked (trace_of revert w) = map probe_tracked files /\
      sys_walk_error (git_wrap.root_ g) w = false
  | Thrown =>
      asked (trace_of revert w) = map probe_tracked files /\
      sys_walk_error (git_wrap.root_ g) w = true
  | Bailed =>
      exists t p c o,
        In p files /\ c <> 0 /\
        trace_of revert w = t ++ [Spawn (git_wrap.runner_ g) (act_revert p) c o]
  end.
Proof.
  intros files ignore revert. subst files ignore revert.
  unfold result_of, trace_of, git_wrap.ignore_ts, git_wrap.revert_ts.
  rewrite !for_each_ts_unfold, !trace_end_of_walk, !result_end_of_walk.
  split; [|split; [|split]].
  - apply shape_guarded.
    + intros p. reflexivity.
    + intros p. apply act_assume_unchanged_modifies.
    + apply ignore_loop_shape.
  - apply shape_guarded.
    + intros p. reflexivity.
    + intros p. reflexivity.
    + apply revert_loop_shape.
  - pose proof (ignore_loop_outcome b (ts_files (git_wrap.root_ g) w) w) as Hall.
    unfold result_of, trace_of in Hall. fold (ignore_body b).
    destruct (for_each _ (ignore_body b) w) as [[[[]| |] w1] t1]; cbn [fst snd] in *;
      [|exact Hall|destruct Hall].
    destruct (sys_walk_error (git_wrap.root_ g) w); split; (exact Hall || reflexivity).
  - pose proof (revert_loop_outcome (ts_files (git_wrap.root_ g) w) w) as Hall.
    unfold result_of, trace_of in Hall. fold revert_body.
    destruct (for_each _ revert_body w) as [[[[]| |] w1] t1]; cbn [fst snd] in *;
      [|exact Hall|destruct Hall].
    destruct (sys_walk_error (git_wrap.root_ g) w); split; (exact Hall || reflexivity).
Qed.

End TranslationFiles.

(** [ignore_ts(true)] then [ignore_ts(false)] on the tree with one
    tracked and one untracked translation file: the flag is set and
    cleared on the tracked file, the untracked one is only asked about *)
Example ignore_ts_in_sim :
  let g := git_wrap.make Runs.root None in
  let on := git_wrap.ignore_ts Sim.cfg g true in
  let off := git_wrap.ignore_ts Sim.cfg g false in
  ts_files Runs.root Sim.cloned =
    ["/build/modorganizer/src/organizer_en.ts"; "/build/modorganizer/src/local_nl.ts"] /\
  Runs.summary (trace_of (on ;; off) Sim.cloned) =
    [ ["ls-files"; "--error-unmatch"; "src/organizer_en.ts"];
      ["log"; "  . src/organizer_en.ts"];
      ["update-index"; "--assume-unchanged"; "src/organizer_en.ts"];
      ["ls-files"; "--error-unmatch"; "src/local_nl.ts"];
      ["log"; "  . src/local_nl.ts (skipping, not tracked)"];
      ["ls-files"; "--error-unmatch"; "src/organizer_en.ts"];
      ["log"; "  . src/organizer_en.ts"];
      ["update-index"; "--no-assume-unchanged"; "src/organizer_en.ts"];
      ["ls-files"; "--error-unmatch"; "src/local_nl.ts"];
      ["log"; "  . src/local_nl.ts (skipping, not tracked)"] ] /\
  option_map Sim.assume_unchanged (Sim.wd_repo (world_of on Sim.cloned)) =
    Some ["src/organizer_en.ts"] /\
  world_of (on ;; off) Sim.cloned = Sim.cloned.
Proof. vm_compute. repeat split; reflexivity. Qed.

(** ** The submodule adder *)

Section AdderInvariants.

Import git_submodule_adder.

Context {W : Type} `{System W}.
Variable cfg : config.

(** what every reachable state satisfies *)

Definition in_flight (pc : producer_pc) : list git_submodule.t :=
  match pc with locked g _ => [g] | _ => [] end.

Definition todo_of (pc : producer_pc) : list git_submodule.t :=
  match pc with outside t | locked _ t | emplaced t | woke t => t end.

(** what the worker took from the queue and has not run: its batch
    while it is in one, nothing while it waits, anything once it has
    seen [quit_] *)
Definition pending (pc : worker_pc) (quit : bool) (left : list git_submodule.t) : Prop :=
  match pc with
  | at_run v | at_batch_quit_check v => left = v
  | at_loop_test => left = [] \/ quit = true
  | finished | crashed => True
  | at_wait | at_quit_check | at_swap => left = []
  end.

(** the queue order is: what was run, what the worker holds or gave up,
    what is still queued *)
Definition queue_invariant (s : state W) : Prop :=
  exists left,
    map snd (emplaced_log s) = attempted s ++ left ++ queue_ s /\
    pending (worker s) (quit_ s) left.

(** each producer's program is: what it emplaced, the call it is in,
    the calls it still has to make *)
Definition producer_invariant (programs : list (list git_submodule.t))
    (s : state W) : Prop :=
  length (producers s) = length programs /\
  forall i pc, producers s !! i = Some pc ->
    programs !! i = Some (emplaced_by i (emplaced_log s) ++ in_flight pc ++ todo_of pc).

Lemma emplaced_by_app i l1 l2 :
  emplaced_by i (l1 ++ l2) = emplaced_by i l1 ++ emplaced_by i l2.
Proof. unfold emplaced_by. rewrite List.filter_app, map_app. reflexivity. Qed.

Lemma emplaced_by_same i g : emplaced_by i [(i, g)] = [g].
Proof. unfold emplaced_by. cbn. rewrite Nat.eqb_refl. reflexivity. Qed.

Lemma emplaced_by_other i j g : i <> j -> emplaced_by j [(i, g)] = [].
Proof.
  intros Hne. unfold emplaced_by. cbn.
  destruct (Nat.eqb_spec i j); [contradiction | reflexivity].
Qed.

Lemma pending_quit pc quit left : pending pc quit left -> pending pc true left.
Proof. destruct pc; cbn; auto. Qed.

Lemma init_queue_invariant programs w : queue_invariant (init programs w).
Proof. exists []. split; [reflexivity | left; reflexivity]. Qed.

Lemma init_producer_invariant programs w : producer_invariant programs (init programs w).
Proof.
  split; [apply length_map|]. cbn. intros i pc Hpc.
  rewrite list_lookup_fmap in Hpc.
  destruct (programs !! i) as [program|]; [|discriminate].
  injection Hpc as <-. reflexivity.
Qed.

Lemma step_queue_invariant a s s' :
  step cfg a s = Some s' -> queue_invariant s -> queue_invariant s'.
Proof.
  intros Hstep (left & Hlog & Hpend). destruct a as [i| |]; cbn in Hstep.
  - unfold step_producer in Hstep.
    destruct (producers s !! i) as [[[|g todo]|g todo|todo|todo]|]; try discriminate.
    + destruct (queue_mutex_ s); [discriminate|]. injection Hstep as <-.
      exists left. split; assumption.
    + injection Hstep as <-. exists left. cbn. split; [|assumption].
      rewrite map_app, Hlog, <- !app_assoc. reflexivity.
    + injection Hstep as <-. exists left. split; assumption.
    + injection Hstep as <-. exists left. split; assumption.
  - unfold step_worker in Hstep. destruct (worker s) as [| | | |[|g rest]|rest| |] eqn:Ew;
      cbn in Hpend.
    + injection Hstep as <-. cbn. destruct (quit_ s) eqn:Eq.
      * exists left. split; [assumption | exact I].
      * destruct Hpend as [-> | Hq]; [|discriminate]. exists []. split; [assumption | reflexivity].
    + destruct (sleeper_ready s); [|discriminate]. injection Hstep as <-.
      exists left. split; assumption.
    + injection Hstep as <-. exists left. split; [assumption|].
      cbn. destruct (quit_ s); [exact I | assumption].
    + destruct (queue_mutex_ s); [discriminate|]. injection Hstep as <-.
      subst left. exists (queue_ s). cbn. split; [|reflexivity].
      rewrite Hlog, app_nil_r. reflexivity.
    + injection Hstep as <-. exists []. split; [|left; reflexivity].
      subst left. assumption.
    + injection Hstep as <-. subst left. exists rest. cbn. split.
      * rewrite Hlog, <- !app_assoc. reflexivity.
      * destruct (result_of _ _); cbn; [reflexivity | exact I | exact I].
    + injection Hstep as <-. exists left. split; [assumption|].
      cbn. destruct (quit_ s); cbn; [right; reflexivity | assumption].
    + discriminate.
    + discriminate.
  - unfold step_owner in Hstep. destruct (owner s).
    + injection Hstep as <-. exists left. split; [assumption|].
      cbn. apply (pending_quit _ _ _ Hpend).
    + injection Hstep as <-. exists left. split; assumption.
    + destruct (worker s) eqn:Ew; try discriminate. injection Hstep as <-.
      exists left. split; [assumption|]. cbn. rewrite Ew. exact I.
    + discriminate.
Qed.

Lemma set_producer_invariant programs s i pc pc' log' :
  producer_invariant programs s ->
  producers s !! i = Some pc ->
  (forall j, j <> i -> emplaced_by j log' = emplaced_by j (emplaced_log s)) ->
  emplaced_by i log' ++ in_flight pc' ++ todo_of pc' =
    emplaced_by i (emplaced_log s) ++ in_flight pc ++ todo_of pc ->
  forall s',
    producers s' = <[i := pc']> (producers s) -> emplaced_log s' = log' ->
    producer_invariant programs s'.
Proof.
  intros [Hlen Hall] Hi Hother Hsame s' Hp Hl. split.
  - rewrite Hp, length_insert. exact Hlen.
  - intros j pcj Hj. rewrite Hp in Hj. rewrite Hl.
    destruct (decide (i = j)) as [<- | Hne].
    + rewrite list_lookup_insert_eq in Hj by (eapply lookup_lt_Some; eassumption).
      injection Hj as <-. rewrite Hsame. apply Hall, Hi.
    + rewrite list_lookup_insert_ne in Hj by assumption.
      rewrite Hother by auto. apply Hall, Hj.
Qed.

Lemma step_producer_invariant programs a s s' :
  step cfg a s = Some s' -> producer_invariant programs s -> producer_invariant programs s'.
Proof.
  intros Hstep Hinv. destruct a as [i| |]; cbn in Hstep.
  - unfold step_producer in Hstep.
    destruct (producers s !! i) as [[[|g todo]|g todo|todo|todo]|] eqn:Ei; try discriminate.
    + destruct (queue_mutex_ s); [discriminate|]. injection Hstep as <-.
      eapply (set_producer_invariant programs s i _ (locked g todo) (emplaced_log s));
        eauto.
    + injection Hstep as <-.
      eapply (set_producer_invariant programs s i _ (emplaced todo)
                (emplaced_log s ++ [(i, g)])); eauto.
      * intros j Hne. rewrite emplaced_by_app, emplaced_by_other by auto.
        apply app_nil_r.
      * rewrite emplaced_by_app, emplaced_by_same, <- app_assoc. reflexivity.
    + injection Hstep as <-.
      eapply (set_producer_invariant programs s i _ (woke todo) (emplaced_log s)); eauto.
    + injection Hstep as <-.
      eapply (set_producer_invariant programs s i _ (outside todo) (emplaced_log s)); eauto.
  - unfold step_worker in Hstep.
    destruct (worker s) as [| | | |[|g rest]|rest| |]; try discriminate;
      try (injection Hstep as <-; exact Hinv).
    + destruct (sleeper_ready s); [|discriminate]. injection Hstep as <-. exact Hinv.
    + destruct (queue_mutex_ s); [discriminate|]. injection Hstep as <-. exact Hinv.
  - unfold step_owner in Hstep. destruct (owner s); try discriminate;
      try (injection Hstep as <-; exact Hinv).
    destruct (worker s); try discriminate. injection Hstep as <-. exact Hinv.
Qed.

Lemma run_invariants programs schedule s s' :
  run cfg schedule s = Some s' ->
  queue_invariant s /\ producer_invariant programs s ->
  queue_invariant s' /\ producer_invariant programs s'.
Proof.
  revert s. induction schedule as [|a schedule IH]; intros s Hrun [Hq Hp]; cbn in Hrun.
  - injection Hrun as <-. split; assumption.
  - destruct (step cfg a s) as [s1|] eqn:Hstep; [|discriminate].
    apply (IH s1 Hrun). split.
    + eapply step_queue_invariant; eassumption.
    + eapply step_producer_invariant; eassumption.
Qed.

(** *** The submodule tool returns or bails out *)

Lemma submodule_tool_never_throws g (w : W) :
  result_of (git_submodule.run cfg cx_ g) w <> Thrown.
Proof.
  unfold result_of, git_submodule.run, git_submodule.do_run, git_wrap.add_submodule.
  rewrite bind_unfold, run_unfold.
  destruct (negb _ && negb _); discriminate.
Qed.

(** the trace message before a tool is run changes nothing of its result *)
Lemma running_result g (w : W) :
  result_of (Cx.trace cx_ generic "git_submodule_adder: running {}"
               [git_submodule.submodule_ g] ;;
             git_submodule.run cfg cx_ g) w =
  result_of (git_submodule.run cfg cx_ g) w.
Proof.
  unfold result_of. rewrite bind_unfold. cbn.
  destruct (git_submodule.run cfg cx_ g w) as [[[| |] w1] t1]; reflexivity.
Qed.

(** no exception escapes [thread_fun], and the join returns only once
    the worker has ended *)
Definition end_invariant (s : state W) : Prop :=
  worker s <> crashed /\ (owner s = joined -> worker s = finished).

Lemma init_end_invariant programs w : end_invariant (init programs w).
Proof. split; cbn; discriminate. Qed.

Lemma step_end_invariant a s s' :
  step cfg a s = Some s' -> end_invariant s -> end_invariant s'.
Proof.
  intros Hstep [Hc Hj]. destruct a as [i| |]; cbn in Hstep.
  - unfold step_producer in Hstep.
    destruct (producers s !! i) as [[[|g todo]|g todo|todo|todo]|]; try discriminate;
      [destruct (queue_mutex_ s); [discriminate|]| | |];
      injection Hstep as <-; split; assumption.
  - assert (Ho : owner s <> joined).
    { intros Ho. specialize (Hj Ho). unfold step_worker in Hstep. rewrite Hj in Hstep.
      discriminate. }
    assert (Hj' : owner s' = owner s).
    { unfold step_worker in Hstep.
      destruct (worker s) as [| | | |[|g rest]|rest| |]; try discriminate;
        [|destruct (sleeper_ready s); [|discriminate]| |
         destruct (queue_mutex_ s); [discriminate|]| | |];
        injection Hstep as <-; reflexivity. }
    split; [|rewrite Hj'; intros E; contradiction].
    unfold step_worker in Hstep.
    destruct (worker s) as [| | | |[|g rest]|rest| |]; try discriminate.
    + injection Hstep as <-. cbn. destruct (quit_ s); discriminate.
    + destruct (sleeper_ready s); [|discriminate]. injection Hstep as <-. discriminate.
    + injection Hstep as <-. cbn. destruct (quit_ s); discriminate.
    + destruct (queue_mutex_ s); [discriminate|]. injection Hstep as <-. discriminate.
    + injection Hstep as <-. discriminate.
    + injection Hstep as <-. cbn. rewrite running_result.
      pose proof (submodule_tool_never_throws g (world s)) as Hn.
      destruct (result_of (git_submodule.run cfg cx_ g) (world s));
        [discriminate | discriminate | contradiction].
    + injection Hstep as <-. cbn. destruct (quit_ s); discriminate.
  - unfold step_owner in Hstep. destruct (owner s).
    + injection Hstep as <-. split; [assumption | discriminate].
    + injection Hstep as <-. split; [assumption | discriminate].
    + destruct (worker s) eqn:Ew; try discriminate. injection Hstep as <-.
      split; cbn; [rewrite Ew; discriminate | intros _; exact Ew].
    + discriminate.
Qed.

Lemma run_end_invariant schedule s s' :
  run cfg schedule s = Some s' -> end_invariant s -> end_invariant s'.
Proof.
  revert s. induction schedule as [|a schedule IH]; intros s Hrun Hinv; cbn in Hrun.
  - injection Hrun as <-. assumption.
  - destruct (step cfg a s) as [s1|] eqn:Hstep; [|discriminate].
    apply (IH s1 Hrun). eapply step_end_invariant; eassumption.
Qed.

(** *** Stopping always succeeds *)

Definition holds_mutex (pc : producer_pc) : bool :=
  match pc with outside _ => false | _ => true end.

(** the mutex is held by a producer inside [queue()]; once [stop()] has
    begun [quit_] is set; once it has returned a waiting worker has
    been woken *)
Definition control_invariant (s : state W) : Prop :=
  (forall i, queue_mutex_ s = Some i ->
     exists pc, producers s !! i = Some pc /\ holds_mutex pc = true) /\
  (owner s <> before_stop -> quit_ s = true) /\
  (owner s = stop_returned \/ owner s = joined ->
     worker s = at_wait -> sleeper_ready s = true).

Lemma init_control_invariant programs w : control_invariant (init programs w).
Proof.
  split; [|split]; cbn.
  - discriminate.
  - intros Hne. contradiction.
  - intros [E|E]; discriminate.
Qed.

Lemma holder_after_insert (ps : list producer_pc) (i j : nat) (pc' : producer_pc) :
  (exists pc, ps !! j = Some pc /\ holds_mutex pc = true) ->
  (i = j -> holds_mutex pc' = true) ->
  exists pc, <[i := pc']> ps !! j = Some pc /\ holds_mutex pc = true.
Proof.
  intros (pc & Hj & Hh) Hi. destruct (decide (i = j)) as [<- | Hne].
  - exists pc'. split; [|auto].
    apply list_lookup_insert_eq. eapply lookup_lt_Some; eassumption.
  - exists pc. split; [|assumption]. rewrite list_lookup_insert_ne; assumption.
Qed.

Lemma step_control_invariant a s s' :
  step cfg a s = Some s' -> control_invariant s -> control_invariant s'.
Proof.
  intros Hstep (Hmx & Hquit & Hwake). destruct a as [i| |]; cbn in Hstep.
  - unfold step_producer in Hstep.
    destruct (producers s !! i) as [[[|g todo]|g todo|todo|todo]|] eqn:Ei; try discriminate.
    + destruct (queue_mutex_ s); [discriminate|]. injection Hstep as <-.
      split; [|split]; cbn; [|assumption|assumption].
      intros j [= <-]. exists (locked g todo). split; [|reflexivity].
      apply list_lookup_insert_eq. eapply lookup_lt_Some; eassumption.
    + injection Hstep as <-. split; [|split]; cbn; [|assumption|assumption].
      intros j Hj. apply holder_after_insert; auto.
    + injection Hstep as <-. split; [|split]; cbn; [|assumption|reflexivity].
      intros j Hj. apply holder_after_insert; auto.
    + injection Hstep as <-. split; [|split]; cbn; [discriminate|assumption|assumption].
  - unfold step_worker in Hstep.
    destruct (worker s) as [| | | |[|g rest]|rest| |] eqn:Ew; try discriminate.
    + injection Hstep as <-. split; [|split]; cbn; [assumption|assumption|].
      intros Ho. destruct (quit_ s) eqn:Eq; [discriminate|]. intros _.
      assert (Hne : owner s <> before_stop) by (destruct Ho as [-> | ->]; discriminate).
      apply Hquit in Hne. congruence.
    + destruct (sleeper_ready s); [|discriminate]. injection Hstep as <-.
      split; [|split]; cbn; [assumption|assumption|]. intros _. discriminate.
    + injection Hstep as <-. split; [|split]; cbn; [assumption|assumption|].
      intros _. destruct (quit_ s); discriminate.
    + destruct (queue_mutex_ s) eqn:Em; [discriminate|]. injection Hstep as <-.
      split; [|split]; cbn; [rewrite Em; discriminate|assumption|]. intros _. discriminate.
    + injection Hstep as <-. split; [|split]; cbn; [assumption|assumption|].
      intros _. discriminate.
    + injection Hstep as <-. split; [|split]; cbn; [assumption|assumption|].
      intros _. destruct (result_of _ _); discriminate.
    + injection Hstep as <-. split; [|split]; cbn; [assumption|assumption|].
      intros _. destruct (quit_ s); discriminate.
  - unfold step_owner in Hstep. destruct (owner s) eqn:Eo.
    + injection Hstep as <-. split; [|split]; cbn; [assumption|reflexivity|].
      intros [E|E]; discriminate.
    + injection Hstep as <-. split; [|split]; cbn; [assumption| |reflexivity].
      intros _. apply Hquit. discriminate.
    + destruct (worker s) eqn:Ew; try discriminate. injection Hstep as <-.
      split; [|split]; cbn; [assumption| |].
      * intros _. apply Hquit. discriminate.
      * rewrite Ew. discriminate.
    + discriminate.
Qed.

Lemma run_control_invariant schedule s s' :
  run cfg schedule s = Some s' -> control_invariant s -> control_invariant s'.
Proof.
  revert s. induction schedule as [|a schedule IH]; intros s Hrun Hinv; cbn in Hrun.
  - injection Hrun as <-. assumption.
  - destruct (step cfg a s) as [s1|] eqn:Hstep; [|discriminate].
    apply (IH s1 Hrun). eapply step_control_invariant; eassumption.
Qed.

Lemma run_app schedule1 schedule2 s s1 :
  run cfg schedule1 s = Some s1 ->
  run cfg (schedule1 ++ schedule2) s = run cfg schedule2 s1.
Proof.
  revert s. induction schedule1 as [|a schedule1 IH]; intros s Hrun; cbn in *.
  - injection Hrun as <-. reflexivity.
  - destruct (step cfg a s) as [s'|]; [|discriminate]. apply IH, Hrun.
Qed.

(** the producer inside [queue()] gets to its unlock *)
Lemma mutex_is_released (s : state W) :
  control_invariant s ->
  exists schedule s', run cfg schedule s = Some s' /\ queue_mutex_ s' = None.
Proof.
  intros (Hmx & _ & _). destruct (queue_mutex_ s) as [i|] eqn:Em.
  2:{ exists [], s. split; [reflexivity | assumption]. }
  destruct (Hmx i eq_refl) as (pc & Hi & Hh).
  destruct pc as [todo|g todo|todo|todo]; [discriminate| | |].
  - exists [producer_step i; producer_step i; producer_step i]. eexists. split.
    + cbn. unfold step_producer at 1. rewrite Hi.
      unfold step_producer at 1. cbn.
      rewrite list_lookup_insert_eq by (eapply lookup_lt_Some; eassumption).
      unfold step_producer at 1. cbn.
      rewrite list_lookup_insert_eq
        by (rewrite length_insert; eapply lookup_lt_Some; eassumption).
      reflexivity.
    + reflexivity.
  - exists [producer_step i; producer_step i]. eexists. split.
    + cbn. unfold step_producer at 1. rewrite Hi.
      unfold step_producer at 1. cbn.
      rewrite list_lookup_insert_eq by (eapply lookup_lt_Some; eassumption).
      reflexivity.
    + reflexivity.
  - exists [producer_step i]. eexists. split.
    + cbn. unfold step_producer at 1. rewrite Hi. reflexivity.
    + reflexivity.
Qed.

(** [stop()] runs to its end *)
Lemma stop_returns (s : state W) :
  exists schedule s',
    run cfg schedule s = Some s' /\ queue_mutex_ s' = queue_mutex_ s /\
    (owner s' = stop_returned \/ owner s' = joined).
Proof.
  destruct (owner s) eqn:Eo.
  - exists [owner_step; owner_step]. eexists. split.
    + cbn. unfold step_owner at 1. rewrite Eo. reflexivity.
    + split; [reflexivity | left; reflexivity].
  - exists [owner_step]. eexists. split.
    + cbn. unfold step_owner at 1. rewrite Eo. reflexivity.
    + split; [reflexivity | left; reflexivity].
  - exists [], s. auto.
  - exists [], s. auto.
Qed.

(** once [quit_] is set the worker gets to the end of [thread_fun],
    whatever the tool it may still run does *)
Lemma worker_finishes (s : state W) :
  control_invariant s -> worker s <> crashed -> queue_mutex_ s = None ->
  owner s = stop_returned \/ owner s = joined ->
  exists schedule s',
    run cfg schedule s = Some s' /\ worker s' = finished /\ owner s' = owner s.
Proof.
  intros (_ & Hquit & Hwake) Hnc Hm Ho.
  assert (Hq : quit_ s = true).
  { apply Hquit. destruct Ho as [-> | ->]; discriminate. }
  destruct (worker s) as [| | | |[|g rest]|rest| |] eqn:Ew.
  - exists [worker_step]. eexists. split.
    + cbn. unfold step_worker. rewrite Ew, Hq. reflexivity.
    + split; reflexivity.
  - exists [worker_step; worker_step]. eexists. split.
    + cbn. unfold step_worker at 1. rewrite Ew, (Hwake Ho eq_refl).
      unfold step_worker at 1. cbn. rewrite Hq. reflexivity.
    + split; reflexivity.
  - exists [worker_step]. eexists. split.
    + cbn. unfold step_worker. rewrite Ew, Hq. reflexivity.
    + split; reflexivity.
  - destruct (queue_ s) as [|g rest] eqn:Eqs.
    + exists [worker_step; worker_step; worker_step]. eexists. split.
      * cbn. unfold step_worker at 1. rewrite Ew, Hm.
        unfold step_worker at 1. cbn. rewrite Eqs.
        unfold step_worker at 1. cbn. rewrite Hq. reflexivity.
      * split; reflexivity.
    + pose proof (submodule_tool_never_throws g (world s)) as Hn.
      rewrite <- running_result in Hn.
      destruct (result_of
                  (Cx.trace cx_ generic "git_submodule_adder: running {}"
                     [git_submodule.submodule_ g] ;;
                   git_submodule.run cfg cx_ g) (world s)) eqn:Er; [| |contradiction].
      * exists [worker_step; worker_step; worker_step; worker_step]. eexists. split.
        -- cbn. unfold step_worker at 1. rewrite Ew, Hm.
           unfold step_worker at 1. cbn. rewrite Eqs.
           unfold step_worker at 1. cbn. rewrite Er, Hq.
           unfold step_worker at 1. cbn. rewrite Hq. reflexivity.
        -- split; reflexivity.
      * exists [worker_step; worker_step]. eexists. split.
        -- cbn. unfold step_worker at 1. rewrite Ew, Hm.
           unfold step_worker at 1. cbn. rewrite Eqs. reflexivity.
        -- cbn. rewrite Er. split; reflexivity.
  - exists [worker_step; worker_step]. eexists. split.
    + cbn. unfold step_worker at 1. rewrite Ew.
      unfold step_worker at 1. cbn. rewrite Hq. reflexivity.
    + split; reflexivity.
  - pose proof (submodule_tool_never_throws g (world s)) as Hn.
    rewrite <- running_result in Hn.
    destruct (result_of
                (Cx.trace cx_ generic "git_submodule_adder: running {}"
                   [git_submodule.submodule_ g] ;;
                 git_submodule.run cfg cx_ g) (world s)) eqn:Er; [| |contradiction].
    + exists [worker_step; worker_step; worker_step]. eexists. split.
      * cbn. unfold step_worker at 1. rewrite Ew.
        unfold step_worker at 1. cbn. rewrite Er, Hq.
        unfold step_worker at 1. cbn. rewrite Hq. reflexivity.
      * split; reflexivity.
    + exists [worker_step]. eexists. split.
      * cbn. unfold step_worker at 1. rewrite Ew. reflexivity.
      * cbn. rewrite Er. split; reflexivity.
  - exists [worker_step; worker_step]. eexists. split.
    + cbn. unfold step_worker at 1. rewrite Ew, Hq.
      unfold step_worker at 1. cbn. rewrite Hq. reflexivity.
    + split; reflexivity.
  - exists [], s. auto.
  - contradiction.
Qed.

(** from wherever the threads are, [stop()] and [join()] can complete *)
Lemma stop_and_join_complete (s : state W) :
  control_invariant s -> end_invariant s ->
  exists schedule s',
    run cfg schedule s = Some s' /\ owner s' = joined /\ worker s' = finished.
Proof.
  intros Hinv Hend.
  destruct (mutex_is_released s Hinv) as (sch1 & s1 & Hrun1 & Hm1).
  destruct (stop_returns s1) as (sch2 & s2 & Hrun2 & Hm2 & Ho2).
  assert (Hinv2 : control_invariant s2).
  { eapply run_control_invariant; [exact Hrun2|].
    eapply run_control_invariant; eassumption. }
  assert (Hend2 : end_invariant s2).
  { eapply run_end_invariant; [exact Hrun2|].
    eapply run_end_invariant; eassumption. }
  destruct (worker_finishes s2 Hinv2) as (sch3 & s3 & Hrun3 & Hw3 & Ho3);
    [apply Hend2 | congruence | assumption |].
  rewrite <- Ho3 in Ho2. destruct Ho2 as [Ho | Ho].
  - exists (sch1 ++ sch2 ++ sch3 ++ [owner_step]). eexists. split.
    + rewrite (run_app _ _ _ _ Hrun1), (run_app _ _ _ _ Hrun2), (run_app _ _ _ _ Hrun3).
      cbn. unfold step_owner. rewrite Ho, Hw3. reflexivity.
    + split; [reflexivity | exact Hw3].
  - exists (sch1 ++ sch2 ++ sch3), s3. split; [|split; assumption].
    rewrite (run_app _ _ _ _ Hrun1), (run_app _ _ _ _ Hrun2). exact Hrun3.
Qed.

(** *** What is given up is never run *)

(** the tools run so far stay run *)
Lemma step_attempted_grows a (s s' : state W) :
  step cfg a s = Some s' -> exists more, attempted s' = attempted s ++ more.
Proof.
  intros Hstep. destruct a as [i| |]; cbn in Hstep.
  - unfold step_producer in Hstep.
    destruct (producers s !! i) as [[[|g todo]|g todo|todo|todo]|]; try discriminate;
      [destruct (queue_mutex_ s); [discriminate|]| | |];
      injection Hstep as <-; exists []; cbn; rewrite app_nil_r; reflexivity.
  - unfold step_worker in Hstep.
    destruct (worker s) as [| | | |[|g rest]|rest| |]; try discriminate;
      [|destruct (sleeper_ready s); [|discriminate]| |
       destruct (queue_mutex_ s); [discriminate|]| | |];
      injection Hstep as <-; cbn;
      first [exists []; rewrite app_nil_r; reflexivity | eexists; reflexivity].
  - unfold step_owner in Hstep.
    destruct (owner s); try discriminate;
      [| |destruct (worker s); try discriminate];
      injection Hstep as <-; exists []; cbn; rewrite app_nil_r; reflexivity.
Qed.

Lemma run_attempted_grows schedule (s s' : state W) :
  run cfg schedule s = Some s' -> exists more, attempted s' = attempted s ++ more.
Proof.
  revert s. induction schedule as [|a schedule IH]; intros s Hrun; cbn in Hrun.
  - injection Hrun as <-. exists []. rewrite app_nil_r. reflexivity.
  - destruct (step cfg a s) as [s1|] eqn:Hstep; [|discriminate].
    destruct (step_attempted_grows a s s1 Hstep) as [m1 E1].
    destruct (IH s1 Hrun) as [m2 E2].
    exists (m1 ++ m2). rewrite E2, E1, <- app_assoc. reflexivity.
Qed.

(** a worker that has ended stays ended and runs nothing more *)
Lemma step_finished_is_final a (s s' : state W) :
  worker s = finished -> step cfg a s = Some s' ->
  worker s' = finished /\ attempted s' = attempted s.
Proof.
  intros Ew Hstep. destruct a as [i| |]; cbn in Hstep.
  - unfold step_producer in Hstep.
    destruct (producers s !! i) as [[[|g todo]|g todo|todo|todo]|]; try discriminate;
      [destruct (queue_mutex_ s); [discriminate|]| | |];
      injection Hstep as <-; (split; [exact Ew | reflexivity]).
  - unfold step_worker in Hstep. rewrite Ew in Hstep. discriminate.
  - unfold step_owner in Hstep. rewrite Ew in Hstep.
    destruct (owner s); try discriminate;
      injection Hstep as <-; (split; [exact Ew | reflexivity]).
Qed.

Lemma run_finished_is_final schedule (s s' : state W) :
  worker s = finished -> run cfg schedule s = Some s' ->
  worker s' = finished /\ attempted s' = attempted s.
Proof.
  revert s. induction schedule as [|a schedule IH]; intros s Ew Hrun; cbn in Hrun.
  - injection Hrun as <-. split; [exact Ew | reflexivity].
  - destruct (step cfg a s) as [s1|] eqn:Hstep; [|discriminate].
    destruct (step_finished_is_final a s s1 Ew Hstep) as [Ew1 E1].
    destruct (IH s1 Ew1 Hrun) as [Ew' E']. split; [exact Ew' | congruence].
Qed.

(** how many tools the worker may still start once [quit_] is set: one
    when it is past its last look at [quit_], none otherwise *)
Definition may_still_run (pc : worker_pc) : nat :=
  match pc with at_swap | at_run (_ :: _) => 1 | _ => 0 end.

Lemma step_after_stop a (s s' : state W) :
  quit_ s = true -> step cfg a s = Some s' ->
  quit_ s' = true /\
  exists more, attempted s' = attempted s ++ more /\
    (length more + may_still_run (worker s') <= may_still_run (worker s))%nat.
Proof.
  intros Hq Hstep. destruct a as [i| |]; cbn in Hstep.
  - unfold step_producer in Hstep.
    destruct (producers s !! i) as [[[|g todo]|g todo|todo|todo]|]; try discriminate;
      [destruct (queue_mutex_ s); [discriminate|]| | |];
      injection Hstep as <-; (split; [exact Hq|]); exists []; cbn;
      rewrite app_nil_r; (split; [reflexivity | lia]).
  - unfold step_worker in Hstep.
    destruct (worker s) as [| | | |[|g rest]|rest| |] eqn:Ew; try discriminate.
    + injection Hstep as <-. split; [exact Hq|]. exists []. cbn.
      rewrite app_nil_r, Hq. split; [reflexivity | cbn; lia].
    + destruct (sleeper_ready s); [|discriminate]. injection Hstep as <-.
      split; [exact Hq|]. exists []. cbn. rewrite app_nil_r. split; [reflexivity | lia].
    + injection Hstep as <-. split; [exact Hq|]. exists []. cbn.
      rewrite app_nil_r, Hq. split; [reflexivity | cbn; lia].
    + destruct (queue_mutex_ s); [discriminate|]. injection Hstep as <-.
      split; [exact Hq|]. exists []. cbn. rewrite app_nil_r.
      split; [reflexivity | destruct (queue_ s); cbn; lia].
    + injection Hstep as <-. split; [exact Hq|]. exists []. cbn.
      rewrite app_nil_r. split; [reflexivity | lia].
    + injection Hstep as <-. split; [exact Hq|]. exists [g]. cbn.
      split; [reflexivity | destruct (result_of _ _); cbn; lia].
    + injection Hstep as <-. split; [exact Hq|]. exists []. cbn.
      rewrite app_nil_r, Hq. split; [reflexivity | cbn; lia].
  - unfold step_owner in Hstep.
    destruct (owner s); try discriminate;
      [| |destruct (worker s) eqn:Ew; try discriminate];
      injection Hstep as <-; (split; [reflexivity || exact Hq|]); exists []; cbn;
      rewrite app_nil_r; (split; [reflexivity|]); rewrite ?Ew; cbn; lia.
Qed.

Lemma run_after_stop schedule (s s' : state W) :
  quit_ s = true -> run cfg schedule s = Some s' ->
  exists more, attempted s' = attempted s ++ more /\
    (length more + may_still_run (worker s') <= may_still_run (worker s))%nat.
Proof.
  revert s. induction schedule as [|a schedule IH]; intros s Hquit Hrun; cbn in Hrun.
  - injection Hrun as <-. exists []. rewrite app_nil_r. split; [reflexivity | cbn; lia].
  - destruct (step cfg a s) as [s1|] eqn:Hstep; [|discriminate].
    destruct (step_after_stop a s s1 Hquit Hstep) as (Hq1 & m1 & E1 & L1).
    destruct (IH s1 Hq1 Hrun) as (m2 & E2 & L2).
    exists (m1 ++ m2). rewrite E2, E1, <- app_assoc. split; [reflexivity|].
    rewrite length_app. lia.
Qed.

(** a tool that bails out ends the worker, and only the worker: the
    exception is caught in [thread_fun], which returns *)
Lemma bailed_tool_ends_the_worker g rest (s : state W) :
  worker s = at_run (g :: rest) ->
  result_of (git_submodule.run cfg cx_ g) (world s) = Bailed ->
  exists s', step cfg worker_step s = Some s' /\
    worker s' = finished /\ attempted s' = attempted s ++ [g] /\
    queue_ s' = queue_ s /\ producers s' = producers s /\ owner s' = owner s.
Proof.
  intros Ew Eb. cbn. unfold step_worker. rewrite Ew. eexists. split; [reflexivity|].
  cbn. rewrite running_result, Eb. repeat split.
Qed.

(** *** Every execution ends *)

(** what a thread has left to do, counted in steps: a call of [queue()]
    is four steps of its producer, makes the worker handle one more
    request (two steps) and wakes it up once more (five steps) *)
Definition producer_weight (pc : producer_pc) : nat :=
  match pc with
  | outside todo => 11 * length todo
  | locked _ todo => 11 * length todo + 10
  | emplaced todo => 11 * length todo + 7
  | woke todo => 11 * length todo + 1
  end.

Definition owner_weight (pc : owner_pc) : nat :=
  match pc with
  | before_stop => 8
  | quit_set => 7
  | stop_returned => 1
  | joined => 0
  end.

Definition worker_weight (pc : worker_pc) : nat :=
  match pc with
  | at_wait | finished | crashed => 0
  | at_loop_test => 1
  | at_run v => 2 + 2 * length v
  | at_batch_quit_check v => 3 + 2 * length v
  | at_swap => 3
  | at_quit_check => 4
  end.

Definition measure (s : state W) : nat :=
  list_sum (map producer_weight (producers s)) + owner_weight (owner s) +
  worker_weight (worker s) + 2 * length (queue_ s) +
  (if sleeper_ready s then 5 else 0).

Lemma weight_after_insert (ps : list producer_pc) (i : nat) (pc pc' : producer_pc) :
  ps !! i = Some pc ->
  (list_sum (map producer_weight (<[i := pc']> ps)) + producer_weight pc =
   list_sum (map producer_weight ps) + producer_weight pc')%nat.
Proof.
  generalize producer_weight. intros f.
  revert i. induction ps as [|p ps IH]; intros i Hi; [discriminate|].
  destruct i as [|i].
  - injection Hi as ->. cbn. lia.
  - specialize (IH i Hi).
    change (<[S i:=pc']> (p :: ps)) with (p :: <[i:=pc']> ps).
    cbn [map list_sum fold_right] in *. unfold list_sum in *. lia.
Qed.

Lemma step_measure a (s s' : state W) :
  step cfg a s = Some s' -> (measure s' < measure s)%nat.
Proof.
  intros Hstep. unfold measure, list_sum. destruct a as [i| |]; cbn in Hstep.
  - unfold step_producer in Hstep.
    destruct (producers s !! i) as [[[|g todo]|g todo|todo|todo]|] eqn:Ei; try discriminate.
    + destruct (queue_mutex_ s); [discriminate|]. injection Hstep as <-. cbn.
      pose proof (weight_after_insert _ i _ (locked g todo) Ei) as E. unfold list_sum in E. cbn in E. lia.
    + injection Hstep as <-. cbn. rewrite length_app. cbn.
      pose proof (weight_after_insert _ i _ (emplaced todo) Ei) as E. unfold list_sum in E. cbn in E. lia.
    + injection Hstep as <-. cbn.
      pose proof (weight_after_insert _ i _ (woke todo) Ei) as E. unfold list_sum in E. cbn in E.
      destruct (sleeper_ready s); lia.
    + injection Hstep as <-. cbn.
      pose proof (weight_after_insert _ i _ (outside todo) Ei) as E. unfold list_sum in E. cbn in E. lia.
  - unfold step_worker in Hstep.
    destruct (worker s) as [| | | |[|g rest]|rest| |] eqn:Ew; try discriminate.
    + injection Hstep as <-. cbn. destruct (quit_ s); cbn; lia.
    + destruct (sleeper_ready s); [|discriminate]. injection Hstep as <-. cbn. lia.
    + injection Hstep as <-. cbn. destruct (quit_ s); cbn; lia.
    + destruct (queue_mutex_ s); [discriminate|]. injection Hstep as <-. cbn. lia.
    + injection Hstep as <-. cbn. lia.
    + injection Hstep as <-. cbn. destruct (result_of _ _); cbn; lia.
    + injection Hstep as <-. cbn. destruct (quit_ s); cbn; lia.
  - unfold step_owner in Hstep. destruct (owner s) eqn:Eo; try discriminate.
    + injection Hstep as <-. cbn. lia.
    + injection Hstep as <-. cbn. destruct (sleeper_ready s); lia.
    + destruct (worker s) eqn:Ew; try discriminate. injection Hstep as <-. cbn.
      rewrite Ew. cbn. lia.
Qed.

Lemma run_measure schedule (s s' : state W) :
  run cfg schedule s = Some s' -> (length schedule + measure s' <= measure s)%nat.
Proof.
  revert s. induction schedule as [|a schedule IH]; intros s Hrun; cbn in Hrun.
  - injection Hrun as <-. cbn. lia.
  - destruct (step cfg a s) as [s1|] eqn:Hstep; [|discriminate].
    pose proof (step_measure a s s1 Hstep). specialize (IH s1 Hrun). cbn. lia.
Qed.

Lemma init_measure programs w :
  measure (init programs w) = (11 * length (concat programs) + 9)%nat.
Proof.
  assert (E : list_sum (map producer_weight (map outside programs)) =
              (11 * length (concat programs))%nat).
  { induction programs as [|p programs IH]; [reflexivity|].
    cbn [map list_sum fold_right concat]. unfold list_sum in IH. rewrite IH, length_app.
    cbn [producer_weight]. lia. }
  unfold measure.
  cbn [init producers owner worker queue_ sleeper_ready owner_weight worker_weight length].
  rewrite E. lia.
Qed.

(** a state in which no thread can move: everything is over *)
Lemma nothing_can_move (s : state W) :
  control_invariant s -> end_invariant s ->
  (forall a, step cfg a s = None) ->
  owner s = joined /\ worker s = finished /\ all_queued s = true /\ queue_mutex_ s = None.
Proof.
  intros (Hmx & Hquit & Hwake) [Hnc Hj] Hstuck.
  assert (Hfree : queue_mutex_ s = None).
  { destruct (queue_mutex_ s) as [i|] eqn:Em; [|reflexivity].
    destruct (Hmx i eq_refl) as (pc & Hi & Hh).
    specialize (Hstuck (producer_step i)). cbn in Hstuck. unfold step_producer in Hstuck.
    rewrite Hi in Hstuck. destruct pc; discriminate. }
  assert (Ho : owner s = joined).
  { pose proof (Hstuck owner_step) as Hos. cbn in Hos. unfold step_owner in Hos.
    destruct (owner s) eqn:Eo; try discriminate; [|reflexivity].
    pose proof (Hstuck worker_step) as Hws. cbn in Hws. unfold step_worker in Hws.
    destruct (worker s) as [| | | |[|g rest]|rest| |] eqn:Ew; try discriminate.
    - rewrite (Hwake (or_introl eq_refl) eq_refl) in Hws. discriminate.
    - rewrite Hfree in Hws. discriminate.
    - contradiction. }
  split; [exact Ho|]. split; [exact (Hj Ho)|]. split; [|exact Hfree].
  unfold all_queued. apply forallb_forall. intros pc Hin.
  apply list_elem_of_In, list_elem_of_lookup in Hin as [i Hi].
  specialize (Hstuck (producer_step i)). cbn in Hstuck. unfold step_producer in Hstuck.
  rewrite Hi, ?Hfree in Hstuck. destruct pc as [[|g todo]| | |]; try discriminate.
  reflexivity.
Qed.

(** C4, amended: however the producers, the worker and the owner are
    interleaved, (1) the tools that were run are the first ones that
    entered the queue, each run once and in queue order, and what a
    producer has in the queue order is the beginning of its own calls,
    in its order; (2) no exception escapes the worker thread, and the
    join returns only when the worker has ended; (3) what was run stays
    run, and requests are given up for good: once the worker has ended
    (so after the join) nothing more is ever run, once [quit_] is set
    nothing more is run unless the worker was past its last look at
    [quit_] (then one tool at most), and a tool that bails out is the
    last one run, whatever is behind it in its batch or in the queue;
    (4) [stop()] and the join always complete: every execution is
    finite, of at most 11 steps for each request plus 9, a state in
    which no thread can move is one where the join has returned, the
    worker has ended and every [queue()] has returned, and from every
    state such a state can be reached. *)
Theorem attempted_is_a_prefix_of_the_queue_order
    (programs : list (list git_submodule.t)) (w : W)
    (schedule : list action) (s : state W)
    (Hrun : run cfg schedule (init programs w) = Some s) :
  (exists ran later,
     emplaced_log s = ran ++ later /\
     map snd ran = attempted s /\
     forall i program, programs !! i = Some program ->
       exists more, program = emplaced_by i ran ++ more) /\
  (worker s <> crashed /\ (owner s = joined -> worker s = finished)) /\
  (forall schedule' s',
     run cfg schedule' s = Some s' ->
     exists more,
       attempted s' = attempted s ++ more /\
       (worker s = finished -> more = []) /\
       (quit_ s = true ->
        match worker s with
        | at_swap | at_run (_ :: _) => (length more <= 1)%nat
        | _ => more = []
        end)) /\
  (forall g rest schedule' s',
     worker s = at_run (g :: rest) ->
     result_of (git_submodule.run cfg cx_ g) (world s) = Bailed ->
     run cfg (worker_step :: schedule') s = Some s' ->
     attempted s' = attempted s ++ [g] /\ worker s' = finished) /\
  (length schedule <= 11 * length (concat programs) + 9)%nat /\
  ((forall a, step cfg a s = None) ->
   owner s = joined /\ worker s = finished /\ all_queued s = true) /\
  (exists schedule' s',
     run cfg schedule' s = Some s' /\ owner s' = joined /\ worker s' = finished).
Proof.
  assert (Hinv : control_invariant s).
  { eapply run_control_invariant; [exact Hrun | apply init_control_invariant]. }
  assert (Hend : end_invariant s).
  { eapply run_end_invariant; [exact Hrun | apply init_end_invariant]. }
  split; [|split; [|split; [|split; [|split; [|split]]]]].
  - destruct (run_invariants programs schedule _ _ Hrun)
      as [(left & Hlog & _) [Hlen Hall]].
    { split; [apply init_queue_invariant | apply init_producer_invariant]. }
    apply map_eq_app in Hlog as (ran & later & Hsplit & Hran & _).
    exists ran, later. split; [assumption|]. split; [assumption|].
    intros i program Hi.
    assert (Hlt : (i < length (producers s))%nat).
    { rewrite Hlen. eapply lookup_lt_Some; eassumption. }
    destruct (lookup_lt_is_Some_2 _ _ Hlt) as [pc Hpc].
    specialize (Hall i pc Hpc). rewrite Hi in Hall. injection Hall as ->.
    rewrite Hsplit, emplaced_by_app, <- app_assoc. eauto.
  - apply Hend.
  - intros schedule' s' Hrun'.
    destruct (run_attempted_grows schedule' s s' Hrun') as [more E].
    exists more. split; [exact E|]. split.
    + intros Ew. destruct (run_finished_is_final schedule' s s' Ew Hrun') as [_ E'].
      rewrite E' in E. rewrite <- (app_nil_r (attempted s)) in E at 1.
      apply app_inv_head in E. symmetry. exact E.
    + intros Hq. destruct (run_after_stop schedule' s s' Hq Hrun') as (m & Em & Lm).
      rewrite Em in E. apply app_inv_head in E. subst m.
      destruct (worker s) as [| | | |[|g rest]|rest| |]; cbn in Lm;
        first [lia | destruct more; [reflexivity | cbn in Lm; lia]].
  - intros g rest schedule' s' Ew Eb Hrun'.
    destruct (bailed_tool_ends_the_worker g rest s Ew Eb)
      as (s1 & Hstep & Ew1 & E1 & _).
    change (run cfg (worker_step :: schedule') s)
      with (match step cfg worker_step s with
            | Some s2 => run cfg schedule' s2 | None => None end) in Hrun'.
    rewrite Hstep in Hrun'.
    destruct (run_finished_is_final schedule' s1 s' Ew1 Hrun') as [Ew' E'].
    split; [congruence | exact Ew'].
  - pose proof (run_measure schedule _ _ Hrun) as Hm. rewrite init_measure in Hm. lia.
  - intros Hstuck.
    destruct (nothing_can_move s Hinv Hend Hstuck) as (Ho & Ew & Hall & _). auto.
  - apply (stop_and_join_complete s Hinv Hend).
Qed.

End AdderInvariants.

(** ** Concrete schedules of the submodule adder *)

Module AdderRuns.

Import git_submodule_adder.

Definition usvfs : git_submodule.t :=
  git_submodule.make
    |> git_submodule.url "git@github.com:ModOrganizer2/usvfs.git"
    |> git_submodule.root Runs.root
    |> git_submodule.branch "master"
    |> git_submodule.submodule "usvfs".

Definition uibase : git_submodule.t :=
  git_submodule.make
    |> git_submodule.url "git@github.com:ModOrganizer2/modorganizer-uibase.git"
    |> git_submodule.root Runs.root
    |> git_submodule.branch "master"
    |> git_submodule.submodule "uibase".

(** one full call of [queue()] by producer [i] *)
Definition queue_call (i : nat) : list action :=
  [producer_step i; producer_step i; producer_step i; producer_step i].

(** [stop()] *)
Definition stop_call : list action := [owner_step; owner_step].

(** one producer queues one request and returns; only then the adder is
    stopped; the worker, which had not run yet, sees [quit_] at once *)
Definition queue_then_stop : list action := queue_call 0.
Definition stop_and_join : list action := stop_call ++ [worker_step; owner_step].

(** two producers, the worker already waiting; it takes both requests
    in one batch, runs the first, and the stop arrives meanwhile *)
Definition two_producers : list action :=
  [worker_step; producer_step 0; producer_step 0; producer_step 0;
   worker_step; producer_step 0; worker_step] ++ queue_call 1 ++
  [worker_step; worker_step].
Definition stop_during_batch : list action :=
  stop_call ++ [worker_step; worker_step; owner_step].

(** the same start, and the worker is left to finish before the stop *)
Definition drain_then_stop : list action :=
  [worker_step; worker_step; worker_step; worker_step; worker_step;
   worker_step; worker_step; worker_step] ++
  stop_call ++ [worker_step; worker_step; owner_step].

Definition start (programs : list (list git_submodule.t)) : state Sim.world :=
  init programs Sim.cloned.

End AdderRuns.

(** C4 as stated fails: a request was queued, [queue()] had returned,
    then [stop()] was called and the worker joined, and the request was
    never attempted. *)
Lemma stop_abandons_a_queued_request :
  exists s1 s2,
    git_submodule_adder.run Sim.cfg AdderRuns.queue_then_stop
      (AdderRuns.start [[AdderRuns.usvfs]]) = Some s1 /\
    git_submodule_adder.all_queued s1 = true /\
    git_submodule_adder.owner s1 = git_submodule_adder.before_stop /\
    git_submodule_adder.run Sim.cfg AdderRuns.stop_and_join s1 = Some s2 /\
    git_submodule_adder.owner s2 = git_submodule_adder.joined /\
    git_submodule_adder.emplaced_log s2 = [(0%nat, AdderRuns.usvfs)] /\
    git_submodule_adder.attempted s2 = [].
Proof.
  eexists. eexists.
  split; [vm_compute; reflexivity|].
  split; [reflexivity|]. split; [reflexivity|].
  split; [vm_compute; reflexivity|].
  repeat split.
Qed.

(** the stop arrives while the worker runs the first request of a batch
    of two: the second one is given up *)
Example stop_during_batch_in_sim :
  exists s1 s2,
    git_submodule_adder.run Sim.cfg AdderRuns.two_producers
      (AdderRuns.start [[AdderRuns.usvfs]; [AdderRuns.uibase]]) = Some s1 /\
    git_submodule_adder.all_queued s1 = true /\
    git_submodule_adder.worker s1 =
      git_submodule_adder.at_batch_quit_check [AdderRuns.uibase] /\
    git_submodule_adder.run Sim.cfg AdderRuns.stop_during_batch s1 = Some s2 /\
    git_submodule_adder.owner s2 = git_submodule_adder.joined /\
    map snd (git_submodule_adder.emplaced_log s2) = [AdderRuns.usvfs; AdderRuns.uibase] /\
    git_submodule_adder.attempted s2 = [AdderRuns.usvfs].
Proof.
  eexists. eexists.
  split; [vm_compute; reflexivity|].
  split; [reflexivity|]. split; [reflexivity|].
  split; [vm_compute; reflexivity|].
  repeat split.
Qed.

(** left alone until the queue is drained, the worker runs both, in
    queue order *)
Example drain_then_stop_in_sim :
  exists s1 s2,
    git_submodule_adder.run Sim.cfg AdderRuns.two_producers
      (AdderRuns.start [[AdderRuns.usvfs]; [AdderRuns.uibase]]) = Some s1 /\
    git_submodule_adder.run Sim.cfg AdderRuns.drain_then_stop s1 = Some s2 /\
    git_submodule_adder.owner s2 = git_submodule_adder.joined /\
    git_submodule_adder.attempted s2 = [AdderRuns.usvfs; AdderRuns.uibase].
Proof.
  eexists. eexists.
  split; [vm_compute; reflexivity|].
  split; [vm_compute; reflexivity|].
  repeat split.
Qed.

Lemma attempted_is_a_prefix_of_the_queue_order_witness :
  exists s,
    git_submodule_adder.run Sim.cfg (AdderRuns.two_producers ++ AdderRuns.stop_during_batch)
      (git_submodule_adder.init [[AdderRuns.usvfs]; [AdderRuns.uibase]] Sim.cloned) = Some s /\
    exists ran later,
      git_submodule_adder.emplaced_log s = ran ++ later /\
      map snd ran = git_submodule_adder.attempted s /\
      forall i program,
        [[AdderRuns.usvfs]; [AdderRuns.uibase]] !! i = Some program ->
        exists more, program = git_submodule_adder.emplaced_by i ran ++ more.
Proof.
  eexists. split; [vm_compute; reflexivity|].
  apply (attempted_is_a_prefix_of_the_queue_order Sim.cfg
           [[AdderRuns.usvfs]; [AdderRuns.uibase]] Sim.cloned
           (AdderRuns.two_producers ++ AdderRuns.stop_during_batch)).
  vm_compute. reflexivity.
Defined.

(** * More of the command layer *)

Section CommandShapes.

Variable cfg : config.

(** the commands that answer a question through their exit code *)
Definition is_probe (c : command) : bool :=
  match c with
  | cmd_has_remote _ _ | cmd_is_tracked _ _ | cmd_is_repo _
  | cmd_remote_branch_exists _ _ | cmd_has_uncommitted_changes _
  | cmd_has_stashed_changes _ => true
  | _ => false
  end.

(** the commands whose standard output the caller reads *)
Definition is_captured (c : command) : bool :=
  match c with
  | cmd_current_branch _ | cmd_has_uncommitted_changes _ | cmd_remote_url _ => true
  | _ => false
  end.

(** X1: Which invocations may fail and which are read: failure is allowed
    for the six probes and for nothing else (so any other git command
    that exits with an error is fatal), the output is kept for
    [current_branch], [has_uncommitted_changes] and [remote_url] only,
    and only [apply] feeds standard input, the diff it was given. *)
Theorem command_failure_and_capture_policy (c : command) :
  p_allow_failure (build cfg c) = is_probe c /\
  p_keep_in_string (build cfg c) = is_captured c /\
  p_stdin (build cfg c) =
    match c with cmd_apply _ diff => Some diff | _ => None end.
Proof.
  destruct c; try (repeat split; reflexivity).
  cbn [build]. unfold details.clone. destruct shallow; repeat split; reflexivity.
Qed.

(** the directory a command is about *)
Definition root_of (c : command) : option path :=
  match c with
  | cmd_init r | cmd_set_config r _ _ | cmd_apply r _ | cmd_fetch r _ _
  | cmd_checkout r _ | cmd_revert r _ | cmd_current_branch r
  | cmd_add_submodule r _ _ _ | cmd_pull r _ _ | cmd_has_remote r _
  | cmd_rename_remote r _ _ | cmd_add_remote r _ _ | cmd_set_remote_push r _ _
  | cmd_set_assume_unchanged r _ _ | cmd_is_tracked r _ | cmd_is_repo r
  | cmd_has_uncommitted_changes r | cmd_has_stashed_changes r
  | cmd_remote_url r | cmd_clone r _ _ _ => Some r
  | cmd_remote_branch_exists _ _ => None
  end.

(** X2: Where a command runs: every command about a working tree runs with
    that tree as its working directory, except [clone], which has no
    working directory and names the tree as its last argument;
    [remote_branch_exists] has neither. *)
Theorem command_working_directory (c : command) :
  match c with
  | cmd_clone root url _ _ =>
      p_cwd (build cfg c) = None /\
      exists args, p_args (build cfg c) = args ++ [Arg url noflags; Arg root noflags]
  | cmd_remote_branch_exists _ _ => p_cwd (build cfg c) = None
  | _ => p_cwd (build cfg c) = root_of c
  end.
Proof.
  destruct c; try reflexivity.
  cbn [build]. unfold details.clone. destruct shallow; (split; [reflexivity|]).
  - eexists [_; _; _; _; _; _]. reflexivity.
  - eexists [_; _; _; _; _]. reflexivity.
Qed.

(** X3: [clone]: [--depth 1] is passed exactly when a shallow clone is
    asked for, [--recurse-submodules] and [--branch] always, and the
    first argument is the subcommand. *)
Theorem clone_depth_iff_shallow (root : path) (url branch : string) (shallow : bool) :
  let args := p_args (details.clone cfg root url branch shallow) in
  (In (ArgKV "--depth" "1" noflags) args <-> shallow = true) /\
  In (Arg "--recurse-submodules" noflags) args /\
  In (ArgKV "--branch" branch noflags) args /\
  head args = Some (Arg "clone" noflags).
Proof.
  unfold details.clone. destruct shallow; cbn.
  - split; [split; auto|]. repeat split; auto 10.
  - split; [|repeat split; auto 10].
    split; [|discriminate].
    intros Hin. repeat (destruct Hin as [Hin|Hin]; [discriminate Hin|]). destruct Hin.
Qed.

End CommandShapes.

(** ** The stderr filter of the repository probe *)

Section RepoFilter.

Lemma starts_with_iff (s pre : string) :
  Str.starts_with s pre = true <-> exists rest, s = pre +:+ rest.
Proof.
  revert s. induction pre as [|p pre IH]; intros s.
  - split; [intros _; exists s; reflexivity | intros _; destruct s; reflexivity].
  - destruct s as [|c s]; cbn [Str.starts_with].
    + split; [discriminate | intros [rest E]; discriminate].
    + destruct (Ascii.eqb_spec c p) as [-> | Hne].
      * rewrite IH. split; intros [rest E].
        -- exists rest. rewrite E. reflexivity.
        -- exists rest. injection E as E. exact E.
      * split; [discriminate|]. intros [rest E]. injection E as E _. contradiction.
Qed.

(** [Str.contains] finds a substring wherever it is *)
Lemma contains_iff (s sub : string) :
  Str.contains s sub = true <-> exists a b, s = a +:+ sub +:+ b.
Proof.
  induction s as [|c s IH].
  - cbn [Str.contains]. destruct (Str.starts_with "" sub) eqn:E.
    + split; [|reflexivity]. intros _. apply starts_with_iff in E as [rest E].
      exists "", rest. exact E.
    + split; [discriminate|]. intros (a & b & E').
      destruct a; [|discriminate].
      assert (Str.starts_with "" sub = true) by (apply starts_with_iff; exists b; exact E').
      congruence.
  - cbn [Str.contains]. destruct (Str.starts_with (String c s) sub) eqn:E.
    + split; [|reflexivity]. intros _. apply starts_with_iff in E as [rest E].
      exists "", rest. exact E.
    + rewrite IH. split.
      * intros (a & b & ->). exists (String c a), b. reflexivity.
      * intros (a & b & E'). destruct a as [|c' a].
        -- assert (Str.starts_with (String c s) sub = true)
             by (apply starts_with_iff; exists b; exact E').
           congruence.
        -- injection E' as _ E'. exists a, b. exact E'.
Qed.

(** X4: A line of the probe's stderr is moved to the trace level exactly
    when it contains "not a git repo" somewhere; every other line keeps
    the level it had. The filter is installed on [is_repo] and on no
    other command. *)
Theorem is_repo_filter_downgrades_only_that_line (cfg : config) (line : string) (lv : level) :
  (forall a b, details.is_repo_filter (a +:+ "not a git repo" +:+ b) lv = lv_trace) /\
  ((forall a b, line <> a +:+ "not a git repo" +:+ b) ->
   details.is_repo_filter line lv = lv) /\
  (forall c, p_stderr_filter (build cfg c) =
             match c with
             | cmd_is_repo _ => Some details.is_repo_filter
             | _ => None
             end).
Proof.
  split; [|split].
  - intros a b. unfold details.is_repo_filter.
    replace (Str.contains _ _) with true; [reflexivity|].
    symmetry. apply contains_iff. exists a, b. reflexivity.
  - intros Hno. unfold details.is_repo_filter.
    destruct (Str.contains line "not a git repo") eqn:E; [|reflexivity].
    apply contains_iff in E as (a & b & E). destruct (Hno a b E).
  - intros c. destruct c; try reflexivity.
    cbn [build]. unfold details.clone. destruct shallow; reflexivity.
Qed.

End RepoFilter.

Lemma is_repo_filter_downgrades_only_that_line_witness :
  (forall a b, "clone done" <> a +:+ "not a git repo" +:+ b) /\
  details.is_repo_filter "clone done" lv_error = lv_error.
Proof.
  assert (Hno : forall a b, "clone done" <> a +:+ "not a git repo" +:+ b).
  { intros a b E.
    assert (Hc : Str.contains "clone done" "not a git repo" = true)
      by (apply contains_iff; exists a, b; exact E).
    discriminate Hc. }
  split; [exact Hno|].
  apply (is_repo_filter_downgrades_only_that_line Sim.cfg "clone done" lv_error).
  exact Hno.
Defined.

(** * What an operation may do: events, operation by operation *)

Section Only.

Context {W : Type} `{System W}.

(** every event of [m], from whatever world, satisfies [P] *)
Definition only (P : event -> Prop) {A} (m : M W A) : Prop :=
  forall w, Forall P (trace_of m w).

Lemma only_ret P {A} (a : A) : only P (ret a).
Proof. intros w. constructor. Qed.

Lemma only_throw_bailed P {A} : only P (@throw_bailed W A).
Proof. intros w. constructor. Qed.

Lemma only_throw_other P {A} : only P (@throw_other W A).
Proof. intros w. constructor. Qed.

Lemma only_emit (P : event -> Prop) e : P e -> only P (emit e).
Proof. intros He w. repeat constructor. exact He. Qed.

Lemma only_bind P {A B} (m : M W A) (f : A -> M W B) :
  only P m -> (forall a, only P (f a)) -> only P (bind m f).
Proof.
  intros Hm Hf w. unfold trace_of. rewrite bind_unfold.
  specialize (Hm w). unfold trace_of in Hm.
  destruct (m w) as [[[a| |] w1] t1]; cbn in *; [|exact Hm|exact Hm].
  apply Forall_app. split; [exact Hm | apply Hf].
Qed.

Lemma only_when P (b : bool) (m : M W unit) : only P m -> only P (when b m).
Proof. destruct b; [auto | intros _; apply only_ret]. Qed.

Lemma only_for_each P {A} (xs : list A) (body : A -> M W unit) :
  (forall x, only P (body x)) -> only P (for_each xs body).
Proof.
  intros Hb. induction xs as [|x xs IH]; cbn [for_each]; [apply only_ret|].
  apply only_bind; [apply Hb | intros _; exact IH].
Qed.

Lemma only_weaken (P Q : event -> Prop) {A} (m : M W A) :
  (forall e, P e -> Q e) -> only P m -> only Q m.
Proof. intros HPQ Hm w. eapply Forall_impl; [apply Hm | exact HPQ]. Qed.

Lemma only_fs_exists P p : only P (Proc.fs_exists p).
Proof. intros w. constructor. Qed.

Lemma only_recursive_directory_iterator P root :
  only P (Proc.recursive_directory_iterator root).
Proof. intros w. constructor. Qed.

Lemma only_run_and_join (P : event -> Prop) via p :
  (forall code out, P (Spawn via p code out)) -> only P (Proc.run_and_join via p).
Proof.
  intros Hp w. unfold trace_of. rewrite run_and_join_unfold. cbn. repeat constructor.
  apply Hp.
Qed.

Lemma only_run (P : event -> Prop) g p :
  (forall code out, P (Spawn (git_wrap.runner_ g) p code out)) ->
  only P (git_wrap.run g p).
Proof.
  intros Hp w. unfold trace_of. rewrite run_unfold. cbn. repeat constructor. apply Hp.
Qed.

Lemma only_op_delete_directory (P : event -> Prop) cx dir :
  P (DeleteDirectory cx dir) -> only P (Proc.op_delete_directory cx dir).
Proof. intros Hp w. repeat constructor. exact Hp. Qed.

End Only.

Section WrapperEvents.

Context {W : Type} `{System W}.
Variable cfg : config.

(** an event of an operation that logs to [cx] and runs, through [via],
    commands of the set [S] built by the command layer; such an
    operation deletes nothing *)
Definition runs_only (via : option basic_process_runner) (cx : context)
    (S : command -> bool) (e : event) : Prop :=
  match e with
  | Spawn v p _ _ => v = via /\ exists c, S c = true /\ p = build cfg c
  | Log c _ _ _ => c = cx
  | DeleteDirectory _ _ => False
  end.

Lemma in_processes (p : process) (t : list event) :
  In p (processes t) -> exists via code out, In (Spawn via p code out) t.
Proof.
  induction t as [|e t IH]; [intros []|].
  destruct e as [via q code out| |]; cbn.
  - intros [<- | Hin]; [eauto 6|].
    destruct (IH Hin) as (v & c & o & Ht). eauto 6.
  - intros Hin. destruct (IH Hin) as (v & c & o & Ht). eauto 6.
  - intros Hin. destruct (IH Hin) as (v & c & o & Ht). eauto 6.
Qed.

Lemma runs_only_processes via cx (S : command -> bool) (t : list event) :
  Forall (runs_only via cx S) t ->
  forall p, In p (processes t) -> exists c, S c = true /\ p = build cfg c.
Proof.
  intros Hall p Hin. destruct (in_processes p t Hin) as (v & code & out & He).
  rewrite List.Forall_forall in Hall. specialize (Hall _ He). cbn in Hall. tauto.
Qed.

Lemma runs_only_subset via cx (S S' : command -> bool) e :
  (forall c, S c = true -> S' c = true) -> runs_only via cx S e -> runs_only via cx S' e.
Proof.
  intros Hsub. destruct e as [v p code out| |]; cbn; auto.
  intros [Hv (c & Hc & Hp)]. split; [assumption|]. exists c. auto.
Qed.

End WrapperEvents.

(** find the command a process was built from *)
Ltac find_command :=
  match goal with
  | |- exists c, _ /\ details.init _ ?x0 = _ =>
      exists (cmd_init x0); split; reflexivity
  | |- exists c, _ /\ details.set_config _ ?x0 ?x1 ?x2 = _ =>
      exists (cmd_set_config x0 x1 x2); split; reflexivity
  | |- exists c, _ /\ details.apply _ ?x0 ?x1 = _ =>
      exists (cmd_apply x0 x1); split; reflexivity
  | |- exists c, _ /\ details.fetch _ ?x0 ?x1 ?x2 = _ =>
      exists (cmd_fetch x0 x1 x2); split; reflexivity
  | |- exists c, _ /\ details.checkout _ ?x0 ?x1 = _ =>
      exists (cmd_checkout x0 x1); split; reflexivity
  | |- exists c, _ /\ details.revert _ ?x0 ?x1 = _ =>
      exists (cmd_revert x0 x1); split; reflexivity
  | |- exists c, _ /\ details.current_branch _ ?x0 = _ =>
      exists (cmd_current_branch x0); split; reflexivity
  | |- exists c, _ /\ details.add_submodule _ ?x0 ?x1 ?x2 ?x3 = _ =>
      exists (cmd_add_submodule x0 x1 x2 x3); split; reflexivity
  | |- exists c, _ /\ details.clone _ ?x0 ?x1 ?x2 ?x3 = _ =>
      exists (cmd_clone x0 x1 x2 x3); split; reflexivity
  | |- exists c, _ /\ details.pull _ ?x0 ?x1 ?x2 = _ =>
      exists (cmd_pull x0 x1 x2); split; reflexivity
  | |- exists c, _ /\ details.has_remote _ ?x0 ?x1 = _ =>
      exists (cmd_has_remote x0 x1); split; reflexivity
  | |- exists c, _ /\ details.rename_remote _ ?x0 ?x1 ?x2 = _ =>
      exists (cmd_rename_remote x0 x1 x2); split; reflexivity
  | |- exists c, _ /\ details.add_remote _ ?x0 ?x1 ?x2 = _ =>
      exists (cmd_add_remote x0 x1 x2); split; reflexivity
  | |- exists c, _ /\ details.set_remote_push _ ?x0 ?x1 ?x2 = _ =>
      exists (cmd_set_remote_push x0 x1 x2); split; reflexivity
  | |- exists c, _ /\ details.set_assume_unchanged _ ?x0 ?x1 ?x2 = _ =>
      exists (cmd_set_assume_unchanged x0 x1 x2); split; reflexivity
  | |- exists c, _ /\ details.is_tracked _ ?x0 ?x1 = _ =>
      exists (cmd_is_tracked x0 x1); split; reflexivity
  | |- exists c, _ /\ details.is_repo _ ?x0 = _ =>
      exists (cmd_is_repo x0); split; reflexivity
  | |- exists c, _ /\ details.remote_branch_exists _ ?x0 ?x1 = _ =>
      exists (cmd_remote_branch_exists x0 x1); split; reflexivity
  | |- exists c, _ /\ details.has_uncommitted_changes _ ?x0 = _ =>
      exists (cmd_has_uncommitted_changes x0); split; reflexivity
  | |- exists c, _ /\ details.has_stashed_changes _ ?x0 = _ =>
      exists (cmd_has_stashed_changes x0); split; reflexivity
  | |- exists c, _ /\ details.remote_url _ ?x0 = _ =>
      exists (cmd_remote_url x0); split; reflexivity
  end.

(** go through an operation, statement by statement *)
Ltac only_step :=
  match goal with
  | |- only _ (ret _) => apply only_ret
  | |- only _ throw_bailed => apply only_throw_bailed
  | |- only _ throw_other => apply only_throw_other
  | |- only _ (bind _ _) => apply only_bind; [|intros ?]
  | |- only _ (when _ _) => apply only_when
  | |- only _ (for_each _ _) => apply only_for_each; intros ?
  | |- only _ (for_each_ts _ _) => unfold for_each_ts
  | |- only _ (Proc.fs_exists _) => apply only_fs_exists
  | |- only _ (Proc.recursive_directory_iterator _) =>
      apply only_recursive_directory_iterator
  | |- only _ (git_wrap.run _ _) =>
      apply only_run; intros ? ?; split; [reflexivity | find_command]
  | |- only _ (Proc.run_and_join _ _) =>
      apply only_run_and_join; intros ? ?; split; [reflexivity | find_command]
  | |- only _ (Cx.trace _ _ _ _) => unfold Cx.trace, Cx.log
  | |- only _ (Cx.debug _ _ _ _) => unfold Cx.debug, Cx.log
  | |- only _ (Cx.error _ _ _ _) => unfold Cx.error, Cx.log
  | |- only _ (Cx.log _ _ _ _ _) => unfold Cx.log
  | |- only _ (emit (Log _ _ _ _)) => apply only_emit; reflexivity
  | |- only _ (Cx.bail_out _ _ _ _) => unfold Cx.bail_out
  | |- only _ (git_wrap.value_or _ _) => unfold git_wrap.value_or
  | |- only _ (if ?b then _ else _) => destruct b
  | |- only _ (match ?o with Some _ => _ | None => _ end) => destruct o
  | |- only _ (let _ := _ in _) => cbv zeta
  end.

Ltac only_tac := repeat only_step.

(** * More of the git tool *)

Section GitToolEvents.

Context {W : Type} `{System W}.
Variable cfg : config.

(** what a clone may run: the clone, the configuration of credentials
    and of the remotes, and the .ts hygiene *)
Definition clone_commands (c : command) : bool :=
  match c with
  | cmd_clone _ _ _ _ | cmd_set_config _ _ _ | cmd_has_remote _ _
  | cmd_remote_url _ | cmd_rename_remote _ _ _ | cmd_set_remote_push _ _ _
  | cmd_add_remote _ _ _ | cmd_is_tracked _ _
  | cmd_set_assume_unchanged _ _ _ => true
  | _ => false
  end.

(** what a pull may run: reverting the .ts files, and the pull *)
Definition pull_commands (c : command) : bool :=
  match c with
  | cmd_is_tracked _ _ | cmd_revert _ _ | cmd_pull _ _ _ => true
  | _ => false
  end.

Lemma do_clone_events (g : git.t) :
  only (runs_only cfg (Some (git.runner g)) (git.cx_ g) clone_commands)
       (git.do_clone cfg g).
Proof.
  unfold git.do_clone, git_wrap.clone, git_wrap.set_credentials,
    git_wrap.set_origin_and_upstream_remotes, git_wrap.add_remote,
    git_wrap.rename_remote, git_wrap.set_remote_push, git_wrap.ignore_ts,
    git_wrap.git_file, git_wrap.has_remote, git_wrap.is_tracked,
    git_wrap.set_assume_unchanged, git_wrap.set_config.
  only_tac.
Qed.

Lemma do_pull_events (g : git.t) :
  only (runs_only cfg (Some (git.runner g)) (git.cx_ g) pull_commands)
       (git.do_pull cfg g).
Proof.
  unfold git.do_pull, git_wrap.revert_ts, git_wrap.pull, git_wrap.is_tracked.
  only_tac.
Qed.

Lemma do_run_events (g : git.t) :
  only (runs_only cfg (Some (git.runner g)) (git.cx_ g)
          (fun c => clone_commands c || pull_commands c))
       (git.do_run cfg g).
Proof.
  assert (Hc : only (runs_only cfg (Some (git.runner g)) (git.cx_ g)
                       (fun c => clone_commands c || pull_commands c))
                    (git.do_clone cfg g)).
  { eapply only_weaken; [|apply do_clone_events].
    intros e. apply runs_only_subset. intros c ->. reflexivity. }
  assert (Hp : only (runs_only cfg (Some (git.runner g)) (git.cx_ g)
                       (fun c => clone_commands c || pull_commands c))
                    (git.do_pull cfg g)).
  { eapply only_weaken; [|apply do_pull_events].
    intros e. apply runs_only_subset. intros c ->. apply orb_true_r. }
  unfold git.do_run. apply only_bind; [only_tac|]. intros _.
  destruct (git.op_ g); only_tac; assumption.
Qed.

(** X5: Whatever the operation, the configuration and the world, all that
    [git::do_run] does to the outside is: log to the context of its
    task, and run, through its own runner ("git"), invocations built by
    the command layer, so the configured git binary with the prompts
    disabled. It never deletes a directory, and of the commands of the
    layer it runs none of init, apply, fetch, checkout, branch,
    submodule, ls-remote, status or stash. *)
Theorem git_tool_runs_only_its_own_commands (g : git.t) (w : W) :
  Forall (fun e =>
            match e with
            | Spawn via p _ _ =>
                via = Some {| runner_name := "git"; runner_cx := git.cx_ g |} /\
                p_binary p = conf_tool_git cfg /\
                p_env p !! "GCM_INTERACTIVE" = Some "never" /\
                p_env p !! "GIT_TERMINAL_PROMPT" = Some "0" /\
                exists c, p = build cfg c /\
                          (clone_commands c = true \/ pull_commands c = true)
            | Log cx _ _ _ => cx = git.cx_ g
            | DeleteDirectory _ _ => False
            end)
         (trace_of (git.do_run cfg g) w).
Proof.
  eapply Forall_impl; [apply do_run_events|].
  intros [via p code out| |]; cbn; auto.
  intros [-> (c & Hc & ->)]. split; [reflexivity|].
  destruct (env_make_process cfg) as [E1 E2].
  rewrite env_build. repeat split; try assumption.
  - destruct c; try reflexivity. cbn. destruct shallow; reflexivity.
  - exists c. split; [reflexivity|]. apply orb_true_iff. exact Hc.
Qed.

End GitToolEvents.

Section GitToolPaths.

Context {W : Type} `{System W}.
Variable cfg : config.

(** X6: An operation value outside the enumeration is refused: [do_run]
    bails out without having spawned a process or changed the world,
    whether or not url and root are set. *)
Theorem do_run_unknown_operation (g : git.t) (w : W) (n : Z)
    (Hop : git.op_ g = git.other n) :
  result_of (git.do_run cfg g) w = Bailed /\
  world_of (git.do_run cfg g) w = w /\
  processes (trace_of (git.do_run cfg g) w) = [] /\
  exists msg, trace_of (git.do_run cfg g) w = [Log (git.cx_ g) lv_error generic msg].
Proof.
  unfold result_of, world_of, trace_of, git.do_run. rewrite Hop.
  destruct (Str.empty (git.url_ g) || Str.empty (git.root_ g));
    repeat split; eexists; reflexivity.
Qed.

Definition the_clone (g : git.t) : process :=
  details.clone cfg (git.root_ g) (git.url_ g) (git.branch_ g) (git.shallow_ g).

(** X7: The pull operation: without the revert of .ts files it is the one
    [git pull] of the url and branch in the root, fatal when git fails;
    with it, a pull that succeeds ended with that same [git pull], and
    whatever went wrong before it (a revert git refused, a walk that
    failed) prevented it and is how the operation ends. *)
Theorem do_pull_ends_with_the_pull (g : git.t) (w : W) :
  (git.revert_ts_ g = false ->
   git.do_pull cfg g w =
     (if exit_code (the_pull cfg g) w =? 0 then Ok tt else Bailed,
      after (the_pull cfg g) w,
      [Spawn (Some (git.runner g)) (the_pull cfg g)
         (exit_code (the_pull cfg g) w) (output (the_pull cfg g) w)])) /\
  (result_of (git.do_pull cfg g) w = Ok tt ->
   exists t out,
     trace_of (git.do_pull cfg g) w =
       t ++ [Spawn (Some (git.runner g)) (the_pull cfg g) 0 out]) /\
  (result_of
     (when (git.revert_ts_ g)
        (git_wrap.revert_ts cfg (git_wrap.make (git.root_ g) (Some (git.runner g))))) w
     <> Ok tt ->
   result_of (git.do_pull cfg g) w =
     result_of
       (when (git.revert_ts_ g)
          (git_wrap.revert_ts cfg (git_wrap.make (git.root_ g) (Some (git.runner g))))) w /\
   ~ In (the_pull cfg g) (processes (trace_of (git.do_pull cfg g) w))).
Proof.
  split; [|split].
  - intros Hrev. unfold git.do_pull. rewrite Hrev. cbn [when].
    rewrite bind_ret_l, pull_unfold.
    destruct (exit_code (the_pull cfg g) w =? 0); reflexivity.
  - unfold result_of, trace_of, git.do_pull. rewrite bind_unfold.
    destruct (when _ _ w) as [[[[]| |] w1] t1]; cbn [fst snd];
      [|discriminate|discriminate].
    rewrite pull_unfold. cbn [fst snd].
    destruct (Z.eqb_spec (exit_code (the_pull cfg g) w1) 0) as [E|E]; [|discriminate].
    intros _. rewrite E. eauto.
  - intros Hb. unfold result_of, trace_of, git.do_pull in *. rewrite bind_unfold.
    assert (Hsame : fst (fst (when (git.revert_ts_ g)
                               (git_wrap.revert_ts cfg
                                  (git_wrap.make (git.root_ g) (Some (git.runner g)))) w))
                    <> Ok tt) by exact Hb.
    clear Hb.
    destruct (when _ _ w) as [[[[]| |] w1] t1] eqn:Ew; cbn [fst snd] in *;
      [contradiction| |];
      (split; [reflexivity|]).
    all: pose proof (only_when
                  (runs_only cfg (Some (git.runner g)) (git.cx_ g)
                     (fun c => match c with cmd_pull _ _ _ => false | _ => pull_commands c end))
                  (git.revert_ts_ g)
                  (git_wrap.revert_ts cfg
                     (git_wrap.make (git.root_ g) (Some (git.runner g))))) as Hr.
    all: assert (Hrev : only
                     (runs_only cfg (Some (git.runner g)) (git.cx_ g)
                        (fun c => match c with cmd_pull _ _ _ => false | _ => pull_commands c end))
                     (git_wrap.revert_ts cfg
                        (git_wrap.make (git.root_ g) (Some (git.runner g)))))
      by (unfold git_wrap.revert_ts, git_wrap.is_tracked; only_tac).
    all: specialize (Hr Hrev w); unfold trace_of in Hr; rewrite Ew in Hr; cbn in Hr.
    all: intros Hin.
    all: destruct (runs_only_processes cfg _ _ _ _ Hr _ Hin) as (c & Hc & Hp).
    all: apply (f_equal first_word) in Hp.
    all: destruct c; try discriminate Hc; discriminate Hp.
Qed.

End GitToolPaths.

Section FreshClone.

Context {W : Type} `{System W}.
Variable cfg : config.

Lemma bind_never_false {A} (m : M W A) (f : A -> M W bool) (w : W) :
  (forall a w', result_of (f a) w' <> Ok false) ->
  result_of (bind m f) w <> Ok false.
Proof.
  intros Hf. unfold result_of. rewrite bind_unfold.
  destruct (m w) as [[[a| |] w1] t1]; cbn; [apply Hf | discriminate | discriminate].
Qed.

Lemma do_clone_unfold_fresh (g : git.t) (w : W) :
  sys_exists (Path.append (git.root_ g) ".git") w = false ->
  git.do_clone cfg g w =
    bind (git_wrap.clone cfg (git_wrap.make (git.root_ g) (Some (git.runner g)))
            (git.url_ g) (git.branch_ g) (git.shallow_ g))
         (fun _ =>
            let wr := git_wrap.make (git.root_ g) (Some (git.runner g)) in
            when (negb (Str.empty (git.creds_username_ g)) ||
                  negb (Str.empty (git.creds_email_ g)))
                 (git_wrap.set_credentials cfg wr (git.creds_username_ g)
                    (git.creds_email_ g)) ;;
            when (negb (Str.empty (git.remote_org_ g)))
                 (git_wrap.set_origin_and_upstream_remotes cfg wr (git.remote_org_ g)
                    (git.remote_key_ g) (git.no_push_upstream_ g)
                    (git.push_default_origin_ g)) ;;
            when (git.ignore_ts_ g) (git_wrap.ignore_ts cfg wr true) ;;
            ret true) w.
Proof.
  intros E. unfold git.do_clone. unfold bind at 1. unfold Proc.fs_exists. rewrite E.
  cbv zeta. destruct (bind _ _ w) as [[r w'] t]. reflexivity.
Qed.

Lemma clone_unfold (g : git.t) (w : W) :
  git_wrap.clone cfg (git_wrap.make (git.root_ g) (Some (git.runner g)))
    (git.url_ g) (git.branch_ g) (git.shallow_ g) w =
  (if negb (exit_code (the_clone cfg g) w =? 0) then Bailed else Ok tt,
   after (the_clone cfg g) w,
   [Spawn (Some (git.runner g)) (the_clone cfg g)
      (exit_code (the_clone cfg g) w) (output (the_clone cfg g) w)]).
Proof.
  assert (Hstrict : p_allow_failure (the_clone cfg g) = false)
    by (unfold the_clone, details.clone; destruct (git.shallow_ g); reflexivity).
  unfold git_wrap.clone, bind. rewrite run_unfold.
  cbn [git_wrap.make git_wrap.runner_ git_wrap.root_]. fold (the_clone cfg g).
  rewrite Hstrict. cbn [negb]. rewrite andb_true_r.
  destruct (negb _); reflexivity.
Qed.

Lemma do_clone_fresh_not_false (g : git.t) (w : W) :
  sys_exists (Path.append (git.root_ g) ".git") w = false ->
  result_of (git.do_clone cfg g) w <> Ok false.
Proof.
  intros Hfresh. unfold result_of. rewrite (do_clone_unfold_fresh g w Hfresh).
  apply bind_never_false. intros _ w1. cbv zeta.
  repeat (apply bind_never_false; intros _ ?). discriminate.
Qed.

(** X8: The clone step on a root without the .git marker: the first thing
    it does is the [git clone] of the url and branch into the root, it
    never answers "not cloned", and a clone that fails is fatal at once:
    nothing is configured after it. With no credentials, no remote
    organisation and no .ts handling configured, the clone is all it
    runs. *)
Theorem do_clone_clones_first (g : git.t) (w : W)
    (Hfresh : sys_exists (Path.append (git.root_ g) ".git") w = false) :
  head (processes (trace_of (git.do_clone cfg g) w)) = Some (the_clone cfg g) /\
  result_of (git.do_clone cfg g) w <> Ok false /\
  (exit_code (the_clone cfg g) w <> 0 ->
   result_of (git.do_clone cfg g) w = Bailed /\
   world_of (git.do_clone cfg g) w = after (the_clone cfg g) w /\
   processes (trace_of (git.do_clone cfg g) w) = [the_clone cfg g]) /\
  (git.creds_username_ g = "" -> git.creds_email_ g = "" ->
   git.remote_org_ g = "" -> git.ignore_ts_ g = false ->
   processes (trace_of (git.do_clone cfg g) w) = [the_clone cfg g]).
Proof.
  pose proof (do_clone_fresh_not_false g w Hfresh) as Hnf.
  unfold result_of, world_of, trace_of in *.
  rewrite (do_clone_unfold_fresh g w Hfresh) in *.
  split; [|split; [|split]].
  - rewrite bind_unfold, clone_unfold.
    destruct (negb (exit_code (the_clone cfg g) w =? 0)); reflexivity.
  - exact Hnf.
  - intros Hfail. apply Z.eqb_neq in Hfail.
    rewrite bind_unfold, clone_unfold, Hfail.
    repeat split.
  - intros -> -> -> ->. rewrite bind_unfold, clone_unfold.
    destruct (negb (exit_code (the_clone cfg g) w =? 0)); reflexivity.
Qed.

(** X9: clone_or_pull does one or the other: when the .git marker is there
    it runs no [git clone], and when it is not it runs no [git pull],
    not even after the clone it has just made. *)
Theorem clone_or_pull_never_does_both (g : git.t) (w : W)
    (Hop : git.op_ g = git.clone_or_pull) :
  let ran := processes (trace_of (git.do_run cfg g) w) in
  (sys_exists (Path.append (git.root_ g) ".git") w = true ->
   forall p, In p ran -> first_word p <> "clone") /\
  (sys_exists (Path.append (git.root_ g) ".git") w = false ->
   forall p, In p ran -> first_word p <> "pull").
Proof.
  intros ran. subst ran. unfold trace_of, git.do_run. rewrite Hop.
  destruct (Str.empty (git.url_ g) || Str.empty (git.root_ g)) eqn:Eparams.
  { cbn. split; intros _ p []. }
  cbn [when]. rewrite bind_ret_l.
  split; intros Hmarker p Hin.
  - rewrite bind_unfold, (do_clone_marker_exists cfg g w Hmarker) in Hin.
    cbn [fst snd negb when app] in Hin.
    unfold processes in Hin. cbn [omap spawned] in Hin. fold (processes (snd (git.do_pull cfg g w))) in Hin.
    destruct (runs_only_processes cfg _ _ _ _ (do_pull_events cfg g w) _ Hin)
      as (c & Hc & ->).
    destruct c; try discriminate Hc; discriminate.
  - pose proof (do_clone_fresh_not_false g w Hmarker) as Hnf.
    pose proof (do_clone_events cfg g w) as Hev.
    unfold result_of in Hnf. unfold trace_of in Hev.
    rewrite bind_unfold in Hin.
    destruct (git.do_clone cfg g w) as [[[[|]| |] w1] t1]; cbn [fst snd negb when] in *.
    + rewrite app_nil_r in Hin.
      destruct (runs_only_processes cfg _ _ _ _ Hev _ Hin) as (c & Hc & ->).
      destruct c; try discriminate Hc; try discriminate.
      cbn. unfold details.clone. destruct shallow; discriminate.
    + contradiction.
    + destruct (runs_only_processes cfg _ _ _ _ Hev _ Hin) as (c & Hc & ->).
      destruct c; try discriminate Hc; try discriminate.
      cbn. unfold details.clone. destruct shallow; discriminate.
    + destruct (runs_only_processes cfg _ _ _ _ Hev _ Hin) as (c & Hc & ->).
      destruct c; try discriminate Hc; try discriminate.
      cbn. unfold details.clone. destruct shallow; discriminate.
Qed.

End FreshClone.

Lemma do_run_unknown_operation_witness :
  git.op_ (Runs.tool (git.other 7)) = git.other 7 /\
  result_of (git.do_run Sim.cfg (Runs.tool (git.other 7))) Sim.cloned = Bailed.
Proof.
  split; [reflexivity|].
  apply (do_run_unknown_operation Sim.cfg (Runs.tool (git.other 7)) Sim.cloned 7).
  reflexivity.
Defined.

Lemma do_clone_clones_first_witness :
  sys_exists (Path.append (git.root_ (Runs.tool git.clone)) ".git") Sim.absent = false /\
  head (processes (trace_of (git.do_clone Sim.cfg (Runs.tool git.clone)) Sim.absent)) =
    Some (the_clone Sim.cfg (Runs.tool git.clone)).
Proof.
  split; [reflexivity|].
  apply (do_clone_clones_first Sim.cfg (Runs.tool git.clone) Sim.absent).
  reflexivity.
Defined.

Lemma clone_or_pull_never_does_both_witness :
  git.op_ (Runs.tool git.clone_or_pull) = git.clone_or_pull /\
  (sys_exists (Path.append (git.root_ (Runs.tool git.clone_or_pull)) ".git") Sim.absent = false ->
   forall p,
     In p (processes (trace_of (git.do_run Sim.cfg (Runs.tool git.clone_or_pull)) Sim.absent)) ->
     first_word p <> "pull").
Proof.
  split; [reflexivity|].
  apply (clone_or_pull_never_does_both Sim.cfg (Runs.tool git.clone_or_pull) Sim.absent).
  reflexivity.
Defined.

(** * More of the repository wrapper *)

Section WrapperProbes.

Context {W : Type} `{System W}.
Variable cfg : config.

(** X10: The yes/no questions of the wrapper never bail out: each runs its
    one probe, whatever git answers, and says yes exactly when the exit
    code is 0. [remote_branch_exists] runs directly, not through the
    runner of the wrapper, and in no working directory. *)
Theorem yes_no_probes_never_bail (g : git_wrap.t) (file : path)
    (name url branch : string) (w : W) :
  let answer p via := (Ok (exit_code p w =? 0), after p w,
                       [Spawn via p (exit_code p w) (output p w)]) in
  git_wrap.is_git_repo cfg g w =
    answer (details.is_repo cfg (git_wrap.root_ g)) (git_wrap.runner_ g) /\
  git_wrap.is_tracked cfg g file w =
    answer (details.is_tracked cfg (git_wrap.root_ g) file) (git_wrap.runner_ g) /\
  git_wrap.has_remote cfg g name w =
    answer (details.has_remote cfg (git_wrap.root_ g) name) (git_wrap.runner_ g) /\
  git_wrap.has_stashed_changes cfg g w =
    answer (details.has_stashed_changes cfg (git_wrap.root_ g)) (git_wrap.runner_ g) /\
  git_wrap.remote_branch_exists cfg url branch w =
    answer (details.remote_branch_exists cfg url branch) None.
Proof.
  intros answer. subst answer. cbv beta.
  split; [apply is_git_repo_unfold|].
  split; [apply is_tracked_unfold|].
  split; [apply has_remote_unfold|].
  split; [apply has_stashed_changes_unfold|].
  unfold git_wrap.remote_branch_exists, bind. rewrite run_and_join_unfold.
  replace (p_allow_failure (details.remote_branch_exists cfg url branch))
    with true by reflexivity.
  rewrite andb_false_r. reflexivity.
Qed.

Lemma set_config_unfold (g : git_wrap.t) (key value : string) (w : W) :
  let p := details.set_config cfg (git_wrap.root_ g) key value in
  git_wrap.set_config cfg g key value w =
    (if exit_code p w =? 0 then Ok tt else Bailed, after p w,
     [Spawn (git_wrap.runner_ g) p (exit_code p w) (output p w)]).
Proof.
  intros p. unfold git_wrap.set_config, bind. rewrite run_unfold. fold p.
  replace (p_allow_failure p) with false by reflexivity.
  rewrite andb_true_r. destruct (exit_code p w =? 0); reflexivity.
Qed.

(** X11: [set_credentials] sets what it is given and nothing else: it runs
    [git config user.name] only for a name that is not empty and
    [git config user.email] only for an email that is not empty, the
    name first; with both empty it runs nothing (and cannot fail). *)
Theorem set_credentials_sets_what_is_given (g : git_wrap.t)
    (username email : string) (w : W) :
  let run := git_wrap.set_credentials cfg g username email in
  let name_p := details.set_config cfg (git_wrap.root_ g) "user.name" username in
  let email_p := details.set_config cfg (git_wrap.root_ g) "user.email" email in
  (result_of run w = Ok tt ->
   processes (trace_of run w) =
     (if Str.empty username then [] else [name_p]) ++
     (if Str.empty email then [] else [email_p])) /\
  (forall p, In p (processes (trace_of run w)) ->
     (p = name_p /\ username <> "") \/ (p = email_p /\ email <> "")) /\
  (username = "" -> email = "" ->
   result_of run w = Ok tt /\ processes (trace_of run w) = [] /\ world_of run w = w).
Proof.
  intros run name_p email_p. subst run.
  unfold result_of, world_of, trace_of, git_wrap.set_credentials.
  rewrite bind_unfold. unfold Cx.debug, Cx.log, emit. cbn [fst snd].
  destruct username as [|c username]; destruct email as [|d email]; cbn [Str.empty negb when].
  - rewrite !bind_ret_l. cbn. repeat split; auto. intros p [].
  - rewrite bind_ret_l.
    pose proof (set_config_unfold g "user.email" (String d email) w) as E.
    cbv zeta in E. rewrite E. fold email_p. cbn [fst snd app].
    repeat split; try discriminate.
    intros p [<- | []]. right. split; [reflexivity | discriminate].
  - rewrite bind_unfold.
    pose proof (set_config_unfold g "user.name" (String c username) w) as E.
    cbv zeta in E. rewrite E. fold name_p. cbn [fst snd].
    destruct (exit_code name_p w =? 0); cbn [fst snd ret app].
    + repeat split; try discriminate.
      intros p [<- | []]. left. split; [reflexivity | discriminate].
    + repeat split; try discriminate.
      intros p [<- | []]. left. split; [reflexivity | discriminate].
  - rewrite bind_unfold.
    pose proof (set_config_unfold g "user.name" (String c username) w) as E.
    cbv zeta in E. rewrite E. fold name_p. cbn [fst snd].
    destruct (exit_code name_p w =? 0); cbn [fst snd app].
    + pose proof (set_config_unfold g "user.email" (String d email) (after name_p w)) as E'.
      cbv zeta in E'. rewrite E'. fold email_p. cbn [fst snd app].
      repeat split; try discriminate.
      intros p [<- | [<- | []]];
        [left | right]; (split; [reflexivity | discriminate]).
    + repeat split; try discriminate.
      intros p [<- | []]. left. split; [reflexivity | discriminate].
Qed.

End WrapperProbes.

Section AddRemote.

Context {W : Type} `{System W}.
Variable cfg : config.

Lemma git_file_processes (g : git_wrap.t) (w : W) :
  processes (trace_of (git_wrap.git_file cfg g) w) =
    [details.remote_url cfg (git_wrap.root_ g)].
Proof.
  unfold trace_of. pose proof (git_file_unfold cfg g w) as E. cbv zeta in E. rewrite E.
  destruct (negb _); [reflexivity|].
  destruct (Str.find_last_of _ _); [|reflexivity].
  destruct (Str.empty _); reflexivity.
Qed.

(** X12: [add_remote], once the git file of origin has been looked up (the
    lookup is made even when a git file is given): a remote that exists
    is left alone, the call runs nothing more than the question; a
    remote that does not exist is added with the url [make_url] makes
    of the user name and the git file (the one given, else the one
    looked up) with the pattern given, whatever [std::format] makes of
    that pattern, then made the default for push only if asked, then
    given the key file only for a key that is not empty. *)
Theorem add_remote_adds_only_a_missing_remote (g : git_wrap.t)
    (remote_name username key : string) (push_default : bool)
    (url_pattern : option details.git_url_pattern_format_string)
    (opt_git_file : option string) (w : W) (looked_up : string)
    (Hlookup : result_of (git_wrap.git_file cfg g) w = Ok looked_up) :
  let root := git_wrap.root_ g in
  let run := git_wrap.add_remote cfg g remote_name username key push_default
               url_pattern opt_git_file in
  let w1 := world_of (git_wrap.git_file cfg g) w in
  let asked := [details.remote_url cfg root; details.has_remote cfg root remote_name] in
  let url := details.make_url username (default looked_up opt_git_file) url_pattern in
  (exit_code (details.has_remote cfg root remote_name) w1 = 0 ->
   result_of run w = Ok tt /\
   processes (trace_of run w) = asked /\
   world_of run w = after (details.has_remote cfg root remote_name) w1) /\
  (exit_code (details.has_remote cfg root remote_name) w1 <> 0 ->
   result_of run w = Ok tt ->
   processes (trace_of run w) =
     asked ++ [details.add_remote cfg root remote_name url] ++
     (if push_default
      then [details.set_config cfg root "remote.pushdefault" remote_name] else []) ++
     (if Str.empty key then []
      else [details.set_config cfg root
              ("remote." +:+ remote_name +:+ ".puttykeyfile") key])).
Proof.
  intros root run w1 asked url. subst run asked.
  pose proof (git_file_processes g w) as Hgp.
  unfold result_of, world_of, trace_of in *. unfold git_wrap.add_remote.
  rewrite bind_unfold, value_or_unfold.
  destruct (git_wrap.git_file cfg g w) as [[[gf| |] wa] ta] eqn:Egf;
    [|discriminate|discriminate].
  cbn [fst snd] in *. injection Hlookup as ->. subst w1. fold url.
  rewrite bind_unfold.
  pose proof (has_remote_unfold cfg g remote_name wa) as E. cbv zeta in E.
  rewrite E. clear E. fold root. cbn [fst snd].
  set (hr := details.has_remote cfg root remote_name).
  split.
  - intros Hex. rewrite Hex. cbn. rewrite !processes_app, Hgp. repeat split.
  - intros Hex. apply Z.eqb_neq in Hex. rewrite Hex. cbn [negb].
    rewrite bind_unfold, run_unfold. fold root.
    set (ar := details.add_remote cfg root remote_name url).
    replace (p_allow_failure ar) with false by reflexivity. rewrite andb_true_r.
    destruct (exit_code ar (after hr wa) =? 0); cbn [negb fst snd]; [|discriminate].
    rewrite bind_unfold.
    destruct push_default; cbn [when].
    + pose proof (set_config_unfold cfg g "remote.pushdefault" remote_name
                    (after ar (after hr wa))) as E.
      cbv zeta in E. rewrite E. clear E. fold root. cbn [fst snd].
      set (pd := details.set_config cfg root "remote.pushdefault" remote_name).
      destruct (exit_code pd _ =? 0); cbn [fst snd]; [|discriminate].
      destruct key as [|k key]; cbn [Str.empty negb when].
      * intros _. cbn. rewrite !processes_app, Hgp. reflexivity.
      * pose proof (set_config_unfold cfg g
                      ("remote." +:+ remote_name +:+ ".puttykeyfile") (String k key)
                      (after pd (after ar (after hr wa)))) as E.
        cbv zeta in E. rewrite E. clear E. fold root.
        set (kf := details.set_config cfg root
                     ("remote." +:+ remote_name +:+ ".puttykeyfile") (String k key)).
        destruct (exit_code kf _ =? 0); cbn [fst snd]; [|discriminate].
        intros _. rewrite !processes_app, Hgp. reflexivity.
    + cbn [ret fst snd].
      destruct key as [|k key]; cbn [Str.empty negb when].
      * intros _. cbn. rewrite !processes_app, Hgp. reflexivity.
      * pose proof (set_config_unfold cfg g
                      ("remote." +:+ remote_name +:+ ".puttykeyfile") (String k key)
                      (after ar (after hr wa))) as E.
        cbv zeta in E. rewrite E. clear E. fold root.
        set (kf := details.set_config cfg root
                     ("remote." +:+ remote_name +:+ ".puttykeyfile") (String k key)).
        destruct (exit_code kf _ =? 0); cbn [fst snd]; [|discriminate].
        intros _. rewrite !processes_app, Hgp. reflexivity.
Qed.

End AddRemote.

Lemma add_remote_adds_only_a_missing_remote_witness :
  result_of (git_wrap.git_file Sim.cfg RemoteRuns.g) Sim.cloned = Ok "modorganizer.git" /\
  (exit_code (details.has_remote Sim.cfg Runs.root "origin")
     (world_of (git_wrap.git_file Sim.cfg RemoteRuns.g) Sim.cloned) = 0 ->
   result_of (git_wrap.add_remote Sim.cfg RemoteRuns.g "origin" "me" "" true None None)
     Sim.cloned = Ok tt /\
   processes (trace_of (git_wrap.add_remote Sim.cfg RemoteRuns.g "origin" "me" "" true
                          None None) Sim.cloned) =
     [details.remote_url Sim.cfg Runs.root; details.has_remote Sim.cfg Runs.root "origin"] /\
   world_of (git_wrap.add_remote Sim.cfg RemoteRuns.g "origin" "me" "" true None None)
     Sim.cloned =
     after (details.has_remote Sim.cfg Runs.root "origin")
       (world_of (git_wrap.git_file Sim.cfg RemoteRuns.g) Sim.cloned)).
Proof.
  split; [reflexivity|].
  apply (add_remote_adds_only_a_missing_remote Sim.cfg RemoteRuns.g "origin" "me" "" true
           None None Sim.cloned "modorganizer.git").
  reflexivity.
Defined.

(** a fork is added next to origin: its url is made from the user and
    the git file of origin, and it becomes the default for push *)
Example add_remote_fork_in_sim :
  let run := git_wrap.add_remote Sim.cfg RemoteRuns.g "fork" "me" "" true None None in
  result_of run Sim.cloned = Ok tt /\
  Sim.remotes_of (world_of run Sim.cloned) =
    [("origin", Sim.mo_url); ("fork", "git@github.com:me/modorganizer.git")] /\
  Runs.summary (trace_of run Sim.cloned) =
    [ ["remote"; "get-url"; "origin"];
      ["config"; "remote.fork.url"];
      ["remote"; "add"; "fork"; "git@github.com:me/modorganizer.git"];
      ["config"; "remote.pushdefault"; "fork"] ].
Proof. vm_compute. repeat split; reflexivity. Qed.

Section UpstreamInPlace.

Context {W : Type} `{System W}.
Variable cfg : config.

(** X13: With a remote named upstream in place [set_origin_and_upstream_remotes]
    is a no-op, whatever organisation, key and flags it is given: it
    asks the one question, says that the remote exists, and returns;
    neither the origin url is looked up nor a remote renamed or added. *)
Theorem upstream_in_place_makes_a_noop (g : git_wrap.t) (org key : string)
    (no_push_upstream push_default_origin : bool) (w : W)
    (Hup : exit_code (details.has_remote cfg (git_wrap.root_ g) "upstream") w = 0) :
  let run := git_wrap.set_origin_and_upstream_remotes cfg g org key no_push_upstream
               push_default_origin in
  let asked := details.has_remote cfg (git_wrap.root_ g) "upstream" in
  result_of run w = Ok tt /\
  processes (trace_of run w) = [asked] /\
  world_of run w = after asked w /\
  last (trace_of run w) =
    Some (Log (git_wrap.cx g) lv_trace generic "upstream remote already exists").
Proof.
  intros run asked. subst run asked. unfold result_of, world_of, trace_of.
  pose proof (set_origin_and_upstream_remotes_noop cfg g org key no_push_upstream
                push_default_origin w) as E.
  cbv zeta in E. rewrite (E Hup). repeat split.
Qed.

End UpstreamInPlace.

Lemma upstream_in_place_makes_a_noop_witness :
  exit_code (details.has_remote Sim.cfg Runs.root "upstream") RemoteRuns.renamed = 0 /\
  result_of (git_wrap.set_origin_and_upstream_remotes Sim.cfg RemoteRuns.g "me" "" true true)
    RemoteRuns.renamed = Ok tt /\
  world_of (git_wrap.set_origin_and_upstream_remotes Sim.cfg RemoteRuns.g "me" "" true true)
    RemoteRuns.renamed = RemoteRuns.renamed.
Proof.
  assert (Hup : exit_code (details.has_remote Sim.cfg Runs.root "upstream")
                  RemoteRuns.renamed = 0) by reflexivity.
  split; [exact Hup|].
  destruct (upstream_in_place_makes_a_noop Sim.cfg RemoteRuns.g "me" "" true true
              RemoteRuns.renamed Hup) as (Hres & _ & Hworld & _).
  split; [exact Hres | rewrite Hworld; reflexivity].
Defined.

(** ** The url of a remote and its git file *)

Section UrlRoundTrip.

Lemma append_nil_r (s : string) : s +:+ "" = s.
Proof. induction s as [|c s IH]; [reflexivity|]. rewrite append_cons, IH. reflexivity. Qed.

Lemma append_assoc (a b c : string) : (a +:+ b) +:+ c = a +:+ (b +:+ c).
Proof. induction a as [|x a IH]; [reflexivity|]. rewrite !append_cons, IH. reflexivity. Qed.

Lemma make_url_default (org git_file : string) :
  details.make_url org git_file None = "git@github.com:" +:+ org +:+ "/" +:+ git_file.
Proof.
  unfold details.make_url, details.default_url_pattern. cbn [default Str.format_args].
  rewrite append_nil_r. reflexivity.
Qed.

Lemma mem_app (c : ascii) (a b : string) :
  Str.mem c (a +:+ b) = Str.mem c a || Str.mem c b.
Proof.
  induction a as [|x a IH]; [reflexivity|]. rewrite append_cons. cbn [Str.mem].
  destruct (Ascii.eqb c x); [reflexivity | exact IH].
Qed.

Definition newline : string := String "010" EmptyString.

Definition is_space (c : ascii) : bool := Str.mem c Str.whitespace.

(** free of white space and not empty *)
Definition solid (s : string) : bool :=
  negb (Str.empty s) && Str.all (fun c => negb (is_space c)) s.

Lemma drop_while_end_line (s : string) :
  solid s = true -> Str.drop_while_end is_space (s +:+ newline) = s.
Proof.
  unfold solid. induction s as [|c s IH]; [discriminate|].
  cbn [Str.empty negb andb Str.all]. intros Hs. apply andb_true_iff in Hs as [Hc Hs].
  rewrite append_cons. cbn [Str.drop_while_end].
  destruct s as [|d s].
  - rewrite append_nil. change (Str.drop_while_end is_space newline) with "".
    cbv iota. apply negb_true_iff in Hc. rewrite Hc. reflexivity.
  - rewrite IH by exact Hs. reflexivity.
Qed.

Lemma trim_copy_line (s : string) : solid s = true -> Str.trim_copy (s +:+ newline) = s.
Proof.
  intros Hs. unfold Str.trim_copy. fold is_space.
  replace (Str.drop_while is_space (s +:+ newline)) with (s +:+ newline).
  - apply drop_while_end_line, Hs.
  - unfold solid in Hs. destruct s as [|c s]; [discriminate|].
    cbn [Str.empty negb andb Str.all] in Hs. apply andb_true_iff in Hs as [Hc _].
    rewrite append_cons. cbn [Str.drop_while]. apply negb_true_iff in Hc.
    rewrite Hc. reflexivity.
Qed.

Context {W : Type} `{System W}.
Variable cfg : config.

(** X14: The url [make_url] makes with the default pattern is the github ssh
    url of the organisation and git file, and [git_file] gets the git
    file back from it: on a repository whose origin has that url (git
    prints it on a line), the answer is the git file the url was made
    from, for every organisation and every git file without '/' and
    white space. *)
Theorem git_file_of_made_url (g : git_wrap.t) (w : W) (org git_file : string)
    (Hran : exit_code (details.remote_url cfg (git_wrap.root_ g)) w = 0)
    (Hurl : output (details.remote_url cfg (git_wrap.root_ g)) w =
            details.make_url org git_file None +:+ newline)
    (Hfile : Str.mem "/" git_file = false)
    (Hsolid : solid git_file = true) :
  details.make_url org git_file None = "git@github.com:" +:+ org +:+ "/" +:+ git_file /\
  result_of (git_wrap.git_file cfg g) w = Ok git_file.
Proof.
  split; [apply make_url_default|].
  unfold result_of. pose proof (git_file_unfold cfg g w) as E. cbv zeta in E.
  rewrite E, Hran, Hurl, make_url_default. clear E. cbn [Z.eqb negb].
  replace (("git@github.com:" +:+ org +:+ "/" +:+ git_file) +:+ newline)
    with (("git@github.com:" +:+ org) +:+ String "/" (git_file +:+ newline)).
  2:{ rewrite !append_assoc. reflexivity. }
  rewrite find_last_of_app.
  2:{ rewrite mem_app, Hfile. reflexivity. }
  rewrite substr_past_separator, (trim_copy_line _ Hsolid).
  unfold solid in Hsolid. apply andb_true_iff in Hsolid as [Hne _].
  apply negb_true_iff in Hne. rewrite Hne. reflexivity.
Qed.

End UrlRoundTrip.

Lemma git_file_of_made_url_witness :
  exit_code (details.remote_url Sim.cfg Runs.root) Sim.cloned = 0 /\
  output (details.remote_url Sim.cfg Runs.root) Sim.cloned =
    details.make_url "ModOrganizer2" "modorganizer.git" None +:+ newline /\
  Str.mem "/" "modorganizer.git" = false /\
  solid "modorganizer.git" = true /\
  result_of (git_wrap.git_file Sim.cfg RemoteRuns.g) Sim.cloned = Ok "modorganizer.git".
Proof.
  repeat (split; [reflexivity|]).
  apply (git_file_of_made_url Sim.cfg RemoteRuns.g Sim.cloned "ModOrganizer2"
           "modorganizer.git"); reflexivity.
Defined.

(** ** Which files are translation files *)

Section TsNames.

Lemma str_length_app (a b : string) : Str.length (a +:+ b) = (Str.length a + Str.length b)%nat.
Proof. induction a as [|c a IH]; [reflexivity|]. rewrite append_cons. cbn. rewrite IH. reflexivity. Qed.

Lemma substr_split (s : string) (k : nat) :
  (k <= Str.length s)%nat -> exists pre, Str.length pre = k /\ s = pre +:+ Str.substr s k.
Proof.
  revert s. induction k as [|k IH]; intros s Hk.
  - exists "". split; [reflexivity | destruct s; reflexivity].
  - destruct s as [|c s]; [cbn in Hk; lia|]. cbn in Hk.
    destruct (IH s) as (pre & Hlen & Hs); [lia|].
    exists (String c pre). split; [cbn; rewrite Hlen; reflexivity|].
    rewrite append_cons. cbn [Str.substr]. rewrite <- Hs. reflexivity.
Qed.

Lemma ends_with_iff (s suf : string) :
  Str.ends_with s suf = true <-> exists pre, s = pre +:+ suf.
Proof.
  unfold Str.ends_with. split.
  - destruct (Nat.ltb_spec (Str.length s) (Str.length suf)) as [Hlt|Hge]; [discriminate|].
    intros E. apply String.eqb_eq in E.
    destruct (substr_split s (Str.length s - Str.length suf)) as (pre & _ & Hs); [lia|].
    exists pre. rewrite E in Hs. exact Hs.
  - intros [pre ->]. rewrite str_length_app.
    destruct (Nat.ltb_spec (Str.length pre + Str.length suf) (Str.length suf)); [lia|].
    replace (Str.length pre + Str.length suf - Str.length suf)%nat with (Str.length pre) by lia.
    rewrite substr_app. apply String.eqb_refl.
Qed.

Lemma length_zero (s : string) : Str.length s = O -> s = "".
Proof. destruct s; [reflexivity | discriminate]. Qed.

(** the extension of a path ends with .ts exactly when its file name is
    a stem that is not empty followed by .ts *)
Lemma extension_ts_iff (p : path) :
  Str.ends_with (Path.extension p) ".ts" = true <->
  exists stem, stem <> "" /\ Path.filename p = stem +:+ ".ts".
Proof.
  unfold Path.extension. set (f := Path.filename p). clearbody f. split.
  - destruct (String.eqb f "." || String.eqb f ".."); [discriminate|].
    destruct (Str.find_last_of f ".") as [[|i]|] eqn:Ei; try discriminate.
    destruct (find_last_of_split _ _ _ Ei) as (pre & c & seg & -> & Hlen & Hc & Hseg).
    assert (c = "."%char) as ->.
    { cbn in Hc. destruct (Ascii.eqb_spec c "."); [assumption | discriminate]. }
    apply find_last_of_none in Hseg.
    rewrite <- Hlen, substr_app. intros Hends.
    apply ends_with_iff in Hends as [pre' E].
    destruct pre' as [|x pre'].
    + rewrite append_nil in E. injection E as ->.
      exists pre. split; [|reflexivity]. intros ->. discriminate.
    + rewrite append_cons in E. injection E as _ ->.
      rewrite mem_app in Hseg. apply orb_false_iff in Hseg as [_ Hseg]. discriminate.
  - intros (stem & Hne & ->).
    assert (Hlen : exists i, Str.length stem = S i).
    { destruct stem; [contradiction | eauto]. }
    destruct Hlen as [i Hi].
    replace (String.eqb (stem +:+ ".ts") "." || String.eqb (stem +:+ ".ts") "..") with false.
    2:{ symmetry. apply orb_false_iff.
        split; apply String.eqb_neq; intros E; apply (f_equal Str.length) in E;
          rewrite str_length_app, Hi in E; cbn in E; lia. }
    change (stem +:+ ".ts") with (stem +:+ String "." "ts").
    rewrite (find_last_of_app stem "ts" "." eq_refl), Hi, <- Hi, substr_app.
    reflexivity.
Qed.

Context {W : Type} `{System W}.
Variable cfg : config.

(** X15: The files [for_each_ts] calls [f] with are, in the order of the
    recursive walk, the regular files the walk reaches whose name is a
    stem that is not empty followed by ".ts": a file named just ".ts"
    is not one (a leading period starts no extension), nor is "a.tsx" or
    "a.ts.bak", nor a directory named "a.ts". What [f] did stands; the
    first call of [f] that fails ends the loop with that failure; and
    when every call returned, a walk that ended on an error makes
    [for_each_ts] throw, one that ended well makes it return. On a root
    that cannot be opened it throws before any call of [f]. *)
Theorem for_each_ts_visits_the_ts_files (root : path) (f : path -> M W unit) (w : W) :
  let files := map entry_path (List.filter is_ts (sys_walk root w)) in
  trace_of (for_each_ts root f) w = trace_of (for_each files f) w /\
  world_of (for_each_ts root f) w = world_of (for_each files f) w /\
  result_of (for_each_ts root f) w =
    match result_of (for_each files f) w with
    | Ok _ => if sys_walk_error root w then Thrown else Ok tt
    | failed => failed
    end /\
  (sys_walk root w = [] -> sys_walk_error root w = true ->
   for_each_ts root f w = (Thrown, w, [])) /\
  (forall e, is_ts e = true <->
     entry_is_regular_file e = true /\
     exists stem, stem <> "" /\ Path.filename (entry_path e) = stem +:+ ".ts") /\
  is_ts {| entry_path := "src/.ts"; entry_is_regular_file := true |} = false /\
  is_ts {| entry_path := "src/a.tsx"; entry_is_regular_file := true |} = false /\
  is_ts {| entry_path := "src/a.ts.bak"; entry_is_regular_file := true |} = false /\
  is_ts {| entry_path := "src/a.ts"; entry_is_regular_file := false |} = false.
Proof.
  intros files. subst files. unfold trace_of, world_of, result_of.
  rewrite for_each_ts_unfold, trace_end_of_walk, world_end_of_walk, result_end_of_walk.
  split; [reflexivity|]. split; [reflexivity|]. split; [reflexivity|].
  split; [|split; [|repeat split]].
  - intros Hwalk Herr. unfold ts_files, end_of_walk. rewrite Hwalk, Herr. reflexivity.
  - intros e. unfold is_ts. rewrite andb_true_iff, extension_ts_iff. reflexivity.
Qed.

(** X16: On a tree the walk gets through and finds no translation file
    in, [ignore_ts] and [revert_ts] do nothing at all: no question to
    git, no message, no change, and they return. When the walk ends on
    an error (a root that is missing or cannot be read, for one) and
    reached no translation file, they do nothing either and throw. *)
Theorem no_ts_files_nothing_to_do (g : git_wrap.t) (b : bool) (w : W)
    (Hnone : forall e, In e (sys_walk (git_wrap.root_ g) w) -> is_ts e = false) :
  git_wrap.ignore_ts cfg g b w =
    (if sys_walk_error (git_wrap.root_ g) w then Thrown else Ok tt, w, []) /\
  git_wrap.revert_ts cfg g w =
    (if sys_walk_error (git_wrap.root_ g) w then Thrown else Ok tt, w, []).
Proof.
  assert (E : ts_files (git_wrap.root_ g) w = []).
  { unfold ts_files. induction (sys_walk (git_wrap.root_ g) w) as [|e es IH];
      [reflexivity|].
    cbn [List.filter]. rewrite (Hnone e) by (left; reflexivity).
    apply IH. intros e' He'. apply Hnone. right. exact He'. }
  unfold git_wrap.ignore_ts, git_wrap.revert_ts.
  rewrite !for_each_ts_unfold, E. split; reflexivity.
Qed.

End TsNames.

(** a directory made by a prebuilt: sources and a file named just .ts,
    no translation file *)
Definition no_translations : Sim.world :=
  {| Sim.wd_root := "/build/modorganizer"; Sim.wd_present := true; Sim.wd_repo := None;
     Sim.wd_entries :=
       [ {| entry_path := "/build/modorganizer/src"; entry_is_regular_file := false |};
         {| entry_path := "/build/modorganizer/src/main.cpp";
            entry_is_regular_file := true |};
         {| entry_path := "/build/modorganizer/src/.ts";
            entry_is_regular_file := true |} ] |}.

Lemma no_ts_files_nothing_to_do_witness :
  (forall e, In e (sys_walk (git_wrap.root_ RemoteRuns.g) no_translations) ->
             is_ts e = false) /\
  git_wrap.ignore_ts Sim.cfg RemoteRuns.g true no_translations =
    (Ok tt, no_translations, []) /\
  (forall e, In e (sys_walk (git_wrap.root_ RemoteRuns.g) Sim.absent) -> is_ts e = false) /\
  git_wrap.revert_ts Sim.cfg RemoteRuns.g Sim.absent = (Thrown, Sim.absent, []).
Proof.
  assert (Hnone : forall e, In e (sys_walk (git_wrap.root_ RemoteRuns.g) no_translations) ->
                            is_ts e = false).
  { intros e [<- | [<- | [<- | []]]]; reflexivity. }
  assert (Habsent : forall e, In e (sys_walk (git_wrap.root_ RemoteRuns.g) Sim.absent) ->
                              is_ts e = false).
  { intros e []. }
  split; [exact Hnone|]. split.
  - apply (no_ts_files_nothing_to_do Sim.cfg RemoteRuns.g true no_translations Hnone).
  - split; [exact Habsent|].
    apply (no_ts_files_nothing_to_do Sim.cfg RemoteRuns.g true Sim.absent Habsent).
Defined.

(** ** Cleaning the installer and libffi tasks *)

Section TaskClean.

Context {W : Type} `{System W}.
Variable cfg : config.
Variable clean : Type.
Variable is_set : clean -> clean -> bool.
Variable reclone rebuild : clean.
Variable cx : context.

(** what the guarded deletion comes to: refused, it bails out and
    deletes nothing; otherwise it succeeds and deletes [dir], once *)
Lemma delete_directory_outcome (dir : path) (w : W) :
  result_of (git_wrap.delete_directory cfg cx dir) w =
    (if refused cfg dir w then Bailed else Ok tt) /\
  List.filter is_delete (trace_of (git_wrap.delete_directory cfg cx dir) w) =
    (if refused cfg dir w then [] else [DeleteDirectory cx dir]).
Proof.
  unfold result_of, trace_of, refused.
  pose proof (delete_directory_unfold cfg cx dir w) as E. cbv zeta in E. rewrite E. clear E.
  destruct (is_repo_at cfg dir w); cbn [andb negb];
    [destruct (conf_ignore_uncommitted cfg); cbn [andb negb orb];
     [|destruct (uncommitted_at cfg dir w); cbn [orb];
       [|destruct (stashed_at cfg dir w)]]|];
    split; reflexivity.
Qed.

Lemma starts_with_append (a b : string) : Str.starts_with (a +:+ b) a = true.
Proof.
  induction a as [|c a IH]; [destruct b; reflexivity|].
  rewrite append_cons. cbn [Str.starts_with]. rewrite Ascii.eqb_refl. exact IH.
Qed.

(** [a / b] is under [a] *)
Lemma path_append_under (a b : path) : a <> "" -> Str.starts_with (Path.append a b) a = true.
Proof.
  intros Hne. unfold Path.append. destruct a as [|c a]; [contradiction|].
  cbn [Str.empty]. destruct (Str.ends_with (String c a) "/"); apply starts_with_append.
Qed.

(** X17: Cleaning the installer deletes the source tree first and the
    installed files second, each only under its flag. The source tree
    goes through the guarded deletion: when that is refused (a
    repository with uncommitted or stashed changes, no override) the
    clean bails out there, and the deletion of the installed files is
    not called, even with the rebuild flag set. When it is not refused
    the source tree is deleted once and the clean goes on, in the world
    this leaves, with the deletion of the installed files under the
    rebuild flag, and ends as that call ends. Without the reclone flag
    the clean is that call alone, and with neither flag it does nothing.
    This holds whatever the deletion of the installed files does. *)
Theorem installer_clean_stops_at_a_refused_source
    (delete_directory : context -> path -> M W unit)
    (super_path install_installer : path) (c : clean) (w : W) :
  let do_clean := tasks.installer.do_clean cfg clean is_set reclone rebuild cx
                    super_path install_installer delete_directory in
  let source_path := tasks.installer.source_path super_path in
  let guarded := git_wrap.delete_directory cfg cx source_path in
  let installed := when (is_set c rebuild) (delete_directory cx install_installer) in
  (is_set c reclone = true -> refused cfg source_path w = true ->
     do_clean c w = (Bailed, world_of guarded w, trace_of guarded w) /\
     List.filter is_delete (trace_of (do_clean c) w) = []) /\
  (is_set c reclone = true -> refused cfg source_path w = false ->
     let w1 := world_of guarded w in
     do_clean c w =
       (result_of installed w1, world_of installed w1,
        trace_of guarded w ++ trace_of installed w1) /\
     List.filter is_delete (trace_of guarded w) = [DeleteDirectory cx source_path]) /\
  (is_set c reclone = false -> do_clean c w = installed w) /\
  (is_set c reclone = false -> is_set c rebuild = false -> do_clean c w = (Ok tt, w, [])).
Proof.
  intros do_clean source_path guarded installed.
  subst do_clean source_path guarded installed.
  unfold tasks.installer.do_clean.
  destruct (delete_directory_outcome (tasks.installer.source_path super_path) w)
    as [Hres Hdel].
  unfold result_of, world_of, trace_of in *.
  split; [|split; [|split]].
  - intros Hre Href. rewrite Hre, Href in *. cbn [when]. rewrite bind_unfold.
    destruct (git_wrap.delete_directory cfg cx (tasks.installer.source_path super_path) w)
      as [[r w1] t1].
    cbn [fst snd] in *. subst r. cbn [fst snd]. split; [reflexivity|exact Hdel].
  - intros Hre Href. rewrite Hre, Href in *. cbn [when]. cbv zeta. rewrite bind_unfold.
    destruct (git_wrap.delete_directory cfg cx (tasks.installer.source_path super_path) w)
      as [[r w1] t1].
    cbn [fst snd] in *. subst r. split; [reflexivity|exact Hdel].
  - intros Hre. rewrite Hre. cbn [when]. apply bind_ret_l.
  - intros Hre Hrb. rewrite Hre, Hrb. reflexivity.
Qed.

(** X18: Cleaning libffi touches nothing unless the reclone flag is set: the
    rebuild flag alone runs no process and deletes nothing. With the
    flag the source tree in the build directory goes through the guarded
    deletion, so the clean bails out exactly when that is refused. The
    library and its headers are inside the tree that goes. *)
Theorem libffi_clean_only_reclones (build : path) (c : clean) (w : W) :
  let do_clean := tasks.libffi.do_clean cfg clean is_set reclone cx build in
  let source_path := tasks.libffi.source_path build in
  (is_set c reclone = false -> do_clean c w = (Ok tt, w, [])) /\
  (is_set c reclone = true ->
     result_of (do_clean c) w = (if refused cfg source_path w then Bailed else Ok tt) /\
     List.filter is_delete (trace_of (do_clean c) w) =
       (if refused cfg source_path w then [] else [DeleteDirectory cx source_path])) /\
  Str.starts_with (tasks.libffi.lib_path build) source_path = true /\
  Str.starts_with (tasks.libffi.include_path build) (tasks.libffi.lib_path build) = true.
Proof.
  intros do_clean source_path. subst do_clean source_path.
  unfold tasks.libffi.do_clean.
  split; [|split; [|split]].
  - intros ->. reflexivity.
  - intros ->. apply delete_directory_outcome.
  - apply path_append_under. unfold tasks.libffi.source_path, Path.append.
    destruct (Str.empty build); [discriminate|].
    destruct (Str.ends_with build "/"); destruct build; discriminate.
  - apply path_append_under. unfold tasks.libffi.lib_path, Path.append.
    destruct (Str.empty (tasks.libffi.source_path build)); [discriminate|].
    destruct (Str.ends_with (tasks.libffi.source_path build) "/");
      destruct (tasks.libffi.source_path build); discriminate.
Qed.

End TaskClean.

(** *** A clean in the simulated world *)

Module TaskRuns.

(** the flags as a list of their names *)
Definition is_set (c f : list string) : bool :=
  forallb (fun x => existsb (String.eqb x) c) f.

(** the installer sources with an edited script *)
Definition edited : Sim.world :=
  {| Sim.wd_root := "/build/modorganizer_super/installer"; Sim.wd_present := true;
     Sim.wd_repo :=
       Some {| Sim.remotes :=
                 [("origin", "git@github.com:ModOrganizer2/modorganizer-Installer.git")];
               Sim.push_urls := []; Sim.settings := [];
               Sim.status := " M dist/MO2-Installer.iss"; Sim.stashed := false;
               Sim.tracked := ["dist/MO2-Installer.iss"]; Sim.assume_unchanged := [] |};
     Sim.wd_entries := [] |}.

(** a deletion of the installed files that finds them and deletes them *)
Definition deletes (cx : context) (dir : path) : M Sim.world unit :=
  fun w => (Ok tt, w, [DeleteDirectory cx dir]).

(** one that fails *)
Definition fails (cx : context) (dir : path) : M Sim.world unit :=
  Cx.bail_out cx generic "cannot delete {}" [dir].

Definition do_clean (delete_directory : context -> path -> M Sim.world unit)
    : list string -> M Sim.world unit :=
  tasks.installer.do_clean Sim.cfg (list string) is_set ["reclone"] ["rebuild"]
    (cx_named "installer") "/build/modorganizer_super" "/install/installer"
    delete_directory.

End TaskRuns.

(** asked to reclone and rebuild with an edited script in the sources,
    the installer task deletes neither the sources nor the installed
    files; asked to rebuild only, it deletes the installed files, and
    bails out when that deletion fails *)
Example installer_clean_in_sim :
  result_of (TaskRuns.do_clean TaskRuns.deletes ["reclone"; "rebuild"]) TaskRuns.edited
    = Bailed /\
  Runs.summary
    (trace_of (TaskRuns.do_clean TaskRuns.deletes ["reclone"; "rebuild"]) TaskRuns.edited) =
    [ ["rev-parse"; "--is-inside-work-tree"];
      ["status"; "-s"; "--porcelain"];
      ["log"; "will not delete /build/modorganizer_super/installer, has uncommitted changes; see --ignore-uncommitted-changes"] ] /\
  result_of (TaskRuns.do_clean TaskRuns.deletes ["rebuild"]) TaskRuns.edited = Ok tt /\
  Runs.summary (trace_of (TaskRuns.do_clean TaskRuns.deletes ["rebuild"]) TaskRuns.edited) =
    [ ["delete"; "/install/installer"] ] /\
  result_of (TaskRuns.do_clean TaskRuns.fails ["rebuild"]) TaskRuns.edited = Bailed.
Proof. vm_compute. repeat split; reflexivity. Qed.

(** ** The submodule adder: what stopping costs and what waiting gives *)

Section AdderProgress.

Import git_submodule_adder.

Context {W : Type} `{System W}.
Variable cfg : config.

(** the requests the worker took from the queue and has not run *)
Definition batch (pc : worker_pc) : list git_submodule.t :=
  match pc with at_run v | at_batch_quit_check v => v | _ => [] end.

(** X19: Until [stop()] sets [quit_], and unless a tool bailed out and
    ended the worker, no request is given up: the queue order is what was
    run, then the batch the worker holds, then what is still queued. *)
Theorem nothing_is_lost_before_stop
    (programs : list (list git_submodule.t)) (w : W)
    (schedule : list action) (s : state W)
    (Hrun : run cfg schedule (init programs w) = Some s)
    (Hquit : quit_ s = false) (Hworker : worker s <> finished) :
  map snd (emplaced_log s) = attempted s ++ batch (worker s) ++ queue_ s.
Proof.
  destruct (run_invariants cfg programs schedule _ _ Hrun) as [(left & Hlog & Hpend) _].
  { split; [apply init_queue_invariant | apply init_producer_invariant]. }
  assert (Hend : end_invariant s).
  { eapply run_end_invariant; [exact Hrun | apply init_end_invariant]. }
  destruct Hend as [Hnc _].
  rewrite Hlog. f_equal. f_equal.
  destruct (worker s); cbn in *; try assumption; try contradiction.
  destruct Hpend as [E | E]; [assumption | congruence].
Qed.

(** X20: Once [quit_] is set the worker starts at most one more tool,
    and none unless it was already past its last look at [quit_]: every
    other request taken or queued is given up, however the threads run
    on. *)
Theorem stop_lets_at_most_one_tool_start
    (schedule : list action) (s s' : state W)
    (Hquit : quit_ s = true)
    (Hrun : run cfg schedule s = Some s') :
  exists more,
    attempted s' = attempted s ++ more /\
    (length more <= may_still_run (worker s))%nat /\
    (length more <= 1)%nat.
Proof.
  destruct (run_after_stop cfg schedule s s' Hquit Hrun) as (more & E & L).
  exists more. split; [exact E|].
  assert (may_still_run (worker s) <= 1)%nat.
  { destruct (worker s) as [| | | |[|]| | |]; cbn; lia. }
  split; lia.
Qed.

(** *** No wake-up is lost *)

(** a producer inside [queue()] is the one that holds the mutex; while
    something is queued and [quit_] is not set, the worker has been
    woken, or is on its way to the queue, or the producer that queued is
    about to wake it *)
Definition wake_invariant (s : state W) : Prop :=
  (forall i pc, producers s !! i = Some pc -> holds_mutex pc = true ->
     queue_mutex_ s = Some i) /\
  (quit_ s = false -> queue_ s <> [] ->
     sleeper_ready s = true \/ worker s = at_quit_check \/ worker s = at_swap \/
     exists i todo, producers s !! i = Some (emplaced todo)).

Lemma init_wake_invariant programs w : wake_invariant (init programs w).
Proof.
  split; cbn.
  - intros i pc Hi Hh. rewrite list_lookup_fmap in Hi.
    destruct (programs !! i); [|discriminate]. injection Hi as <-. discriminate.
  - intros _ Hne. contradiction.
Qed.

Lemma holder_is_unique (s : state W) i j pci pcj :
  wake_invariant s ->
  producers s !! i = Some pci -> holds_mutex pci = true ->
  producers s !! j = Some pcj -> holds_mutex pcj = true -> i = j.
Proof.
  intros (Hmx & _) Hi Hhi Hj Hhj.
  pose proof (Hmx i pci Hi Hhi) as E1. pose proof (Hmx j pcj Hj Hhj) as E2. congruence.
Qed.

Lemma step_wake_invariant a (s s' : state W) :
  step cfg a s = Some s' -> wake_invariant s -> wake_invariant s'.
Proof.
  intros Hstep Hinv. pose proof Hinv as (Hmx & Hwake).
  destruct a as [i| |]; cbn in Hstep.
  - unfold step_producer in Hstep.
    destruct (producers s !! i) as [[[|g todo]|g todo|todo|todo]|] eqn:Ei; try discriminate.
    + destruct (queue_mutex_ s) eqn:Em; [discriminate|]. injection Hstep as <-.
      assert (Hlt : (i < length (producers s))%nat) by (eapply lookup_lt_Some; eassumption).
      split; cbn.
      * intros j pc Hj Hh. destruct (decide (i = j)) as [<- | Hne]; [reflexivity|].
        rewrite list_lookup_insert_ne in Hj by assumption.
        specialize (Hmx j pc Hj Hh). congruence.
      * intros Hq Hne. destruct (Hwake Hq Hne) as [E | [E | [E | (j & t & Hj)]]]; auto.
        right. right. right. exists j, t.
        destruct (decide (i = j)) as [<- | Hij]; [congruence|].
        rewrite list_lookup_insert_ne by assumption. exact Hj.
    + injection Hstep as <-.
      assert (Hlt : (i < length (producers s))%nat) by (eapply lookup_lt_Some; eassumption).
      split; cbn.
      * intros j pc Hj Hh. destruct (decide (i = j)) as [<- | Hne].
        -- apply (Hmx i _ Ei). reflexivity.
        -- rewrite list_lookup_insert_ne in Hj by assumption. apply (Hmx j pc Hj Hh).
      * intros _ _. right. right. right. exists i, todo.
        apply list_lookup_insert_eq. exact Hlt.
    + injection Hstep as <-.
      assert (Hlt : (i < length (producers s))%nat) by (eapply lookup_lt_Some; eassumption).
      split; cbn.
      * intros j pc Hj Hh. destruct (decide (i = j)) as [<- | Hne].
        -- apply (Hmx i _ Ei). reflexivity.
        -- rewrite list_lookup_insert_ne in Hj by assumption. apply (Hmx j pc Hj Hh).
      * intros _ _. left. reflexivity.
    + injection Hstep as <-.
      assert (Hlt : (i < length (producers s))%nat) by (eapply lookup_lt_Some; eassumption).
      split; cbn.
      * intros j pc Hj Hh. destruct (decide (i = j)) as [<- | Hne].
        -- rewrite list_lookup_insert_eq in Hj by assumption. injection Hj as <-.
           discriminate.
        -- rewrite list_lookup_insert_ne in Hj by assumption.
           exfalso. apply Hne.
           apply (holder_is_unique s i j (woke todo) pc Hinv Ei eq_refl Hj Hh).
      * intros Hq Hne. destruct (Hwake Hq Hne) as [E | [E | [E | (j & t & Hj)]]]; auto.
        right. right. right. exists j, t.
        destruct (decide (i = j)) as [<- | Hij]; [congruence|].
        rewrite list_lookup_insert_ne by assumption. exact Hj.
  - unfold step_worker in Hstep.
    destruct (worker s) as [| | | |[|g rest]|rest| |] eqn:Ew; try discriminate.
    + injection Hstep as <-. split; cbn; [assumption|].
      intros Hq Hne. rewrite Hq.
      destruct (Hwake Hq Hne) as [E | [E | [E | E]]]; auto; discriminate.
    + destruct (sleeper_ready s); [|discriminate]. injection Hstep as <-.
      split; cbn; [assumption|]. auto.
    + injection Hstep as <-. split; cbn; [assumption|].
      intros Hq _. rewrite Hq. auto.
    + destruct (queue_mutex_ s) eqn:Em; [discriminate|]. injection Hstep as <-.
      split; cbn; [|intros _ Hne; contradiction].
      intros j pc Hj Hh. specialize (Hmx j pc Hj Hh). congruence.
    + injection Hstep as <-. split; cbn; [assumption|].
      intros Hq Hne. destruct (Hwake Hq Hne) as [E | [E | [E | E]]]; auto; discriminate.
    + injection Hstep as <-. split; cbn; [assumption|].
      intros Hq Hne. destruct (Hwake Hq Hne) as [E | [E | [E | E]]]; auto; discriminate.
    + injection Hstep as <-. split; cbn; [assumption|].
      intros Hq Hne. rewrite Hq.
      destruct (Hwake Hq Hne) as [E | [E | [E | E]]]; auto; discriminate.
  - unfold step_owner in Hstep. destruct (owner s); try discriminate.
    + injection Hstep as <-. split; cbn; [assumption|discriminate].
    + injection Hstep as <-. split; cbn; [assumption|auto].
    + destruct (worker s) eqn:Ew; try discriminate. injection Hstep as <-.
      split; cbn; [assumption|]. rewrite Ew. assumption.
Qed.

Lemma run_wake_invariant schedule (s s' : state W) :
  run cfg schedule s = Some s' -> wake_invariant s -> wake_invariant s'.
Proof.
  revert s. induction schedule as [|a schedule IH]; intros s Hrun Hinv; cbn in Hrun.
  - injection Hrun as <-. assumption.
  - destruct (step cfg a s) as [s1|] eqn:Hstep; [|discriminate].
    apply (IH s1 Hrun). eapply step_wake_invariant; eassumption.
Qed.

(** the worker is about to run a tool that bails out in the world as it
    is *)
Definition about_to_bail (s : state W) : Prop :=
  exists g rest,
    worker s = at_run (g :: rest) /\
    result_of (git_submodule.run cfg cx_ g) (world s) = Bailed.

(** what the worker leaves alone while it runs a batch *)
Definition untouched (s s' : state W) : Prop :=
  queue_ s' = queue_ s /\ quit_ s' = quit_ s /\ queue_mutex_ s' = queue_mutex_ s /\
  emplaced_log s' = emplaced_log s.

(** a batch is run to its end or to the first tool that bails out *)
Lemma batch_is_run v : forall s : state W,
  worker s = at_run v -> quit_ s = false ->
  exists schedule s',
    run cfg schedule s = Some s' /\ untouched s s' /\
    (worker s' = at_loop_test \/ about_to_bail s').
Proof.
  induction v as [|g rest IH]; intros s Ew Hq.
  - exists [worker_step]. eexists. split.
    + cbn. unfold step_worker. rewrite Ew. reflexivity.
    + split; [repeat split | left; reflexivity].
  - pose proof (submodule_tool_never_throws cfg g (world s)) as Hn.
    destruct (result_of (git_submodule.run cfg cx_ g) (world s)) eqn:Er; [| |contradiction].
    + destruct (IH (set_worker (at_run rest) (run_tool cfg g rest s)))
        as (sch & s' & Hrun & (Hqu' & Hq' & Hm' & Hl') & Hw'); [reflexivity | exact Hq |].
      exists (worker_step :: worker_step :: sch), s'. split.
      * cbn. unfold step_worker at 1. rewrite Ew.
        unfold step_worker at 1. cbn. rewrite running_result, Er, Hq. exact Hrun.
      * split; [repeat split; assumption | exact Hw'].
    + exists [], s. split; [reflexivity|]. split; [repeat split|].
      right. exists g, rest. split; assumption.
Qed.

(** where the worker gets when it is left to itself: the queue taken
    and run, or a tool that bails out *)
Definition settled (s s' : state W) : Prop :=
  quit_ s' = false /\ emplaced_log s' = emplaced_log s /\
  ((queue_ s' = [] /\ (worker s' = at_wait \/ worker s' = at_loop_test)) \/
   about_to_bail s').

Lemma from_swap (s : state W) :
  worker s = at_swap -> quit_ s = false -> queue_mutex_ s = None ->
  exists schedule s', run cfg schedule s = Some s' /\ settled s s'.
Proof.
  intros Ew Hq Hm.
  destruct (batch_is_run (queue_ s) (take_queue s))
    as (sch & s' & Hrun & (Hqu' & Hq' & _ & Hl') & Hw'); [reflexivity | exact Hq |].
  exists (worker_step :: sch), s'. split.
  - cbn. unfold step_worker. rewrite Ew, Hm. exact Hrun.
  - split; [rewrite Hq'; exact Hq|]. split; [exact Hl'|].
    destruct Hw' as [Hw' | Hw']; [left | right; exact Hw'].
    split; [exact Hqu' | right; exact Hw'].
Qed.

Lemma from_wait (s : state W) :
  wake_invariant s ->
  worker s = at_wait -> quit_ s = false -> queue_mutex_ s = None ->
  exists schedule s', run cfg schedule s = Some s' /\ settled s s'.
Proof.
  intros (Hmx & Hwake) Ew Hq Hm.
  destruct (queue_ s) as [|g0 q0] eqn:Equ.
  - exists [], s. split; [reflexivity|]. split; [exact Hq|]. split; [reflexivity|].
    left. split; [exact Equ | left; exact Ew].
  - assert (Hready : sleeper_ready s = true).
    { destruct (Hwake Hq) as [E | [E | [E | (j & t & Hj)]]];
        [first [discriminate | rewrite Equ; discriminate] | exact E | congruence
        | congruence |].
      specialize (Hmx j _ Hj eq_refl). congruence. }
    destruct (from_swap (set_worker at_swap (set_worker at_quit_check (set_ready false s))))
      as (sch & s' & Hrun & Hset); [reflexivity | exact Hq | exact Hm |].
    exists (worker_step :: worker_step :: sch), s'. split.
    + cbn. unfold step_worker at 1. rewrite Ew, Hready.
      unfold step_worker at 1. cbn. rewrite Hq. exact Hrun.
    + exact Hset.
Qed.

Lemma from_loop_test (s : state W) :
  wake_invariant s ->
  worker s = at_loop_test -> quit_ s = false -> queue_mutex_ s = None ->
  exists schedule s', run cfg schedule s = Some s' /\ settled s s'.
Proof.
  intros Hinv Ew Hq Hm.
  assert (Hstep : step cfg worker_step s = Some (set_worker at_wait s)).
  { cbn. unfold step_worker. rewrite Ew, Hq. reflexivity. }
  destruct (from_wait (set_worker at_wait s)) as (sch & s' & Hrun & Hset);
    [eapply step_wake_invariant; eassumption | reflexivity | exact Hq | exact Hm |].
  exists (worker_step :: sch), s'. split; [|exact Hset].
  change (run cfg (worker_step :: sch) s)
    with (match step cfg worker_step s with
          | Some s2 => run cfg sch s2 | None => None end).
  rewrite Hstep. exact Hrun.
Qed.

Lemma from_batch v (s : state W) :
  wake_invariant s ->
  worker s = at_run v -> quit_ s = false -> queue_mutex_ s = None ->
  exists schedule s', run cfg schedule s = Some s' /\ settled s s'.
Proof.
  intros Hinv Ew Hq Hm.
  destruct (batch_is_run v s Ew Hq)
    as (sch1 & s2 & Hrun1 & (Hqu2 & Hq2 & Hm2 & Hl2) & [Ew2 | Hb]).
  - destruct (from_loop_test s2) as (sch2 & s' & Hrun2 & Hq' & Hl' & Hset);
      [eapply run_wake_invariant; eassumption | exact Ew2 | congruence | congruence |].
    exists (sch1 ++ sch2), s'. split.
    + rewrite (run_app cfg _ _ _ _ Hrun1). exact Hrun2.
    + split; [exact Hq'|]. split; [congruence | exact Hset].
  - exists sch1, s2. split; [exact Hrun1|].
    split; [congruence|]. split; [exact Hl2 | right; exact Hb].
Qed.

(** left to itself the worker empties the queue, unless a tool bails
    out *)
Lemma worker_drains (s : state W) :
  wake_invariant s -> quit_ s = false -> queue_mutex_ s = None ->
  worker s <> finished -> worker s <> crashed ->
  exists schedule s', run cfg schedule s = Some s' /\ settled s s'.
Proof.
  intros Hinv Hq Hm Hnf Hnc.
  destruct (worker s) as [| | | |v|v| |] eqn:Ew.
  - apply from_loop_test; assumption.
  - apply from_wait; assumption.
  - destruct (from_swap (set_worker at_swap s)) as (sch & s' & Hrun & Hset);
      [reflexivity | exact Hq | exact Hm |].
    exists (worker_step :: sch), s'. split; [|exact Hset].
    cbn. unfold step_worker. rewrite Ew, Hq. exact Hrun.
  - apply from_swap; assumption.
  - apply (from_batch v); assumption.
  - assert (Hstep : step cfg worker_step s = Some (set_worker (at_run v) s)).
    { cbn. unfold step_worker. rewrite Ew, Hq. reflexivity. }
    destruct (from_batch v (set_worker (at_run v) s)) as (sch & s' & Hrun & Hset);
      [eapply step_wake_invariant; [exact Hstep | exact Hinv]
      | reflexivity | exact Hq | exact Hm |].
    exists (worker_step :: sch), s'. split; [|exact Hset].
    change (run cfg (worker_step :: sch) s)
      with (match step cfg worker_step s with
            | Some s2 => run cfg sch s2 | None => None end).
    rewrite Hstep. exact Hrun.
  - contradiction.
  - contradiction.
Qed.

(** the producer that is inside [queue()] returns from it *)
Lemma producer_returns (s : state W) :
  control_invariant s ->
  exists schedule s',
    run cfg schedule s = Some s' /\ queue_mutex_ s' = None /\ quit_ s' = quit_ s /\
    worker s' = worker s /\
    exists more, emplaced_log s' = emplaced_log s ++ more /\ (length more <= 1)%nat.
Proof.
  intros (Hmx & _ & _). destruct (queue_mutex_ s) as [i|] eqn:Em.
  2:{ exists [], s. repeat split; [assumption|]. exists []. rewrite app_nil_r. split; [reflexivity | cbn; lia]. }
  destruct (Hmx i eq_refl) as (pc & Hi & Hh).
  destruct pc as [todo|g todo|todo|todo]; [discriminate| | |].
  - exists [producer_step i; producer_step i; producer_step i]. eexists. split.
    + cbn. unfold step_producer at 1. rewrite Hi.
      unfold step_producer at 1. cbn.
      rewrite list_lookup_insert_eq by (eapply lookup_lt_Some; eassumption).
      unfold step_producer at 1. cbn.
      rewrite list_lookup_insert_eq
        by (rewrite length_insert; eapply lookup_lt_Some; eassumption).
      reflexivity.
    + repeat split. exists [(i, g)]. split; [reflexivity | cbn; lia].
  - exists [producer_step i; producer_step i]. eexists. split.
    + cbn. unfold step_producer at 1. rewrite Hi.
      unfold step_producer at 1. cbn.
      rewrite list_lookup_insert_eq by (eapply lookup_lt_Some; eassumption).
      reflexivity.
    + repeat split. exists []. cbn. rewrite app_nil_r. split; [reflexivity | lia].
  - exists [producer_step i]. eexists. split.
    + cbn. unfold step_producer at 1. rewrite Hi. reflexivity.
    + repeat split. exists []. cbn. rewrite app_nil_r. split; [reflexivity | lia].
Qed.

(** X21: No wake-up is lost. From every state the threads can reach in
    which [stop()] has not set [quit_] and the worker has not ended,
    the threads can go on, with no new call of [queue()], to a state
    where every request that entered the queue has been run, in queue
    order, and the queue is empty; or else to a state where the worker
    is about to run a tool that bails out in the world as it then is,
    which is the one way a request can stay behind without [stop()]. A
    request queued while the worker was busy or between its checks is
    not left waiting for a later [queue()]. *)
Theorem every_request_can_be_run
    (programs : list (list git_submodule.t)) (w : W)
    (schedule : list action) (s : state W)
    (Hrun : run cfg schedule (init programs w) = Some s)
    (Hquit : quit_ s = false)
    (Hworker : worker s <> finished) :
  exists schedule' s',
    run cfg schedule' s = Some s' /\
    quit_ s' = false /\
    (exists more, emplaced_log s' = emplaced_log s ++ more /\ (length more <= 1)%nat) /\
    ((attempted s' = map snd (emplaced_log s') /\ queue_ s' = []) \/
     (exists g rest,
        worker s' = at_run (g :: rest) /\
        result_of (git_submodule.run cfg cx_ g) (world s') = Bailed)).
Proof.
  assert (Hc : control_invariant s).
  { eapply run_control_invariant; [exact Hrun | apply init_control_invariant]. }
  destruct (producer_returns s Hc) as (sch1 & s1 & Hrun1 & Hm1 & Hq1 & Hw1 & more & Hl1 & Hlen1).
  assert (Hreach1 : run cfg (schedule ++ sch1) (init programs w) = Some s1).
  { rewrite (run_app cfg _ _ _ _ Hrun). exact Hrun1. }
  assert (Hk1 : wake_invariant s1).
  { eapply run_wake_invariant; [exact Hreach1 | apply init_wake_invariant]. }
  assert (He1 : end_invariant s1).
  { eapply run_end_invariant; [exact Hreach1 | apply init_end_invariant]. }
  destruct (worker_drains s1 Hk1) as (sch2 & s2 & Hrun2 & Hq2 & Hl2 & Hset);
    [congruence | exact Hm1 | congruence | apply He1 |].
  assert (Hreach2 : run cfg ((schedule ++ sch1) ++ sch2) (init programs w) = Some s2).
  { rewrite (run_app cfg _ _ _ _ Hreach1). exact Hrun2. }
  exists (sch1 ++ sch2), s2. split; [|split; [|split]].
  - rewrite (run_app cfg _ _ _ _ Hrun1). exact Hrun2.
  - exact Hq2.
  - exists more. split; [congruence | exact Hlen1].
  - destruct Hset as [[Hqu2 Ew2] | Hb]; [left | right; exact Hb].
    split; [|exact Hqu2].
    destruct (run_invariants cfg programs _ _ _ Hreach2) as [(left & Hlog & Hpend) _].
    { split; [apply init_queue_invariant | apply init_producer_invariant]. }
    rewrite Hlog, Hqu2, app_nil_r.
    destruct Ew2 as [E | E]; rewrite E, ?Hq2 in Hpend; cbn in Hpend.
    + subst left. rewrite app_nil_r. reflexivity.
    + destruct Hpend as [-> | Hc2]; [|discriminate]. rewrite app_nil_r. reflexivity.
Qed.

End AdderProgress.

(** ** Concrete schedules for the three facts above *)

Module AdderSchedules.

Import git_submodule_adder.

(** the worker passes its check of [quit_] and only then [stop()] is
    called: the request it is about to take is still run *)
Definition stop_after_the_check : list action :=
  [worker_step] ++ AdderRuns.queue_call 0 ++ [worker_step; worker_step] ++
  AdderRuns.stop_call.

Definition run_on : list action :=
  [worker_step; worker_step; worker_step; worker_step; owner_step].

(** two requests are queued while the worker has not looked yet *)
Definition both_queued : list action :=
  AdderRuns.queue_call 0 ++ AdderRuns.queue_call 1.

End AdderSchedules.

Lemma nothing_is_lost_before_stop_witness :
  exists s,
    git_submodule_adder.run Sim.cfg AdderRuns.two_producers
      (git_submodule_adder.init [[AdderRuns.usvfs]; [AdderRuns.uibase]] Sim.cloned) = Some s /\
    git_submodule_adder.quit_ s = false /\
    git_submodule_adder.worker s <> git_submodule_adder.finished /\
    map snd (git_submodule_adder.emplaced_log s) =
      git_submodule_adder.attempted s ++ batch (git_submodule_adder.worker s) ++
      git_submodule_adder.queue_ s.
Proof.
  eexists. split; [vm_compute; reflexivity|].
  split; [reflexivity|]. split; [discriminate|].
  apply (nothing_is_lost_before_stop Sim.cfg
           [[AdderRuns.usvfs]; [AdderRuns.uibase]] Sim.cloned AdderRuns.two_producers);
    [vm_compute; reflexivity | reflexivity | discriminate].
Defined.

Lemma stop_lets_at_most_one_tool_start_witness :
  exists s s',
    git_submodule_adder.run Sim.cfg AdderSchedules.stop_after_the_check
      (git_submodule_adder.init [[AdderRuns.usvfs]] Sim.cloned) = Some s /\
    git_submodule_adder.quit_ s = true /\
    git_submodule_adder.run Sim.cfg AdderSchedules.run_on s = Some s' /\
    git_submodule_adder.attempted s' = git_submodule_adder.attempted s ++ [AdderRuns.usvfs] /\
    exists more,
      git_submodule_adder.attempted s' = git_submodule_adder.attempted s ++ more /\
      (length more <= may_still_run (git_submodule_adder.worker s))%nat /\
      (length more <= 1)%nat.
Proof.
  eexists. eexists. split; [vm_compute; reflexivity|].
  split; [reflexivity|].
  split; [vm_compute; reflexivity|].
  split; [reflexivity|].
  apply (stop_lets_at_most_one_tool_start Sim.cfg AdderSchedules.run_on);
    [reflexivity | vm_compute; reflexivity].
Defined.

Lemma every_request_can_be_run_witness :
  exists s,
    git_submodule_adder.run Sim.cfg AdderSchedules.both_queued
      (git_submodule_adder.init [[AdderRuns.usvfs]; [AdderRuns.uibase]] Sim.cloned) = Some s /\
    git_submodule_adder.quit_ s = false /\
    git_submodule_adder.worker s <> git_submodule_adder.finished /\
    git_submodule_adder.attempted s = [] /\
    exists schedule' s',
      git_submodule_adder.run Sim.cfg schedule' s = Some s' /\
      git_submodule_adder.quit_ s' = false /\
      (exists more, git_submodule_adder.emplaced_log s' =
                      git_submodule_adder.emplaced_log s ++ more /\
                    (length more <= 1)%nat) /\
      ((git_submodule_adder.attempted s' =
          map snd (git_submodule_adder.emplaced_log s') /\
        git_submodule_adder.queue_ s' = []) \/
       (exists g rest,
          git_submodule_adder.worker s' = git_submodule_adder.at_run (g :: rest) /\
          result_of (git_submodule.run Sim.cfg git_submodule_adder.cx_ g)
            (git_submodule_adder.world s') = Bailed)).
Proof.
  eexists. split; [vm_compute; reflexivity|].
  split; [reflexivity|]. split; [discriminate|]. split; [reflexivity|].
  apply (every_request_can_be_run Sim.cfg
           [[AdderRuns.usvfs]; [AdderRuns.uibase]] Sim.cloned AdderSchedules.both_queued);
    [vm_compute; reflexivity | reflexivity | discriminate].
Defined.

(** left to itself after both calls of [queue()], the worker of the
    simulated world runs both requests, in queue order *)
Example both_requests_run_in_sim :
  exists s s',
    git_submodule_adder.run Sim.cfg AdderSchedules.both_queued
      (git_submodule_adder.init [[AdderRuns.usvfs]; [AdderRuns.uibase]] Sim.cloned) = Some s /\
    git_submodule_adder.run Sim.cfg
      (repeat git_submodule_adder.worker_step 9) s = Some s' /\
    git_submodule_adder.attempted s' = [AdderRuns.usvfs; AdderRuns.uibase] /\
    git_submodule_adder.queue_ s' = [] /\
    git_submodule_adder.quit_ s' = false.
Proof.
  eexists. eexists. split; [vm_compute; reflexivity|].
  split; [vm_compute; reflexivity|]. repeat split.
Qed.

(** ** The listing of tasks *)

Section Listing.

Import list_command.

Variable join : list string -> string -> string.
Variable max_size : Z.
Hypothesis max_size_is_a_size_t : 0 <= max_size < 2 ^ 64.

(** the tasks without the disabled ones and what is under them *)
Fixpoint prune (v : tasks) : tasks :=
  match v with
  | no_task => no_task
  | more_tasks t v' =>
      if enabled t
      then more_tasks
             (Task (names t) true
                   (match children t with
                    | Some ct => Some (prune ct)
                    | None => None
                    end))
             (prune v')
      else prune v'
  end.

(** every task with its depth, a task before its children and these
    before the tasks that follow it *)
Fixpoint flatten (v : tasks) (depth : Z) : list (Z * list string) :=
  match v with
  | no_task => []
  | more_tasks t v' =>
      (depth, names t) ::
      (match children t with
       | Some ct => flatten ct (depth + 1)
       | None => []
       end) ++
      flatten v' depth
  end.

(** how many levels of containers there are *)
Fixpoint levels (v : tasks) : Z :=
  match v with
  | no_task => 0
  | more_tasks t v' =>
      Z.max (match children t with
             | Some ct => 1 + levels ct
             | None => 0
             end)
            (levels v')
  end.

Definition line (e : Z * list string) : string :=
  spaces (Z.to_nat (4 * fst e)) +:+ " - " +:+ join (snd e) "," +:+ String "010" EmptyString.

Fixpoint lines (l : list (Z * list string)) : string :=
  match l with
  | [] => ""
  | e :: l' => line e +:+ lines l'
  end.

Lemma lines_app (l1 l2 : list (Z * list string)) :
  lines (l1 ++ l2) = lines l1 +:+ lines l2.
Proof.
  induction l1 as [|e l1 IH]; [reflexivity|].
  cbn [lines app]. rewrite IH. symmetry. apply append_assoc.
Qed.

Lemma levels_nonneg (v : tasks) : 0 <= levels v.
Proof.
  revert v. fix IH 1. intros [|[n e c] v']; [cbn; lia|].
  cbn [levels children]. pose proof (IH v') as Hv. clear IH. lia.
Qed.

(** X22: [dump] prints one line for each task that is enabled and sits
    under enabled containers only; a disabled task is left out together
    with everything under it, enabled or not. The lines come in the
    order of the walk, a task before its children, the names joined
    with a comma after four spaces for each level of depth. This is so,
    and the listing runs to its end, as long as four times the deepest
    indentation is a length a string can have: the indentation is a
    64-bit count that would wrap around, or a string too long to
    build, beyond that. *)
Theorem dump_lists_what_is_enabled (v : tasks) (indent : Z)
    (Hindent : 0 <= indent)
    (Hfits : 4 * (indent + levels (prune v)) <= max_size) :
  dump join max_size v indent = (lines (flatten (prune v) indent), true).
Proof.
  revert v indent Hindent Hfits. fix IH 1.
  intros [|[n e c] v'] indent Hindent Hfits; [reflexivity|].
  cbn [dump prune enabled names children] in *.
  destruct e; cbn [negb] in *; [|apply IH; assumption].
  cbn [levels children flatten lines names] in Hfits |- *.
  pose proof (levels_nonneg (prune v')) as Hv'.
  assert (Hpad : string_of_spaces max_size (size_t (indent * 4)) =
                 Some (spaces (Z.to_nat (4 * indent)))).
  { unfold string_of_spaces, size_t.
    rewrite Z.mod_small by (destruct c; [pose proof (levels_nonneg (prune t))|]; lia).
    replace (indent * 4) with (4 * indent) by lia.
    destruct (Z.ltb_spec max_size (4 * indent)) as [Hlt|Hle]; [|reflexivity].
    destruct c; [pose proof (levels_nonneg (prune t))|]; lia. }
  rewrite Hpad. clear Hpad.
  rewrite lines_app. unfold line at 1. cbn [fst snd].
  assert (Hrest : dump join max_size v' indent = (lines (flatten (prune v') indent), true)).
  { apply IH; [assumption|].
    destruct c; [pose proof (levels_nonneg (prune t))|]; lia. }
  destruct c as [ct|].
  - pose proof (levels_nonneg (prune ct)) as Hct.
    assert (Hunder : dump join max_size ct (size_t (indent + 1)) =
                     (lines (flatten (prune ct) (indent + 1)), true)).
    { unfold size_t. rewrite Z.mod_small by lia. apply IH; lia. }
    rewrite Hunder, Hrest. cbn [fst snd].
    rewrite <- !append_assoc. reflexivity.
  - rewrite Hrest. cbn [fst snd lines flatten].
    rewrite <- !append_assoc. reflexivity.
Qed.

End Listing.

Module ListRuns.

Definition comma (l : list string) (sep : string) : string := String.concat sep l.

(** the longest string of a 64-bit implementation *)
Definition max_size : Z := 2 ^ 63 - 1.

Definition leaf (n : string) : list_command.task := list_command.Task [n] true None.

Definition group (n : string) (on : bool) (v : list_command.tasks) : list_command.task :=
  list_command.Task [n] on (Some v).

Definition two (a b : list_command.task) : list_command.tasks :=
  list_command.more_tasks a (list_command.more_tasks b list_command.no_task).

Definition top_level : list_command.tasks :=
  list_command.more_tasks
    (group "super" true (two (leaf "modorganizer") (list_command.Task ["uibase"] false None)))
    (two (group "translations" false (two (leaf "nl") (leaf "fr")))
         (list_command.Task ["installer"; "inst"] true None)).

End ListRuns.

Lemma dump_lists_what_is_enabled_witness :
  0 <= ListRuns.max_size < 2 ^ 64 /\
  4 * (0 + levels (prune ListRuns.top_level)) <= ListRuns.max_size /\
  list_command.dump ListRuns.comma ListRuns.max_size ListRuns.top_level 0 =
    (lines ListRuns.comma (flatten (prune ListRuns.top_level) 0), true).
Proof.
  assert (Hmax : 0 <= ListRuns.max_size < 2 ^ 64) by (unfold ListRuns.max_size; lia).
  assert (Hfits : 4 * (0 + levels (prune ListRuns.top_level)) <= ListRuns.max_size)
    by (vm_compute; discriminate).
  split; [exact Hmax|]. split; [exact Hfits|].
  apply (dump_lists_what_is_enabled ListRuns.comma ListRuns.max_size Hmax
           ListRuns.top_level 0); [lia | exact Hfits].
Defined.

(** a container that is disabled hides the enabled tasks under it *)
Example dump_in_example :
  list_command.dump ListRuns.comma ListRuns.max_size ListRuns.top_level 0 =
  (String.concat (String "010" EmptyString)
     [ " - super";
       "     - modorganizer";
       " - installer,inst";
       "" ],
   true).
Proof. vm_compute. reflexivity. Qed.

(** an indentation of 2^62 wraps around to none; one of 2^61 asks for a
    string that cannot be built, and the listing ends before the line *)
Example dump_wraps_around :
  list_command.dump ListRuns.comma ListRuns.max_size
    (list_command.more_tasks (ListRuns.leaf "nl") list_command.no_task) (2 ^ 62) =
    (String.concat (String "010" EmptyString) [" - nl"; ""], true) /\
  list_command.dump ListRuns.comma ListRuns.max_size
    (list_command.more_tasks (ListRuns.leaf "nl") list_command.no_task) (2 ^ 61) =
    ("", false).
Proof. split; vm_compute; reflexivity. Qed.
